(** * Sanskrit search library: pratika identification and sandhi-aware search

    A shallow embedding of [pratika.js] (class [PratikaIdentifier]),
    [sandhi-rules.js] (class [SanskritSandhiRules]) and [sanskrit-search.js]
    (class [SanskritSearch]), followed by the properties proved about them.

    JavaScript strings are sequences of UTF-16 code units; every index,
    length and slice of the source counts code units, so a string is
    modelled as a list of code units ([Z]). *)

From Stdlib Require Import ZArith List Bool Lia String Ascii Permutation Sorted.
Import ListNotations.
Local Open Scope Z_scope.

Set Implicit Arguments.

(* ================================================================== *)
(** * JavaScript strings and the string primitives the source uses     *)
(* ================================================================== *)

Module JS.

Definition str := list Z.

(** ** String literals

    The literals of the source are written here as they are there; [u]
    decodes the UTF-8 bytes of a literal into UTF-16 code units. *)

Definition bytes (s : string) : list Z :=
  map (fun a => Z.of_N (N_of_ascii a)) (list_ascii_of_string s).

Definition cont (b : Z) : Z := Z.land b 0x3F.

Fixpoint utf16 (bs : list Z) : str :=
  match bs with
  | [] => []
  | b0 :: r0 =>
    if b0 <? 0x80 then b0 :: utf16 r0
    else if b0 <? 0xE0 then
      match r0 with
      | b1 :: r1 => Z.lor (Z.shiftl (Z.land b0 0x1F) 6) (cont b1) :: utf16 r1
      | _ => []
      end
    else if b0 <? 0xF0 then
      match r0 with
      | b1 :: b2 :: r2 =>
        Z.lor (Z.shiftl (Z.land b0 0x0F) 12)
              (Z.lor (Z.shiftl (cont b1) 6) (cont b2)) :: utf16 r2
      | _ => []
      end
    else
      match r0 with
      | b1 :: b2 :: b3 :: r3 =>
        let cp := Z.lor (Z.shiftl (Z.land b0 0x07) 18)
                   (Z.lor (Z.shiftl (cont b1) 12)
                     (Z.lor (Z.shiftl (cont b2) 6) (cont b3))) in
        let v := cp - 0x10000 in
        (0xD800 + Z.shiftr v 10) :: (0xDC00 + Z.land v 0x3FF) :: utf16 r3
      | _ => []
      end
  end.

Definition u (s : string) : str := utf16 (bytes s).
Arguments u s%_string.

(** ** Length, equality, indexing *)

Definition len (s : str) : Z := Z.of_nat (List.length s).

Fixpoint eqb (a b : str) : bool :=
  match a, b with
  | [], [] => true
  | x :: a', y :: b' => (x =? y) && eqb a' b'
  | _, _ => false
  end.

Definition clamp (lo hi x : Z) : Z := Z.max lo (Z.min x hi).

(** A relative index as [slice] and [substr] read it: negative counts
    from the end. *)
Definition relIndex (n x : Z) : Z :=
  if x <? 0 then Z.max (n + x) 0 else Z.min x n.

Definition range (s : str) (from to : Z) : str :=
  firstn (Z.to_nat (to - from)) (skipn (Z.to_nat from) s).

(** [s.slice(a, b)] and [s.slice(a)]. *)
Definition slice (s : str) (a b : Z) : str :=
  range s (relIndex (len s) a) (relIndex (len s) b).

Definition sliceFrom (s : str) (a : Z) : str :=
  range s (relIndex (len s) a) (len s).

(** [s.substring(a, b)]: both ends clamped, swapped when out of order. *)
Definition substring (s : str) (a b : Z) : str :=
  let a' := clamp 0 (len s) a in
  let b' := clamp 0 (len s) b in
  range s (Z.min a' b') (Z.max a' b').

(** [s.substr(start, length)]. *)
Definition substr (s : str) (start length : Z) : str :=
  let st := relIndex (len s) start in
  let n := Z.min (Z.max length 0) (len s - st) in
  range s st (st + n).

(** [s[i]]: [None] is [undefined]. *)
Definition at_ (s : str) (i : Z) : option Z :=
  if i <? 0 then None else nth_error s (Z.to_nat i).

Definition lastChar (s : str) : option Z := at_ s (len s - 1).

(** ** Searching *)

Fixpoint isPrefixOf (p s : str) : bool :=
  match p, s with
  | [], _ => true
  | x :: p', y :: s' => (x =? y) && isPrefixOf p' s'
  | _ :: _, [] => false
  end.

Definition startsWith (s p : str) : bool := isPrefixOf p s.

(** The last [n] code units of [s] (all of [s] when it is shorter). *)
Definition lastN (n : nat) (s : str) : str :=
  skipn (List.length s - n)%nat s.

Definition endsWith (s p : str) : bool :=
  (List.length p <=? List.length s)%nat && eqb (lastN (List.length p) s) p.

Fixpoint indexOfAux (p s : str) (k : Z) : Z :=
  if isPrefixOf p s then k
  else match s with
       | [] => -1
       | _ :: s' => indexOfAux p s' (k + 1)
       end.

(** [s.indexOf(p, from)]; [-1] when [p] does not occur at or after [from]. *)
Definition indexOf (s p : str) (from : Z) : Z :=
  let f := clamp 0 (len s) from in
  indexOfAux p (skipn (Z.to_nat f) s) f.

Definition includes (s p : str) : bool := negb (indexOf s p 0 =? -1).

(** ** Character classes *)

Definition inClass (cls : str) (c : Z) : bool := existsb (Z.eqb c) cls.

(** WhiteSpace and LineTerminator code units: what [trim] removes and what
    [\s] matches. *)
Definition isWhiteSpace (c : Z) : bool :=
  inClass [0x09; 0x0A; 0x0B; 0x0C; 0x0D; 0x20; 0xA0; 0x1680; 0x2028; 0x2029;
           0x202F; 0x205F; 0x3000; 0xFEFF] c
  || ((0x2000 <=? c) && (c <=? 0x200A)).

Fixpoint dropWhile (f : Z -> bool) (s : str) : str :=
  match s with
  | [] => []
  | c :: s' => if f c then dropWhile f s' else s
  end.

Definition trimStart (s : str) : str := dropWhile isWhiteSpace s.
Definition trimEnd (s : str) : str := rev (dropWhile isWhiteSpace (rev s)).
Definition trim (s : str) : str := trimEnd (trimStart s).

(** ** Replacement *)

(** [s.replace(/p/g, r)] for a literal, non-empty [p]: every occurrence,
    left to right, without overlap. *)
Fixpoint replaceAllAux (fuel : nat) (p r s : str) : str :=
  match fuel with
  | O => s
  | S fuel' =>
    match s with
    | [] => []
    | c :: s' =>
      if isPrefixOf p s
      then r ++ replaceAllAux fuel' p r (skipn (List.length p) s)
      else c :: replaceAllAux fuel' p r s'
    end
  end.

Definition replaceAll (s p r : str) : str :=
  replaceAllAux (List.length s) p r s.

(** [s.replace(/p$/, r)] for a literal [p]. *)
Definition replaceAtEnd (s p r : str) : str :=
  if endsWith s p then firstn (List.length s - List.length p)%nat s ++ r else s.

(** ** Sets of strings and sorting *)

Definition mem (x : str) (l : list str) : bool := existsb (eqb x) l.

(** [[...new Set(l)]]: first occurrences, in order. *)
Fixpoint uniqAux (seen : list str) (l : list str) : list str :=
  match l with
  | [] => []
  | x :: l' => if mem x seen then uniqAux seen l' else x :: uniqAux (x :: seen) l'
  end.

Definition uniq (l : list str) : list str := uniqAux [] l.

(** [Array.prototype.sort(cmp)] is stable; [cmp a b] is the number the
    comparator returns. *)
Section Sort.
Variable A : Type.
Variable cmp : A -> A -> Z.

Fixpoint insertSorted (x : A) (l : list A) : list A :=
  match l with
  | [] => [x]
  | y :: l' => if cmp x y <=? 0 then x :: l else y :: insertSorted x l'
  end.

Fixpoint sortBy (l : list A) : list A :=
  match l with
  | [] => []
  | x :: l' => insertSorted x (sortBy l')
  end.
End Sort.

(** [text.split(/[cls]+/).filter(w => w.length > 0)]: the maximal runs of
    code units outside the separator class. *)
Fixpoint splitRuns (sep : Z -> bool) (cur : str) (s : str) : list str :=
  match s with
  | [] => match cur with [] => [] | _ => [rev cur] end
  | c :: s' =>
    if sep c
    then match cur with
         | [] => splitRuns sep [] s'
         | _ => rev cur :: splitRuns sep [] s'
         end
    else splitRuns sep (c :: cur) s'
  end.

Definition splitNonEmpty (sep : Z -> bool) (s : str) : list str :=
  splitRuns sep [] s.

(** ** Values

    The arguments a caller can pass where the source expects a string.
    Numbers are kept only as far as truthiness sees them. *)
Inductive value : Type :=
| VUndefined
| VNull
| VBool (b : bool)
| VNumber (n : Z)
| VNaN
| VString (s : str)
| VObject.

(** [!v] is [negb (truthy v)]. *)
Definition truthy (v : value) : bool :=
  match v with
  | VUndefined | VNull | VNaN => false
  | VBool b => b
  | VNumber n => negb (n =? 0)
  | VString s => negb (eqb s [])
  | VObject => true
  end.

Definition isString (v : value) : bool :=
  match v with VString _ => true | _ => false end.

(** How a call ends: with a value, with a thrown [TypeError], or not at all. *)
Inductive completion (A : Type) : Type :=
| Normal (a : A)
| ThrowTypeError
| Diverges.
Arguments ThrowTypeError {A}.
Arguments Diverges {A}.

(** ** The platform

    [String.prototype.normalize('NFC')], [String.prototype.toLowerCase] and
    [Date.now()] belong to the JavaScript runtime, not to the library: the
    model takes them as parameters. *)
Class Platform : Type := {
  normalize : str -> str;
  toLowerCase : str -> str;
  now : Z
}.

End JS.

(* ================================================================== *)
(** * pratika.js: class PratikaIdentifier                              *)
(* ================================================================== *)

Module PratikaIdentifier.
Import JS.

(** The object [identifyPratika] returns; [None] in a field is [null]. *)
Record PratikaAnalysis : Type := {
  isPratika : bool;
  originalText : str;
  stem : option str;
  pattern : option str;
  patternDescription : str;
  itiEnding : option str;
  confidence : Z
}.

(** [/[िीे]ति$/.test(t)] *)
Definition endsWithMatraTi (t : str) : bool :=
  match lastN 3 t with
  | [c; t1; t2] => inClass (u "िीे") c && eqb [t1; t2] (u "ति")
  | _ => false
  end.

(** [/\s+इति$/.test(t)] *)
Definition endsWithSpaceIti (t : str) : bool :=
  match lastN 4 t with
  | [w; i1; i2; i3] => isWhiteSpace w && eqb [i1; i2; i3] (u "इति")
  | _ => false
  end.

(** [/^[^िीे]+इति$/.test(t)] *)
Definition isPlainWordIti (t : str) : bool :=
  let body := firstn (List.length t - 3)%nat t in
  endsWith t (u "इति")
  && negb (eqb body [])
  && forallb (fun c => negb (inClass (u "िीे") c)) body.

(** [/^\s+इति$/] on a suffix of the text: where [/\s+इति$/] can match. *)
Definition isSpacesIti (s : str) : bool :=
  match s with
  | c :: s' => isWhiteSpace c && eqb (dropWhile isWhiteSpace s') (u "इति")
  | [] => false
  end.

(** [t.replace(/\s+इति$/, '')]: the leftmost match is removed. *)
Fixpoint removeSpaceIti (t : str) : str :=
  if isSpacesIti t then []
  else match t with
       | [] => []
       | c :: t' => c :: removeSpaceIti t'
       end.

(** A character-class regex with [$], tested on a string. *)
Definition lastIn (cls : str) (s : str) : bool :=
  match lastChar s with
  | Some c => inClass cls c
  | None => false
  end.

(** A character-class regex without anchors, tested on a string. *)
Definition someIn (cls : str) (s : str) : bool := existsb (inClass cls) s.

Definition notPratika (trimmedText description : str) : PratikaAnalysis :=
  {| isPratika := false;
     originalText := trimmedText;
     stem := None;
     pattern := None;
     patternDescription := description;
     itiEnding := None;
     confidence := 0 |}.

(** What the cascade of suffix rules assigns: [working], [pattern],
    [description], [confidence]. *)
Record Restoration : Type := {
  working : str;
  rulePattern : str;
  description : str;
  ruleConfidence : Z
}.

Definition rule (w p d : str) (c : Z) : Restoration :=
  {| working := w; rulePattern := p; description := d; ruleConfidence := c |}.

(** The [if / else if] cascade of [identifyPratika], in the order of the
    source. Every test is on [trimmedText]. *)
Definition restore (trimmedText : str) : Restoration :=
  let t := trimmedText in
  if endsWith t (u "य्विति") then
    rule (slice t 0 (-6) ++ u "यु") (u "yaviti")
         (u "YU (यु) + इति → य्विति sandhi") 85
  else if endsWith t (u "ाविति") then
    rule (slice t 0 (-5) ++ u "ौ") (u "aaviti")
         (u "AU (ौ) + इति → ाविति sandhi") 85
  else if endsWith t (u "स्येति") then
    rule (slice t 0 (-4) ++ u "य") (u "syeti")
         (u "Genitive singular + इति") 90
  else if endsWith t (u "ायेति") then
    rule (slice t 0 (-5)) (u "aayeti") (u "Dative singular + इति") 80
  else if endsWith t (u "भिरिति") then
    let beforePattern := slice t 0 (-6) in
    if negb (eqb beforePattern [])
       && negb (endsWith beforePattern (u "ृ"))
       && negb (endsWith beforePattern (u "ॄ"))
    then rule (beforePattern ++ u "भिः") (u "bhiriti-visarga")
              (u "Instrumental plural (ः → र sandhi) + इति") 90
    else rule (slice t 0 (-6) ++ u "भिर") (u "bhiriti")
              (u "Instrumental plural + इति") 90
  else if endsWith t (u "मिति") then
    rule (slice t 0 (-4) ++ u "म्") (u "miti")
         (u "Accusative singular (म्) + इति") 85
  else if endsWith t (u "दिति") then
    rule (slice t 0 (-4) ++ u "त्") (u "diti")
         (u "त् + इति → दिति sandhi") 85
  else if endsWith t (u "रिति") then
    let before := slice t (-5) (-4) in
    if eqb before (u "ृ") || eqb before (u "ॄ")
    then rule (slice t 0 (-4)) (u "riti-rvowel") (u "R vowel + इति") 80
    else rule (slice t 0 (-4) ++ u "ः") (u "riti-visarga")
              (u "Visarga (ः) + इति → रिति sandhi") 88
  else if endsWith t (u "येभ्यरिति") then
    rule (slice t 0 (-8) ++ u "येभ्यः") (u "yebhyariti")
         (u "Dative/ablative plural + इति") 95
  else if endsWith t (u "ेभ्यरिति") then
    rule (slice t 0 (-8) ++ u "ेभ्यः") (u "ebhyariti")
         (u "Dative/ablative plural + इति") 95
  else if endsWith t (u "भ्यामिति") then
    rule (slice t 0 (-7)) (u "bhyaamiti")
         (u "Dual instrumental/dative/ablative + इति") 95
  else if endsWith t (u "ानामिति") then
    rule (slice t 0 (-7)) (u "aanaamiti") (u "Genitive plural + इति") 95
  else if endsWith t (u "णामिति") then
    rule (slice t 0 (-6)) (u "naamiti")
         (u "Genitive plural feminine + इति") 95
  else if endsWith t (u "यामिति") then
    rule (slice t 0 (-6)) (u "yaamiti")
         (u "Locative feminine singular + इति") 95
  else if endsWith t (u "यारिति") then
    rule (slice t 0 (-5) ++ u "याः") (u "yaarिति")
         (u "Genitive/ablative feminine + इति") 90
  else if endsWith t (u "ेणेति") then
    rule (slice t 0 (-4)) (u "eneti") (u "Instrumental singular + इति") 90
  else if endsWith t (u "ोरिति") then
    rule (slice t 0 (-5) ++ u "ोः") (u "oriti")
         (u "Dual genitive/locative + इति") 90
  else if endsWith t (u "ष्विति") then
    rule (slice t 0 (-5)) (u "shviti") (u "Locative plural + इति") 85
  else if endsWith t (u "स्विति") then
    rule (slice t 0 (-5)) (u "sviti")
         (u "Locative plural feminine + इति") 85
  else if endsWith t (u "ैरिति") then
    rule (slice t 0 (-5) ++ u "ैः") (u "airiti")
         (u "Instrumental plural + इति") 85
  else if endsWith t (u "ानिति") then
    rule (slice t 0 (-5)) (u "aaniti") (u "Accusative plural + इति") 80
  else if endsWith t (u "ानीति") then
    rule (slice t 0 (-6)) (u "aaneeiti")
         (u "Accusative plural (ानि) + इति") 80
  else if endsWith t (u "ोति") then
    let beforeO := slice t (-4) (-3) in
    if negb (eqb beforeO [])
       && someIn (u "कखगघङचछजझञटठडढणतथदधनपफबभमयरलवशषसह") beforeO
    then rule (slice t 0 (-3) ++ u "ः") (u "oti-visarga")
              (u "Visarga (ः) + इति → ोति sandhi") 70
    else rule (slice t 0 (-3)) (u "oti") (u "O vowel + इति") 65
  else if endsWith t (u "ेति") then
    rule (slice t 0 (-3)) (u "eti") (u "A vowel or stem + इति") 65
  else if endsWith t (u "ीति") then
    rule (slice t 0 (-3)) (u "eeti") (u "I vowel + इति") 70
  else if endsWith t (u "ूति") then
    rule (slice t 0 (-3)) (u "ooti") (u "U vowel + इति") 70
  else if endsWith t (u "ैति") then
    rule (slice t 0 (-3)) (u "aiti") (u "E/AI vowel + इति") 70
  else if endsWith t (u "ौति") then
    rule (slice t 0 (-3)) (u "auti") (u "AU dual + इति") 70
  else if endsWith t (u "लिति") then
    rule (slice t 0 (-4)) (u "liti") (u "L vowel + इति") 80
  else if endsWith t (u "विति") then
    rule (slice t 0 (-4)) (u "viti") (u "U vowel + इति") 75
  else if endsWith t (u "येति") then
    rule (slice t 0 (-4)) (u "yeti")
         (u "Instrumental/dative singular + इति") 75
  else
    rule (slice t 0 (-3)) (u "generic") (u "Generic stem + इति") 60.

Section WithPlatform.
Context {P : Platform}.

(** The body of [identifyPratika] from [trimmedText] on. *)
Definition analyse (trimmedText : str) : PratikaAnalysis :=
  if negb (endsWithMatraTi trimmedText)
     && negb (endsWithSpaceIti trimmedText)
     && negb (isPlainWordIti trimmedText)
  then
    notPratika trimmedText
      (u "Only words ending with इति, िति, ीति, or ेति qualify as pratikas")
  else if endsWithSpaceIti trimmedText then
    let wordBeforeIti := trim (removeSpaceIti trimmedText) in
    let endsWithVowelMark := lastIn (u "ािीुूृॄॢॣेैोौ") wordBeforeIti in
    let endsWithVisargaOrAnusvara := lastIn (u "ःंँ") wordBeforeIti in
    if endsWithVowelMark || endsWithVisargaOrAnusvara then
      notPratika trimmedText
        (u "Space-separated इति with explicit vowel/visarga is not a pratika")
    else
      {| isPratika := true;
         originalText := trimmedText;
         stem := Some wordBeforeIti;
         pattern := Some (u "space-iti-inherent-a");
         patternDescription :=
           u "Space + इति after consonant (inherent अ sandhi)";
         itiEnding := Some (u " इति");
         confidence := 75 |}
  else
    let r := restore trimmedText in
    let stem := normalize (working r) in
    if len stem <? 2 then
      notPratika trimmedText
        (u "Stem too short - likely a regular word, not a pratika")
    else
      {| isPratika := true;
         originalText := trimmedText;
         stem := Some stem;
         pattern := Some (rulePattern r);
         patternDescription := description r;
         itiEnding := Some (sliceFrom trimmedText (len (working r)));
         confidence := ruleConfidence r |}.

(** [identifyPratika(text)]; [None] is the [null] it returns for a falsy
    or non-string argument. *)
Definition identifyPratika (text : value) : option PratikaAnalysis :=
  if negb (truthy text) || negb (isString text) then None
  else
    match text with
    | VString text => Some (analyse (normalize (trim text)))
    | _ => None
    end.

(** [isPratika(text)] *)
Definition isPratikaText (text : value) : bool :=
  match identifyPratika text with
  | Some r => isPratika r
  | None => false
  end.

(** [extractPratikaStem(text)] *)
Definition extractPratikaStem (text : value) : option str :=
  match identifyPratika text with
  | Some r => if isPratika r then stem r else None
  | None => None
  end.

(** [result.pattern === p] *)
Definition patternIs (result : PratikaAnalysis) (p : str) : bool :=
  match pattern result with
  | Some q => eqb q p
  | None => false
  end.

(** The forms [extractSearchableForms] pushes after [result.stem]. The
    tests of the source are read in their order; the two tests on
    [भिरिति] are an [if / else if], the others stand alone. *)
Definition sandhiForms (result : PratikaAnalysis) (stem : str) : list str :=
  (if patternIs result (u "diti") && endsWith stem (u "त्")
   then [slice stem 0 (-2) ++ u "द्"] else [])
  ++ (if patternIs result (u "bhiriti-visarga") && endsWith stem (u "भिः")
      then [slice stem 0 (-1) ++ u "र्"]
      else if patternIs result (u "bhiriti") && endsWith stem (u "भिर")
      then [slice stem 0 (-1) ++ u "ः"]
      else [])
  ++ (if patternIs result (u "riti-visarga") && endsWith stem (u "ः")
      then [slice stem 0 (-1) ++ u "र्"] else []).

(** [extractSearchableForms(text)]; [Normal None] is the [null] it
    returns. An element of the array is [result.stem] or a string built
    from it. With a stem that is [null], the first test whose pattern
    matches reads [endsWith] of [null] and throws; none matching, the
    array holds the [null] alone. *)
Definition extractSearchableForms (text : value)
  : completion (option (list (option str))) :=
  match identifyPratika text with
  | None => Normal None
  | Some result =>
    if negb (isPratika result) then Normal None
    else
      match stem result with
      | Some stem => Normal (Some (map Some (stem :: sandhiForms result stem)))
      | None =>
        if patternIs result (u "diti")
           || patternIs result (u "bhiriti-visarga")
           || patternIs result (u "bhiriti")
           || patternIs result (u "riti-visarga")
        then ThrowTypeError
        else Normal (Some [None])
      end
  end.

End WithPlatform.

(** The array [vowels] of [endsWithVowel]. *)
Definition vowels : list str := [
  u "अ"; u "आ"; u "इ"; u "ई"; u "उ"; u "ऊ"; u "ऋ"; u "ॠ"; u "ऌ"; u "ॡ";
  u "ए"; u "ऐ"; u "ओ"; u "औ";
  u "ा"; u "ि"; u "ी"; u "ु"; u "ू"; u "ृ"; u "ॄ"; u "ॢ"; u "ॣ"; u "े";
  u "ै"; u "ो"; u "ौ"
].

(** [endsWithVowel(text)] *)
Definition endsWithVowel (text : str) : bool :=
  let lastChar := sliceFrom text (-1) in
  mem lastChar vowels.

(** [generatePratikaVariations(stem)]: from a stem to the forms it can
    take before [इति]. [lastChar] and [lastTwoChars] are the strings
    [stem.slice(-1)] and [stem.slice(-2)]. *)
Definition generatePratikaVariations (stem : str) : list str :=
  let lastChar := sliceFrom stem (-1) in
  let lastTwoChars := sliceFrom stem (-2) in
  uniq
    ([stem ++ u "इति"]
       ++ (if eqb lastChar (u "म्")
           then [slice stem 0 (-2) ++ u "मिति"] else [])
       ++ (if eqb lastChar (u "अ") || eqb lastChar (u "आ")
              || eqb lastTwoChars (u "अ") || negb (endsWithVowel stem)
           then [stem ++ u "ेति"] else [])
       ++ (if eqb lastChar (u "इ") || eqb lastChar (u "ई")
           then [stem ++ u "ीति"] else [])
       ++ (if eqb lastChar (u "उ") || eqb lastChar (u "ऊ")
           then [stem ++ u "वीति"; stem ++ u "विति"] else [])
       ++ (if eqb lastChar (u "ए") || eqb lastChar (u "ै")
           then [stem ++ u "ैति"] else [])
       ++ (if eqb lastChar (u "ओ") || eqb lastChar (u "औ")
           then [stem ++ u "ावीति"; stem ++ u "ाविति"] else [])).

End PratikaIdentifier.

(* ================================================================== *)
(** * A runtime for Devanagari text                                    *)
(* ================================================================== *)

(** An instance of the platform for strings over ASCII and the Devanagari
    block (U+0900 to U+097F), the script the library is written for:
    canonical normalisation with the Unicode data of that block, and
    lower-casing of the ASCII letters (Devanagari has no case). *)
Module Devanagari.
Import JS.

Definition combiningClass (c : Z) : Z :=
  if c =? 0x093C then 7
  else if c =? 0x094D then 9
  else if (c =? 0x0951) || (c =? 0x0953) || (c =? 0x0954) then 230
  else if c =? 0x0952 then 220
  else 0.

Definition decomposition (c : Z) : str :=
  if c =? 0x0929 then [0x0928; 0x093C]
  else if c =? 0x0931 then [0x0930; 0x093C]
  else if c =? 0x0934 then [0x0933; 0x093C]
  else if c =? 0x0958 then [0x0915; 0x093C]
  else if c =? 0x0959 then [0x0916; 0x093C]
  else if c =? 0x095A then [0x0917; 0x093C]
  else if c =? 0x095B then [0x091C; 0x093C]
  else if c =? 0x095C then [0x0921; 0x093C]
  else if c =? 0x095D then [0x0922; 0x093C]
  else if c =? 0x095E then [0x092B; 0x093C]
  else if c =? 0x095F then [0x092F; 0x093C]
  else [c].

(** The primary composites; U+0958 to U+095F are composition exclusions. *)
Definition composite (a b : Z) : option Z :=
  if b =? 0x093C then
    if a =? 0x0928 then Some 0x0929
    else if a =? 0x0930 then Some 0x0931
    else if a =? 0x0933 then Some 0x0934
    else None
  else None.

(** Canonical ordering: a mark moves left past marks of a higher class. *)
Fixpoint insertMark (c : Z) (revOut : str) : str :=
  match revOut with
  | p :: rest =>
    if combiningClass c <? combiningClass p
    then p :: insertMark c rest
    else c :: revOut
  | [] => [c]
  end.

Definition reorder (s : str) : str :=
  rev (fold_left
         (fun acc c => if combiningClass c =? 0 then c :: acc
                       else insertMark c acc) s []).

(** Canonical composition: [done] and [marks] are reversed. *)
Fixpoint composeFrom (s : str) (done : str) (starter : option Z)
         (marks : str) (lastClass : Z) : str :=
  let flush := match starter with
               | Some st => marks ++ st :: done
               | None => marks ++ done
               end in
  match s with
  | [] => rev flush
  | ch :: s' =>
    let cc := combiningClass ch in
    let keep :=
      if cc =? 0 then composeFrom s' flush (Some ch) [] 0
      else composeFrom s' done starter (ch :: marks) cc in
    match starter with
    | Some st =>
      match composite st ch with
      | Some comp =>
        if (lastClass <? cc) || (lastClass =? 0)
        then composeFrom s' done (Some comp) marks lastClass
        else keep
      | None => keep
      end
    | None => keep
    end
  end.

Definition nfc (s : str) : str :=
  composeFrom (reorder (flat_map decomposition s)) [] None [] 0.

Definition lowerChar (c : Z) : Z :=
  if (0x41 <=? c) && (c <=? 0x5A) then c + 0x20 else c.

#[export] Instance runtime : Platform := {
  normalize := nfc;
  toLowerCase := map lowerChar;
  now := 0
}.

End Devanagari.

(* ================================================================== *)
(** * sandhi-rules.js: class SanskritSandhiRules                       *)
(* ================================================================== *)

Module SanskritSandhiRules.
Import JS.

Record SandhiRule : Type := {
  pattern : str;
  following : str;
  result : str;
  rule : str
}.

Definition mk (p f r n : str) : SandhiRule :=
  {| pattern := p; following := f; result := r; rule := n |}.

Definition vowelSandhi : list SandhiRule := [
  mk (u "अ") (u "अ") (u "आ") (u "a+a=ā");
  mk (u "अ") (u "इ") (u "ए") (u "a+i=e");
  mk (u "अ") (u "उ") (u "ओ") (u "a+u=o");
  mk (u "अ") (u "ऋ") (u "अर्") (u "a+ṛ=ar");
  mk (u "आ") (u "इ") (u "ऐ") (u "ā+i=ai");
  mk (u "आ") (u "उ") (u "औ") (u "ā+u=au");
  mk (u "इ") (u "अ") (u "य") (u "i+a=ya");
  mk (u "उ") (u "अ") (u "व") (u "u+a=va");
  mk (u "ऋ") (u "अ") (u "र") (u "ṛ+a=ra");
  mk (u "ए") (u "अ") (u "ए") (u "e+a=e");
  mk (u "ओ") (u "अ") (u "ओ") (u "o+a=o")
].

Definition consonantSandhi : list SandhiRule := [
  mk (u "त्") (u "च") (u "च्च") (u "t+c=cc");
  mk (u "त्") (u "ज") (u "ज्ज") (u "t+j=jj");
  mk (u "त्") (u "श") (u "च्छ") (u "t+ś=cch");
  mk (u "द्") (u "च") (u "च्च") (u "d+c=cc");
  mk (u "न्") (u "च") (u "ञ्च") (u "n+c=ñc");
  mk (u "न्") (u "ज") (u "ञ्ज") (u "n+j=ñj");
  mk (u "म्") (u "प") (u "म्प") (u "m+p=mp");
  mk (u "म्") (u "ब") (u "म्ब") (u "m+b=mb")
].

Definition visargaSandhi : list SandhiRule := [
  mk (u "ः") (u "क") (u "ष्क") (u "ḥ+k=ṣk");
  mk (u "ः") (u "प") (u "ष्प") (u "ḥ+p=ṣp");
  mk (u "ः") (u "त") (u "स्त") (u "ḥ+t=st");
  mk (u "ः") (u "च") (u "श्च") (u "ḥ+c=śc");
  mk (u "ः") (u "अ") (u "ओ") (u "aḥ+a=o");
  mk (u "ः") (u "[अइउऋएओ]") (u "र्") (u "ḥ+vowel=r");
  mk (u "ः") (u "[अइउऋएओ]") [] (u "ḥ+vowel=drop")
].

(** An entry of [endingVariations]; the regular expression of the source
    is [ending] followed by [$]. *)
Record EndingVariation : Type := {
  ending : str;
  variations : list str;
  endingRule : str
}.

Definition endingVariations : list EndingVariation := [
  {| ending := u "ः"; variations := [[]; u "ह्"];
     endingRule := u "nom-sg-visarga" |};
  {| ending := u "म्"; variations := [[]; u "न्"];
     endingRule := u "acc-sg-anusvara" |};
  {| ending := u "अ"; variations := [u "ो"; u "ं"];
     endingRule := u "ending-a" |}
].

Record Variation : Type := { text : str; variationRule : str }.

(** The body shared by [trySplitSandhi] and [tryVowelCombinations]. *)
Definition expandWith (prefix : str) (term : str) (rules : list SandhiRule)
  : list Variation :=
  flat_map
    (fun r =>
       let index := indexOf term (result r) 0 in
       if index =? -1 then []
       else
         let before := substring term 0 index in
         let after := substring term (index + len (result r)) (len term) in
         [{| text := before ++ pattern r ++ following r ++ after;
             variationRule := prefix ++ rule r |}])
    rules.

Definition trySplitSandhi (term : str) : list Variation :=
  expandWith (u "reverse-") term
             (vowelSandhi ++ consonantSandhi ++ visargaSandhi).

Definition tryEndingVariations (term : str) : list Variation :=
  flat_map
    (fun e =>
       if endsWith term (ending e) then
         flat_map
           (fun variant =>
              let newTerm := replaceAtEnd term (ending e) variant in
              if eqb newTerm term then []
              else [{| text := newTerm; variationRule := endingRule e |}])
           (variations e)
       else [])
    endingVariations.

Definition tryVowelCombinations (term : str) : list Variation :=
  expandWith (u "expand-") term vowelSandhi.

(** The filter over [seen]: the first variation of each text is kept. *)
Fixpoint uniqueByText (seen : list str) (l : list Variation) : list Variation :=
  match l with
  | [] => []
  | v :: l' =>
    if mem (text v) seen then uniqueByText seen l'
    else v :: uniqueByText (text v :: seen) l'
  end.

Definition generateVariations (term : str) : list Variation :=
  uniqueByText []
    ({| text := term; variationRule := u "original" |}
       :: trySplitSandhi term
       ++ tryEndingVariations term
       ++ tryVowelCombinations term).

End SanskritSandhiRules.

(* ================================================================== *)
(** * sanskrit-search.js: class SanskritSearch                         *)
(* ================================================================== *)

Module SanskritSearch.
Import JS.

(** ** Completions as a monad *)

Definition bind {A B : Type} (c : completion A) (k : A -> completion B)
  : completion B :=
  match c with
  | Normal a => k a
  | ThrowTypeError => ThrowTypeError
  | Diverges => Diverges
  end.

Notation "x <- c ;; k" := (bind c (fun x => k))
  (at level 61, c at next level, right associativity).

(** [l.forEach(x => ...)] threading the state the callback updates. *)
Fixpoint forEach {A S : Type} (l : list A) (f : S -> A -> completion S) (s : S)
  : completion S :=
  match l with
  | [] => Normal s
  | x :: l' => s' <- f s x ;; forEach l' f s'
  end.

(** [l.map(f)] when [f] may throw or loop. *)
Fixpoint mapM {A B : Type} (f : A -> completion B) (l : list A)
  : completion (list B) :=
  match l with
  | [] => Normal []
  | x :: l' => y <- f x ;; ys <- mapM f l' ;; Normal (y :: ys)
  end.

(** ** Objects used as tables: keys in insertion order *)

Definition object (V : Type) : Type := list (str * V).

Fixpoint get {V : Type} (o : object V) (k : str) : option V :=
  match o with
  | [] => None
  | (k', v) :: o' => if eqb k k' then Some v else get o' k
  end.

Fixpoint set {V : Type} (o : object V) (k : str) (v : V) : object V :=
  match o with
  | [] => [(k, v)]
  | (k', v') :: o' => if eqb k k' then (k', v) :: o' else (k', v') :: set o' k v
  end.

(** An object literal: a key written twice keeps its first place and its
    last value. *)
Definition literal {V : Type} (entries : list (str * V)) : object V :=
  fold_left (fun o e => set o (fst e) (snd e)) entries [].

Definition keys {V : Type} (o : object V) : list str := map fst o.

(** ** Configuration *)

(** The [config] argument of the constructor; [None] is an option the
    caller left out. *)
Record Options : Type := {
  optCaseSensitive : option bool;
  optHighlightClass : option str;
  optContextLength : option Z;
  optEnableSandhi : option bool;
  optMaxResults : option Z
}.

Definition noOptions : Options :=
  {| optCaseSensitive := None; optHighlightClass := None;
     optContextLength := None; optEnableSandhi := None;
     optMaxResults := None |}.

(** [this.config] *)
Record Config : Type := {
  caseSensitive : bool;
  highlightClass : str;
  contextLength : Z;
  enableSandhi : bool;
  maxResults : Z
}.

(** [x || d] on an optional number, string, boolean. *)
Definition orNumber (x : option Z) (d : Z) : Z :=
  match x with
  | Some n => if n =? 0 then d else n
  | None => d
  end.

Definition orString (x : option str) (d : str) : str :=
  match x with
  | Some s => if eqb s [] then d else s
  | None => d
  end.

Definition orBool (x : option bool) (d : bool) : bool :=
  match x with
  | Some b => if b then b else d
  | None => d
  end.

Record ItiSandhiMap : Type := {
  reverse : object (list str);
  forward : object str
}.

Definition createItiSandhiMap : ItiSandhiMap :=
  {| reverse := literal [
       (u "ेति", [[]; u "अ"; u "आ"]);
       (u "ीति", [u "इ"; u "ई"]);
       (u "ूति", [u "उ"; u "ऊ"]);
       (u "वीति", [u "उ"; u "ऊ"]);
       (u "विति", [u "उ"; u "ऊ"]);
       (u "रिति", [u "ऋ"; u "ॠ"]);
       (u "लिति", [u "ऌ"; u "ॡ"]);
       (u "ैति", [u "ए"; u "ै"]);
       (u "ावीति", [u "ओ"; u "औ"]);
       (u "ाविति", [u "ओ"; u "औ"]);
       (u "ोऽति", [u "ओ"]);
       (u "येति", [u "य"; u "या"; u "ाय"]);
       (u "ेणेति", [u "ेण"]);
       (u "ादिति", [u "ात्"]);
       (u "स्येति", [u "स्य"]);
       (u "मिति", [u "म्"; u "ाम्"]);
       (u "यामिति", [u "याम्"]);
       (u "ौति", [u "औ"]);
       (u "ोरिति", [u "योः"]);
       (u "भ्यामिति", [u "भ्याम्"]);
       (u "ानिति", [u "ान्"]);
       (u "ैरिति", [u "ैः"]);
       (u "भिरिति", [u "भिः"]);
       (u "ेभ्यरिति", [u "ेभ्यः"]);
       (u "ानामिति", [u "ानाम्"]);
       (u "णामिति", [u "णाम्"]);
       (u "ष्विति", [u "ेषु"]);
       (u "स्विति", [u "सु"]);
       (u "यारिति", [u "याः"]);
       (u "ाः इति", [u "ाः"]);
       (u "ा इति", [u "ाः"])
     ];
     forward := literal [
       ([], u "ेति");
       (u "अ", u "ेति");
       (u "आ", u "ेति");
       (u "इ", u "ीति");
       (u "ई", u "ीति");
       (u "उ", u "वीति");
       (u "ऊ", u "वीति");
       (u "ऋ", u "रिति");
       (u "ॠ", u "रिति");
       (u "ऌ", u "लिति");
       (u "ॡ", u "लिति");
       (u "ए", u "ैति");
       (u "े", u "ैति");
       (u "ऐ", u "ैति");
       (u "ै", u "ैति");
       (u "ओ", u "ावीति");
       (u "औ", u "ावीति");
       (u "य", u "येति");
       (u "या", u "येति");
       (u "ाय", u "ायेति");
       (u "ेण", u "ेणेति");
       (u "ात्", u "ादिति");
       (u "स्य", u "स्येति");
       (u "म्", u "मिति");
       (u "ाम्", u "मिति");
       (u "याम्", u "यामिति");
       (u "औ", u "ौति");
       (u "योः", u "ोरिति");
       (u "भ्याम्", u "भ्यामिति");
       (u "ान्", u "ानिति");
       (u "ैः", u "ैरिति");
       (u "भिः", u "भिरिति");
       (u "ेभ्यः", u "ेभ्यरिति");
       (u "ानाम्", u "ानामिति");
       (u "णाम्", u "णामिति");
       (u "ेषु", u "ष्विति");
       (u "सु", u "स्विति");
       (u "याः", u "यारिति");
       (u "ाः", u "ाः इति")
     ] |}.

(** An instance of the class. [sandhiRules] tells whether the constructor
    found [window.SanskritSandhiRules]. *)
Record Instance : Type := {
  config : Config;
  sandhiRules : bool;
  itiSandhiMap : ItiSandhiMap
}.

Definition constructor (options : Options) (sandhiRulesLoaded : bool)
  : Instance :=
  {| config :=
       {| caseSensitive := orBool (optCaseSensitive options) false;
          highlightClass :=
            orString (optHighlightClass options) (u "search-highlight");
          contextLength := orNumber (optContextLength options) 50;
          enableSandhi :=
            match optEnableSandhi options with
            | Some false => false
            | _ => true
            end;
          maxResults := orNumber (optMaxResults options) 100 |};
     sandhiRules := sandhiRulesLoaded;
     itiSandhiMap := createItiSandhiMap |}.

(** ** Matches and results *)

Inductive MatchType : Type := exact | direct | sandhi | pratika_grahana.

Record Context : Type := {
  before : str;
  match_ : str;
  after : str;
  full : str
}.

Record Match : Type := {
  position : Z;
  length : Z;
  matchedText : str;
  context : Context;
  type : MatchType;
  variant : option str;
  sandhiRule : option str;
  pratikaPattern : option str;
  originalTerm : option str
}.

Record Results : Type := {
  matches : list Match;
  count : Z;
  searchTerm : option str;
  timestamp : option Z
}.

(** [{ matches: [], count: 0 }] *)
Definition noResults : Results :=
  {| matches := []; count := 0; searchTerm := None; timestamp := None |}.

(** ** Character classes of the module *)

(** The class of [hasEndingMarker]. *)
Definition endingPattern : str :=
  u "ंःँािीुूेैोौृॄॢॣ्ᳵᳶम्ಂಃಾಿೀುೂೃೄೆೇೈೊೋೌ್ಮ್ஂஃாிீுூெேைொோௌ்ம்ంఃాిీుూృౄెేైొోౌ్మ్ംഃാിീുൂൃെേൈൊോൌ്മ്ংঃািীুূৃেৈোৌ্ম্ંઃાિીુૂૃેૈોૌ્મ્ଂଃାିୀୁୂୃେୈୋୌ୍ମ୍".

(** The class [sanskritEndings] of [directSearch], also used by
    [generatePratikaVariations]. *)
Definition sanskritEndings : str := u "ंःँािीुूेैोौृॄॢॣ्ᳵᳶ".

(** The class inside [wordBoundary]: [\s], [\n], [\r] and the listed
    punctuation (the double quote is U+0022). *)
Definition isBoundaryChar (c : Z) : bool :=
  isWhiteSpace c || inClass (u "।॥೧೨।।,;'" ++ [0x22] ++ u "()[]{}/<>|") c.

(** The separators of [extractWords]. *)
Definition isSeparator (c : Z) : bool :=
  isWhiteSpace c || inClass (u ".,;!?()[]{}।॥") c.

Definition lastIn (cls : Z -> bool) (s : str) : bool :=
  match lastChar s with
  | Some c => cls c
  | None => false
  end.

Definition hasEndingMarker (term : str) : bool :=
  lastIn (inClass endingPattern) term.

(** [variants.push(term.replace(/p/g, r))] under [if (term.includes(a))]. *)
Definition pushIfIncludes (term a p r : str) : list str :=
  if includes term a then [replaceAll term p r] else [].

Definition generatePhoneticVariants (term : str) : list str :=
  uniq
    ([term]
       (* Devanagari *)
       ++ pushIfIncludes term (u "म्") (u "म्") (u "ं")
       ++ pushIfIncludes term (u "ं") (u "ं") (u "म्")
       (* Kannada *)
       ++ pushIfIncludes term (u "ಮ್") (u "ಮ್") (u "ಂ")
       ++ pushIfIncludes term (u "ಂ") (u "ಂ") (u "ಮ್")
       (* Tamil *)
       ++ pushIfIncludes term (u "ம்") (u "ம்") (u "ஂ")
       ++ pushIfIncludes term (u "ஂ") (u "ஂ") (u "ம்")
       (* Telugu *)
       ++ pushIfIncludes term (u "మ్") (u "మ్") (u "ం")
       ++ pushIfIncludes term (u "ం") (u "ං") (u "మ్")
       (* Malayalam *)
       ++ pushIfIncludes term (u "മ്") (u "മ്") (u "ം")
       ++ pushIfIncludes term (u "ം") (u "ം") (u "മ്")
       (* Bengali *)
       ++ pushIfIncludes term (u "ম্") (u "ম্") (u "ং")
       ++ pushIfIncludes term (u "ং") (u "ং") (u "ম্")
       (* Gujarati *)
       ++ pushIfIncludes term (u "મ્") (u "મ્") (u "ં")
       ++ pushIfIncludes term (u "ં") (u "ં") (u "મ્")
       (* Odia *)
       ++ pushIfIncludes term (u "ମ୍") (u "ମ୍") (u "ଂ")
       ++ pushIfIncludes term (u "ଂ") (u "ଂ") (u "ମ୍")
       (* Visarga *)
       ++ pushIfIncludes term (u "ः") (u "ः") (u "स्")
       ++ (if includes term (u "स्")
           then [replaceAtEnd term (u "स्") (u "ः")] else [])).

(** ** The regular expression of [exactWordSearch]

    [wordBoundary + '(' + escapeRegex(variant) + ')' + wordBoundary] with
    the flag [g], where [wordBoundary] is [(?:^|[...]|$)]: the escaped
    variant matches itself, code unit by code unit. *)

(** The alternatives of [wordBoundary] that succeed at offset [p], in the
    order they are tried, as the number of code units each consumes. *)
Definition boundaryAlternatives (text : str) (p : Z) : list Z :=
  (if p =? 0 then [0] else [])
    ++ (match at_ text p with
        | Some c => if isBoundaryChar c then [1] else []
        | None => []
        end)
    ++ (if p =? len text then [0] else []).

Fixpoint firstSome {A B : Type} (f : A -> option B) (l : list A) : option B :=
  match l with
  | [] => None
  | x :: l' => match f x with
               | Some y => Some y
               | None => firstSome f l'
               end
  end.

(** A match starting at offset [i]: the code units the leading boundary
    consumed and the length of the whole match. *)
Definition matchAt (variant text : str) (i : Z) : option (Z * Z) :=
  firstSome
    (fun lead =>
       if isPrefixOf variant (skipn (Z.to_nat (i + lead)) text)
       then
         firstSome (fun trail => Some (lead, lead + len variant + trail))
                   (boundaryAlternatives text (i + lead + len variant))
       else None)
    (boundaryAlternatives text i).

Fixpoint scanFrom (n : nat) (variant text : str) (i : Z)
  : option (Z * (Z * Z)) :=
  match matchAt variant text i with
  | Some m => Some (i, m)
  | None => match n with
            | O => None
            | S n' => scanFrom n' variant text (i + 1)
            end
  end.

(** [pattern.exec(text)] with [pattern.lastIndex = lastIndex]: the index of
    the match, the length of the leading boundary, the length of
    [match[0]]. *)
Definition exec (variant text : str) (lastIndex : Z) : option (Z * (Z * Z)) :=
  if len text <? lastIndex then None
  else scanFrom (Z.to_nat (len text - lastIndex)) variant text lastIndex.

Section WithInstance.
Context {P : Platform}.
Variable this : Instance.

Definition getContext (text : str) (position length : Z) : Context :=
  let start := Z.max 0 (position - contextLength (config this)) in
  let end_ := Z.min (len text)
                    (position + length + contextLength (config this)) in
  {| before := substring text start position;
     match_ := substr text position length;
     after := substring text (position + length) end_;
     full := substring text start end_ |}.

Definition samePosition (p : Z) (ms : list Match) : bool :=
  existsb (fun m => position m =? p) ms.

Definition exactMatch (searchTerm text variant : str) (pos : Z) : Match :=
  {| position := pos;
     length := len variant;
     matchedText := variant;
     context := getContext text pos (len variant);
     type := exact;
     variant := if eqb variant searchTerm then None else Some variant;
     sandhiRule := None;
     pratikaPattern := None;
     originalTerm := None |}.

(** [while ((match = pattern.exec(text)) !== null) { ... }] *)
Fixpoint execLoop (fuel : nat) (searchTerm text variant : str)
         (lastIndex : Z) (ms : list Match) : completion (list Match) :=
  match fuel with
  | O => Diverges
  | S fuel' =>
    match exec variant text lastIndex with
    | None => Normal ms
    | Some (index, (lead, total)) =>
      let match0 := range text index (index + total) in
      let matchStart :=
        index + (len match0 - len variant
                 - (if lastIn isBoundaryChar match0 then 1 else 0)) in
      let ms' :=
        if samePosition matchStart ms then ms
        else ms ++ [exactMatch searchTerm text variant matchStart] in
      execLoop fuel' searchTerm text variant (index + total) ms'
    end
  end.

(** [while ((index = text.indexOf(variant, index)) !== -1) { ... }] *)
Fixpoint fallbackLoop (fuel : nat) (searchTerm text variant : str)
         (index : Z) (ms : list Match) : completion (list Match) :=
  match fuel with
  | O => Diverges
  | S fuel' =>
    let index := indexOf text variant index in
    if index =? -1 then Normal ms
    else
      let ms' :=
        if samePosition index ms then ms
        else ms ++ [exactMatch searchTerm text variant index] in
      fallbackLoop fuel' searchTerm text variant (index + len variant) ms'
  end.

(** The number of turns given to a loop over [text]. A turn of the loops
    of this module either moves the offset forward by at least one code
    unit or leaves it where it is, for ever: a loop that has not ended
    after these many turns does not end. *)
Definition loopFuel (text : str) : nat := S (S (List.length text)).

Definition byPosition (a b : Match) : Z := position a - position b.

(** The callback of [variants.forEach] in [exactWordSearch]: the pass with
    the regular expression, then the substring search when no match has
    been found so far. *)
Definition searchVariant (searchTerm text : str) (ms : list Match)
           (variant : str) : completion (list Match) :=
  ms <- execLoop (loopFuel text) searchTerm text variant 0 ms ;;
  match ms with
  | [] => fallbackLoop (loopFuel text) searchTerm text variant 0 ms
  | _ => Normal ms
  end.

Definition exactWordSearch (searchTerm text : str) : completion Results :=
  if eqb searchTerm [] || eqb text [] then Normal noResults
  else
    let searchTerm := normalize searchTerm in
    let text := normalize text in
    let variants := generatePhoneticVariants searchTerm in
    ms <- forEach variants (searchVariant searchTerm text) [] ;;
    let sorted := sortBy byPosition ms in
    Normal {| matches := sorted;
              count := Z.of_nat (List.length sorted);
              searchTerm := Some searchTerm;
              timestamp := Some now |}.

(** ** Fuzzy mode *)

Fixpoint countWhile (f : Z -> bool) (s : str) : Z :=
  match s with
  | [] => 0
  | c :: s' => if f c then 1 + countWhile f s' else 0
  end.

(** The inner [while] of [directSearch]: how far a match that ends at
    [p] is extended over the marks that follow it in [text]. *)
Definition extension (text : str) (p : Z) : Z :=
  countWhile (inClass sanskritEndings) (skipn (Z.to_nat p) text).

Definition directMatch (text : str) (pos matchLength : Z) : Match :=
  {| position := pos;
     length := matchLength;
     matchedText := substr text pos matchLength;
     context := getContext text pos matchLength;
     type := direct;
     variant := None;
     sandhiRule := None;
     pratikaPattern := None;
     originalTerm := None |}.

(** [while ((pos = textStr.indexOf(searchStr, pos)) !== -1) { ... }] *)
Fixpoint directLoop (fuel : nat) (searchTerm text searchStr textStr : str)
         (searchEndsWithMark : bool) (pos : Z) (ms : list Match)
  : completion (list Match) :=
  match fuel with
  | O => Diverges
  | S fuel' =>
    let pos := indexOf textStr searchStr pos in
    if pos =? -1 then Normal ms
    else
      let matchLength :=
        if searchEndsWithMark then len searchTerm
        else len searchTerm + extension text (pos + len searchTerm) in
      directLoop fuel' searchTerm text searchStr textStr searchEndsWithMark
                 (pos + len searchTerm)
                 (ms ++ [directMatch text pos matchLength])
  end.

Definition directSearch (searchTerm text : str) : completion (list Match) :=
  let searchStr :=
    if caseSensitive (config this) then searchTerm
    else toLowerCase searchTerm in
  let textStr :=
    if caseSensitive (config this) then text else toLowerCase text in
  let searchEndsWithMark := lastIn (inClass sanskritEndings) searchTerm in
  directLoop (loopFuel textStr) searchTerm text searchStr textStr
             searchEndsWithMark 0 [].

Definition sandhiAwareSearch (searchTerm text : str)
  : completion (list Match) :=
  if negb (sandhiRules this) then Normal []
  else
    forEach (SanskritSandhiRules.generateVariations searchTerm)
      (fun ms v =>
         variantMatches <- directSearch (SanskritSandhiRules.text v) text ;;
         Normal
           (ms ++ map (fun m =>
                         {| position := position m;
                            length := length m;
                            matchedText := matchedText m;
                            context := context m;
                            type := sandhi;
                            variant := variant m;
                            sandhiRule :=
                              Some (SanskritSandhiRules.variationRule v);
                            pratikaPattern := pratikaPattern m;
                            originalTerm := Some searchTerm |})
                      variantMatches))
      [].

Definition isDuplicate (m : Match) (existingMatches : list Match) : bool :=
  existsb (fun existing =>
             (position existing =? position m)
             && (length existing =? length m))
          existingMatches.

(** [a.slice(from, to)] on an array. *)
Definition sliceArray {A : Type} (a : list A) (from to : Z) : list A :=
  let n := Z.of_nat (List.length a) in
  let f := relIndex n from in
  let t := relIndex n to in
  firstn (Z.to_nat (t - f)) (skipn (Z.to_nat f) a).

Definition pushUnlessDuplicate (ms : list Match) (m : Match) : list Match :=
  if isDuplicate m ms then ms else ms ++ [m].

(** The body of [search] once both arguments are known to be strings. *)
Definition searchStrings (searchTerm text : str) : completion Results :=
  let searchTerm := normalize searchTerm in
  let text := normalize text in
  if hasEndingMarker searchTerm then exactWordSearch searchTerm text
  else
    directMatches <- directSearch searchTerm text ;;
    ms <- (if enableSandhi (config this) && sandhiRules this then
             sandhiMatches <- sandhiAwareSearch searchTerm text ;;
             Normal (fold_left pushUnlessDuplicate sandhiMatches
                               directMatches)
           else Normal directMatches) ;;
    let sorted := sortBy byPosition ms in
    let limited :=
      if maxResults (config this) =? 0 then sorted
      else sliceArray sorted 0 (maxResults (config this)) in
    Normal {| matches := limited;
              count := Z.of_nat (List.length limited);
              searchTerm := Some searchTerm;
              timestamp := Some now |}.

(** [search(searchTerm, text)]: calling [normalize] on a value that is
    not a string throws. *)
Definition search (searchTerm text : value) : completion Results :=
  if negb (truthy searchTerm) || negb (truthy text) then Normal noResults
  else
    match searchTerm, text with
    | VString searchTerm, VString text => searchStrings searchTerm text
    | _, _ => ThrowTypeError
    end.

(** ** Variations for pratika cross-reference *)

Record PratikaVariation : Type := {
  text : str;
  pattern : str
}.

Definition byLengthDescending (a b : str) : Z := len b - len a.

(** [x || 'stem'] on a string. *)
Definition orStem (x : str) : str := if eqb x [] then u "stem" else x.

Definition generatePratikaVariations (searchTerm : str)
  : list PratikaVariation :=
  let reverseMap := reverse (itiSandhiMap this) in
  let forwardMap := forward (itiSandhiMap this) in
  let reversePatterns := sortBy byLengthDescending (keys reverseMap) in
  let fromReverse :=
    flat_map
      (fun pattern =>
         if endsWith searchTerm pattern then
           let base := slice searchTerm 0 (- len pattern) in
           match get reverseMap pattern with
           | Some possibleEndings =>
             map (fun ending =>
                    {| text := base ++ ending;
                       pattern := pattern ++ u "->" ++ orStem ending |})
                 possibleEndings
           | None => []
           end
         else [])
      reversePatterns in
  let fromForward :=
    if negb (endsWith searchTerm (u "ति")) then
      let forwardPatterns := sortBy byLengthDescending (keys forwardMap) in
      flat_map
        (fun ending =>
           match get forwardMap ending with
           | Some suffix =>
             if eqb ending [] then
               match lastChar searchTerm with
               | Some lastChar =>
                 if negb (inClass sanskritEndings lastChar) then
                   [{| text := searchTerm ++ suffix;
                       pattern := u "stem->" ++ suffix |}]
                 else []
               | None => []
               end
             else if endsWith searchTerm ending then
               let base := slice searchTerm 0 (- len ending) in
               [{| text := base ++ suffix;
                   pattern := ending ++ u "->" ++ suffix |}]
             else []
           | None => []
           end)
        forwardPatterns
    else [] in
  fromReverse ++ fromForward.

(** ** Pratika grahana search *)

(** [pratikaGrahanaSearch(searchTerm, text)]; what it writes to the
    console is left out. *)
Definition pratikaGrahanaSearch (searchTerm text : str)
  : completion (list Match) :=
  forEach (generatePratikaVariations searchTerm)
    (fun ms v =>
       let (variantText, variantPattern) := v in
       variantMatches <- directSearch variantText text ;;
       Normal
         (ms ++ map (fun m =>
                       {| position := position m;
                          length := length m;
                          matchedText := matchedText m;
                          context := context m;
                          type := pratika_grahana;
                          variant := variant m;
                          sandhiRule := sandhiRule m;
                          pratikaPattern := Some variantPattern;
                          originalTerm := Some searchTerm |})
                    variantMatches))
    [].

(** The body of [searchWithPratikaGrahana] once both arguments are known
    to be strings. *)
Definition searchWithPratikaGrahanaStrings (searchTerm text : str)
  : completion Results :=
  let searchTerm := normalize searchTerm in
  let text := normalize text in
  regularResults <- search (VString searchTerm) (VString text) ;;
  pratikaMatches <- pratikaGrahanaSearch searchTerm text ;;
  let ms := fold_left pushUnlessDuplicate pratikaMatches
                      (matches regularResults) in
  let sorted := sortBy byPosition ms in
  let limited :=
    if maxResults (config this) =? 0 then sorted
    else sliceArray sorted 0 (maxResults (config this)) in
  Normal {| matches := limited;
            count := Z.of_nat (List.length limited);
            searchTerm := Some searchTerm;
            timestamp := Some now |}.

(** [searchWithPratikaGrahana(searchTerm, text)] *)
Definition searchWithPratikaGrahana (searchTerm text : value)
  : completion Results :=
  if negb (truthy searchTerm) || negb (truthy text) then Normal noResults
  else
    match searchTerm, text with
    | VString searchTerm, VString text =>
      searchWithPratikaGrahanaStrings searchTerm text
    | _, _ => ThrowTypeError
    end.

End WithInstance.

(** ** Documents and the index *)

Module Document.
(** An element of the [documents] array: [{id, text, metadata}];
    [metadata] may be left out. *)
Record t : Type := {
  id : str;
  text : str;
  metadata : option (object str)
}.
End Document.

(** An element of what [searchMultiple] returns:
    [{ id, metadata, ...results }]. *)
Record DocumentResults : Type := {
  id : str;
  metadata : object str;
  results : Results
}.

(** [index.documents] holds [{id, metadata}]; [index.terms] is a [Map] from
    a word to the [Set] of the ordinals of the documents that contain it,
    both in insertion order. *)
Record Index : Type := {
  documents : list (str * option (object str));
  terms : object (list nat)
}.

Definition has {V : Type} (o : object V) (k : str) : bool :=
  match get o k with Some _ => true | None => false end.

(** [set.add(n)] *)
Definition add (n : nat) (s : list nat) : list nat :=
  if existsb (Nat.eqb n) s then s else s ++ [n].

Definition extractWords (text : str) : list str :=
  uniq (splitNonEmpty isSeparator text).

(** The callback of [words.forEach] in [createIndex]. *)
Definition indexWord (docIndex : nat) (terms : object (list nat)) (word : str)
  : object (list nat) :=
  let terms := if has terms word then terms else set terms word [] in
  match get terms word with
  | Some docs => set terms word (add docIndex docs)
  | None => terms
  end.

Fixpoint createIndexFrom (docIndex : nat) (docs : list Document.t)
         (index : Index) : Index :=
  match docs with
  | [] => index
  | doc :: docs' =>
    createIndexFrom (S docIndex) docs'
      {| documents :=
           documents index ++ [(Document.id doc, Document.metadata doc)];
         terms := fold_left (indexWord docIndex)
                            (extractWords (Document.text doc))
                            (terms index) |}
  end.

Definition createIndex (docs : list Document.t) : Index :=
  createIndexFrom 0 docs {| documents := []; terms := [] |}.

Section WithInstance.
Context {P : Platform}.
Variable this : Instance.

(** [{ id: doc.id, metadata: doc.metadata || {}, ...results }] *)
Definition resultFor (doc : Document.t) (results : Results)
  : DocumentResults :=
  {| id := Document.id doc;
     metadata := match Document.metadata doc with
                 | Some m => m
                 | None => []
                 end;
     results := results |}.

(** The callback of [documents.map] in [searchMultiple]; [None] is an
    array element that is [undefined], whose [text] cannot be read. *)
Definition searchDocument (searchTerm : str) (doc : option Document.t)
  : completion DocumentResults :=
  match doc with
  | None => ThrowTypeError
  | Some doc =>
    results <- search this (VString searchTerm)
                      (VString (Document.text doc)) ;;
    Normal (resultFor doc results)
  end.

Definition searchMultiple (searchTerm : str)
           (docs : list (option Document.t))
  : completion (list DocumentResults) :=
  rs <- mapM (searchDocument searchTerm) docs ;;
  Normal (filter (fun r => 0 <? count (results r)) rs).

(** The callback of [words.forEach] in [searchWithIndex]: the ordinals the
    index has for the word join the set. *)
Definition addRelevant (index : Index) (acc : list nat) (word : str)
  : list nat :=
  match get (terms index) word with
  | Some docs => fold_left (fun acc docIdx => add docIdx acc) docs acc
  | None => acc
  end.

(** The [Set] [relevantDocIndices] after the loop over the words. *)
Definition relevantDocIndices (searchTerm : str) (index : Index)
  : list nat :=
  fold_left (addRelevant index) (extractWords searchTerm) [].

Definition searchWithIndex (searchTerm : str) (index : Index)
           (docs : list Document.t)
  : completion (list DocumentResults) :=
  let relevantDocs :=
    map (fun idx => nth_error docs idx)
        (relevantDocIndices searchTerm index) in
  searchMultiple searchTerm relevantDocs.

End WithInstance.

End SanskritSearch.

(* ================================================================== *)
(** * The vocabulary of the properties                                 *)
(* ================================================================== *)

Module Properties.
Import JS SanskritSearch.


(** A string that ends like a variant must: not empty, and not in a code
    unit of the word-boundary class. *)
Definition endsInsideWord (v : str) : Prop :=
  exists c, lastChar v = Some c /\ isBoundaryChar c = false.

(** A span of the text with a word boundary on each side: the start or
    the end of the text, or a code unit of the boundary class. *)
Definition wordDelimited (text : str) (pos n : Z) : Prop :=
  (pos = 0
   \/ exists c, at_ text (pos - 1) = Some c /\ isBoundaryChar c = true)
  /\ (pos + n = len text
      \/ exists c, at_ text (pos + n) = Some c /\ isBoundaryChar c = true).

(** A match of [exactWordSearch] lies where a variant occurs in the
    text. *)
Definition variantOccurrence (variants : list str) (text : str) (m : Match)
  : Prop :=
  type m = exact
  /\ In (matchedText m) variants
  /\ 0 <= position m
  /\ substr text (position m) (length m) = matchedText m.

Definition delimitedMatch (text : str) (m : Match) : Prop :=
  wordDelimited text (position m) (length m).

(** The postings of a word, or the empty set when it has none yet. *)
Definition postings (terms : object (list nat)) (word : str) : list nat :=
  match get terms word with
  | Some docs => docs
  | None => []
  end.

(** The document has one of the tokens of the term among its tokens. *)
Definition sharesToken (term : str) (d : Document.t) : Prop :=
  exists w, In w (extractWords term)
            /\ In w (extractWords (Document.text d)).

(** The order and the key of the matches of a result. *)
Definition byPositionLe (a b : Match) : Prop := position a <= position b.

Definition span (m : Match) : Z * Z := (position m, length m).

(** The matches the loop of [directSearch] adds: each at an occurrence of
    [searchStr] in [textStr], with the length the body of the loop
    computes. *)
Definition found (this : Instance) (term text searchStr textStr : str)
           (mark : bool) (m : Match) : Prop :=
  exists p,
    0 <= p
    /\ isPrefixOf searchStr (skipn (Z.to_nat p) textStr) = true
    /\ m = directMatch this text p
             (if mark then len term
              else len term + extension text (p + len term)).

(** The code unit before the last two of a string: the vowel before a
    final [ति]. *)
Definition thirdLast (s : str) : option Z := nth_error (rev s) 2.

(** Identifiers of rules of the cascade of [identifyPratika]. *)
Definition shadowedRules : list str := [
  u "yebhyariti"; u "ebhyariti"; u "bhyaamiti"; u "aanaamiti"; u "naamiti";
  u "yaamiti"; u "yaarिति"; u "oriti"; u "airiti"; u "yeti";
  u "oti-visarga"; u "oti"; u "ooti"; u "aiti"; u "auti"
].

(** [p] occurs in [s]. *)
Definition occurs (p s : str) : Prop :=
  exists i, 0 <= i /\ isPrefixOf p (skipn (Z.to_nat i) s) = true.

(** The string [directSearch] compares: as it is when the search is case
    sensitive, in lower case otherwise. *)
Definition folded {P : Platform} (this : Instance) (s : str) : str :=
  if caseSensitive (config this) then s else toLowerCase s.

(** A token of [text]: a run of code units outside the separator class
    that is not empty and cannot be extended on either side. *)
Definition maximalRun (sep : Z -> bool) (text w : str) : Prop :=
  w <> []
  /\ Forall (fun c => sep c = false) w
  /\ exists pre post,
      text = pre ++ w ++ post
      /\ (pre = [] \/ exists pre' c, pre = pre' ++ [c] /\ sep c = true)
      /\ (post = [] \/ exists c post', post = c :: post' /\ sep c = true).

(** A match of the fuzzy mode lies where one of the strings [vs] occurs
    in the text, both read as [directSearch] compares them; it covers the
    occurrence, and [matchedText] is what the text has there. *)
Definition foldedOccurrence {P : Platform} (this : Instance)
           (vs : list str) (text : str) (m : Match) : Prop :=
  exists v,
    In v vs
    /\ 0 <= position m
    /\ isPrefixOf (folded this v)
                  (skipn (Z.to_nat (position m)) (folded this text)) = true
    /\ len v <= length m
    /\ matchedText m = substr text (position m) (length m).

(** The strings the fuzzy mode looks for: the term and, when the sandhi
    rules are enabled and loaded, the variations of the term. *)
Definition fuzzyCandidates (this : Instance) (term : str) : list str :=
  term :: (if enableSandhi (config this) && sandhiRules this
           then map SanskritSandhiRules.text
                    (SanskritSandhiRules.generateVariations term)
           else []).

(** The strings [search] looks for, by the mode the term selects, and
    the form in which it compares them with the text. *)
Definition candidates (this : Instance) (term : str) : list str :=
  if hasEndingMarker term then generatePhoneticVariants term
  else fuzzyCandidates this term.

Definition compared {P : Platform} (this : Instance) (term s : str) : str :=
  if hasEndingMarker term then s else folded this s.


(** The code units [hasEndingMarker] looks for at the end of a term, by
    kind, in the eight scripts of its class: anusvara and candrabindu,
    visarga, the vowel signs, virama and the two Vedic signs. *)
Definition nasalMarks : str := u "ंँಂஂంംংંଂ".

Definition visargas : str := u "ःಃஃఃഃঃઃଃ".

Definition vowelSigns : str :=
  u "ािीुूेैोौृॄॢॣಾಿೀುೂೃೄೆೇೈೊೋೌாிீுூெேைொோௌాిీుూృౄెేైొోౌാിീുൂൃെേൈൊോൌািীুূৃেৈোৌાિીુૂૃેૈોૌାିୀୁୂୃେୈୋୌ".

Definition viramas : str := u "्್்్്্્୍".

Definition explicitMarkers : str :=
  nasalMarks ++ visargas ++ vowelSigns ++ viramas ++ u "ᳵᳶ".

(** The base letters of the class: the consonant of ['म्'] and of its
    counterparts, which stand in the class beside their virama. *)
Definition baseLetters : str := u "मಮமమമমમମ".

(** The nasal endings of a term: anusvara, candrabindu, and ['म्'] with
    its counterparts in the other scripts. *)
Definition nasalEndings : list str :=
  [u "ं"; u "ँ"; u "म्"; u "ಂ"; u "ಮ್"; u "ஂ"; u "ம்"; u "ం"; u "మ్";
   u "ം"; u "മ്"; u "ং"; u "ম্"; u "ં"; u "મ્"; u "ଂ"; u "ମ୍"].

(** The term ends in an explicit marker. *)
Definition endsInMarker (term : str) : bool :=
  lastIn (inClass explicitMarkers) term.

(** The documents of the README's multi-document example, which its
    indexing example indexes and searches. *)
Definition readmeDocuments : list Document.t :=
  [ {| Document.id := u "1";
       Document.text := u "अथातो ब्रह्मजिज्ञासा";
       Document.metadata := Some [(u "chapter", u "1"); (u "sutra", u "1")] |};
    {| Document.id := u "2";
       Document.text := u "जन्माद्यस्य यतः";
       Document.metadata := Some [(u "chapter", u "1"); (u "sutra", u "2")] |};
    {| Document.id := u "3";
       Document.text := u "शास्त्रयोनित्वात्";
       Document.metadata := Some [(u "chapter", u "1"); (u "sutra", u "3")] |} ].

End Properties.

(* ================================================================== *)
(** * Tactics                                                          *)
(* ================================================================== *)

Unset Implicit Arguments.

(** Replace a closed term by its value, justified by computation. *)
Ltac ev_term t :=
  let v := eval vm_compute in t in
  replace t with v by (vm_compute; reflexivity).

Tactic Notation "ev" constr(t) := ev_term t.
Tactic Notation "ev" constr(t) "in" hyp(H) :=
  let v := eval vm_compute in t in
  replace t with v in H by (vm_compute; reflexivity).

(* ================================================================== *)
(** * Properties of the string primitives                              *)
(* ================================================================== *)

Module JSFacts.
Import JS.

Lemma eqb_eq (a b : str) : eqb a b = true <-> a = b.
Proof.
  revert b; induction a as [|x a IH]; intros [|y b]; simpl; split;
    try congruence; try reflexivity.
  - rewrite andb_true_iff, Z.eqb_eq, IH. intros [-> ->]; reflexivity.
  - intros H; injection H as -> ->. now rewrite Z.eqb_refl, (proj2 (IH b)).
Qed.

Lemma eqb_refl (a : str) : eqb a a = true.
Proof. now apply eqb_eq. Qed.

Lemma eqb_neq (a b : str) : eqb a b = false <-> a <> b.
Proof.
  split.
  - intros H E. apply eqb_eq in E. congruence.
  - intros H. destruct (eqb a b) eqn:E; [apply eqb_eq in E; contradiction|easy].
Qed.

Lemma len_app (a b : str) : len (a ++ b) = len a + len b.
Proof. unfold len. rewrite length_app. lia. Qed.

Lemma len_nonneg (a : str) : 0 <= len a.
Proof. unfold len. lia. Qed.

Lemma len_zero (a : str) : len a = 0 -> a = [].
Proof. destruct a; [easy | unfold len; simpl; lia]. Qed.

(** ** Prefixes *)

Lemma isPrefixOf_app (p s : str) : isPrefixOf p (p ++ s) = true.
Proof. induction p as [|x p IH]; simpl; [easy | now rewrite Z.eqb_refl]. Qed.

Lemma isPrefixOf_inv (p s : str) :
  isPrefixOf p s = true -> s = p ++ skipn (List.length p) s.
Proof.
  revert s; induction p as [|x p IH]; intros s H; simpl in *; [easy|].
  destruct s as [|y s]; [discriminate|].
  apply andb_true_iff in H as [E H]. apply Z.eqb_eq in E. subst y.
  simpl. f_equal. now apply IH.
Qed.

Lemma isPrefixOf_firstn (p s : str) :
  isPrefixOf p s = true -> firstn (List.length p) s = p.
Proof.
  intros H. rewrite (isPrefixOf_inv _ _ H) at 1.
  rewrite firstn_app, firstn_all, Nat.sub_diag. simpl. apply app_nil_r.
Qed.

Lemma isPrefixOf_length (p s : str) :
  isPrefixOf p s = true -> (List.length p <= List.length s)%nat.
Proof.
  intros H. rewrite (isPrefixOf_inv _ _ H), length_app. lia.
Qed.

(** ** Suffixes *)

Lemma lastN_app (n : nat) (x s : str) :
  (n <= List.length s)%nat -> lastN n (x ++ s) = lastN n s.
Proof.
  intros H. unfold lastN. rewrite length_app.
  replace (List.length x + List.length s - n)%nat
    with (List.length x + (List.length s - n))%nat by lia.
  now rewrite skipn_app, skipn_all2, Nat.add_comm, Nat.add_sub by lia.
Qed.

Lemma lastN_all (s : str) : lastN (List.length s) s = s.
Proof. unfold lastN. now rewrite Nat.sub_diag. Qed.

Lemma endsWith_app (x s p : str) :
  (List.length p <=? List.length s)%nat = true ->
  endsWith (x ++ s) p = endsWith s p.
Proof.
  intros H. apply Nat.leb_le in H. unfold endsWith.
  rewrite lastN_app by exact H. f_equal.
  rewrite length_app.
  destruct (Nat.leb_spec (List.length p) (List.length s));
    destruct (Nat.leb_spec (List.length p) (List.length x + List.length s));
    try reflexivity; lia.
Qed.

Lemma endsWith_self (x p : str) : endsWith (x ++ p) p = true.
Proof.
  unfold endsWith. rewrite lastN_app, lastN_all, eqb_refl by lia.
  rewrite length_app. apply andb_true_iff; split; [|easy].
  apply Nat.leb_le. lia.
Qed.

Lemma endsWith_inv (s p : str) :
  endsWith s p = true ->
  s = firstn (List.length s - List.length p) s ++ p.
Proof.
  unfold endsWith, lastN. intros H. apply andb_true_iff in H as [_ H].
  apply eqb_eq in H.
  rewrite <- (firstn_skipn (List.length s - List.length p) s) at 1.
  now rewrite H.
Qed.

(** ** Slices *)

Lemma range_app_prefix (x s : str) (k : Z) :
  0 <= k <= len s ->
  range (x ++ s) 0 (len x + k) = x ++ firstn (Z.to_nat k) s.
Proof.
  intros H. unfold range, len in *. simpl.
  rewrite Z.sub_0_r, firstn_app.
  replace (Z.to_nat (Z.of_nat (List.length x) + k) - List.length x)%nat
    with (Z.to_nat k) by lia.
  rewrite firstn_all2 by lia. reflexivity.
Qed.

(** [(x + s).slice(0, -k)] keeps [x] and all but the last [k] code units
    of [s]. *)
Lemma slice_app_drop (x s : str) (k : Z) :
  0 < k <= len s ->
  slice (x ++ s) 0 (- k) = x ++ firstn (Z.to_nat (len s - k)) s.
Proof.
  intros H. unfold slice, relIndex.
  pose proof (len_nonneg x) as Hx. rewrite len_app.
  replace (0 <? 0) with false by reflexivity.
  replace (- k <? 0) with true by (symmetry; apply Z.ltb_lt; lia).
  rewrite Z.min_l, Z.max_l by lia.
  replace (len x + len s + - k) with (len x + (len s - k)) by lia.
  apply range_app_prefix. lia.
Qed.

Lemma slice_app_all (x s : str) :
  s <> [] -> slice (x ++ s) 0 (- len s) = x.
Proof.
  intros H. rewrite slice_app_drop.
  - rewrite Z.sub_diag. simpl. apply app_nil_r.
  - pose proof (len_nonneg s). destruct s; [easy|]. unfold len in *. simpl. lia.
Qed.

(** A slice inside the last code units ignores what comes before them. *)
Lemma slice_app_tail (x s : str) (a b : Z) :
  - len s <= a < 0 -> - len s <= b < 0 ->
  slice (x ++ s) a b = slice s a b.
Proof.
  intros Ha Hb. unfold slice, relIndex. rewrite len_app.
  pose proof (len_nonneg x) as Hx.
  replace (a <? 0) with true by (symmetry; apply Z.ltb_lt; lia).
  replace (b <? 0) with true by (symmetry; apply Z.ltb_lt; lia).
  rewrite !Z.max_l by lia.
  unfold range.
  replace (len x + len s + b - (len x + len s + a)) with (len s + b - (len s + a))
    by lia.
  f_equal.
  replace (Z.to_nat (len x + len s + a))
    with (List.length x + Z.to_nat (len s + a))%nat by (unfold len in *; lia).
  now rewrite skipn_app, skipn_all2, Nat.add_comm, Nat.add_sub by lia.
Qed.

(** ** The last code unit *)

Lemma lastChar_nil : lastChar [] = None.
Proof. reflexivity. Qed.

Lemma lastChar_snoc (s : str) (c : Z) : lastChar (s ++ [c]) = Some c.
Proof.
  unfold lastChar, at_. rewrite len_app. unfold len. simpl.
  replace (Z.of_nat (List.length s) + 1 - 1 <? 0) with false
    by (symmetry; apply Z.ltb_ge; lia).
  replace (Z.to_nat (Z.of_nat (List.length s) + 1 - 1)) with (List.length s) by lia.
  rewrite nth_error_app2, Nat.sub_diag by lia. reflexivity.
Qed.

Lemma lastChar_app (x s : str) : s <> [] -> lastChar (x ++ s) = lastChar s.
Proof.
  intros H. destruct (exists_last H) as [s' [c ->]].
  now rewrite app_assoc, !lastChar_snoc.
Qed.

Lemma lastChar_cases (s : str) :
  (s = [] /\ lastChar s = None) \/ (exists s' c, s = s' ++ [c] /\ lastChar s = Some c).
Proof.
  destruct s as [|x s]; [left; easy|right].
  destruct (@exists_last _ (x :: s)) as [s' [c E]]; [easy|].
  exists s', c. split; [exact E|]. rewrite E. apply lastChar_snoc.
Qed.

(** Decide [endsWith (x ++ s) p] for literal [s] and [p]. *)
Ltac decide_endsWith :=
  repeat match goal with
         | |- context [endsWith (?x ++ ?s) ?p] =>
           rewrite (endsWith_app x s p) by (vm_compute; reflexivity);
           ev (endsWith s p)
         end.

End JSFacts.

(* ================================================================== *)
(** * Properties of PratikaIdentifier                                  *)
(* ================================================================== *)

Module PratikaFacts.
Import JS JSFacts PratikaIdentifier.

(** ** Trimmed words *)

Lemma dropWhile_head (f : Z -> bool) (s : str) (c : Z) (r : str) :
  dropWhile f s = c :: r -> f c = false.
Proof.
  induction s as [|a s IH]; simpl; [discriminate|].
  destruct (f a) eqn:E; [exact IH|]. intros H; injection H as -> _. exact E.
Qed.

Lemma dropWhile_app (f : Z -> bool) (s r : str) :
  dropWhile f s <> [] -> dropWhile f (s ++ r) = dropWhile f s ++ r.
Proof.
  induction s as [|a s IH]; simpl; [easy|].
  destruct (f a); [exact IH|reflexivity].
Qed.

Lemma dropWhile_keeps_last (f : Z -> bool) (s : str) (c : Z) :
  f c = false -> dropWhile f (s ++ [c]) <> [].
Proof.
  intros H. induction s as [|a s IH]; simpl.
  - rewrite H. discriminate.
  - destruct (f a); [exact IH|discriminate].
Qed.

(** A string that [trim] leaves alone does not end in white space. *)
Lemma trim_fixed_last (w : str) (c : Z) :
  trim w = w -> lastChar w = Some c -> isWhiteSpace c = false.
Proof.
  unfold trim, trimEnd, trimStart. intros Ht Hl.
  destruct (lastChar_cases w) as [[-> E]|[w' [c' [-> E]]]]; [congruence|].
  rewrite E in Hl. injection Hl as ->.
  apply (f_equal (@rev Z)) in Ht. rewrite rev_involutive, rev_app_distr in Ht.
  simpl in Ht. eapply dropWhile_head. exact Ht.
Qed.

(** Removing [/\s+इति$/] from a word followed by a space and [इति] gives
    the word back when the word does not end in white space. *)
Lemma removeSpaceIti_word (w : str) :
  (forall c, lastChar w = Some c -> isWhiteSpace c = false) ->
  removeSpaceIti (w ++ u " इति") = w.
Proof.
  ev (u " इति").
  induction w as [|a w IH]; intros Hl; [reflexivity|].
  assert (Hw : forall c, lastChar w = Some c -> isWhiteSpace c = false).
  { intros c Hc. apply Hl. destruct w; [discriminate|].
    change (a :: z :: w) with ([a] ++ z :: w). now rewrite lastChar_app. }
  cbn [app removeSpaceIti].
  replace (isSpacesIti (a :: w ++ [32; 2311; 2340; 2367])) with false.
  - now rewrite (IH Hw).
  - symmetry. cbn [isSpacesIti]. destruct (isWhiteSpace a) eqn:Ea; [|reflexivity].
    cbn [andb]. apply eqb_neq.
    destruct (lastChar_cases w) as [[-> _]|[w' [c [-> E]]]].
    + specialize (Hl a eq_refl). congruence.
    + rewrite dropWhile_app by (apply dropWhile_keeps_last; now apply Hw).
      intros H. apply (f_equal (@List.length Z)) in H.
      rewrite length_app in H.
      assert (dropWhile isWhiteSpace (w' ++ [c]) <> [])
        by (apply dropWhile_keeps_last; now apply Hw).
      destruct (dropWhile isWhiteSpace (w' ++ [c])); [easy|].
      ev (u "इति") in H. simpl in H. lia.
Qed.

Lemma inClass_In (cls : str) (c : Z) : inClass cls c = true <-> In c cls.
Proof.
  unfold inClass. rewrite existsb_exists. split.
  - intros [x [H E]]. apply Z.eqb_eq in E. now subst.
  - intros H. exists c. split; [exact H|apply Z.eqb_refl].
Qed.

Lemma lastIn_false (cls : str) (w : str) :
  (forall c, lastChar w = Some c -> ~ In c cls) -> lastIn cls w = false.
Proof.
  unfold lastIn. destruct (lastChar w) as [c|]; [|reflexivity].
  intros H. destruct (inClass cls c) eqn:E; [|reflexivity].
  apply inClass_In in E. now elim (H c eq_refl).
Qed.

(** ** The cascade of suffix rules *)

(** The plural rules [yebhyariti] and [ebhyariti] come after the rule for
    [रिति] in the cascade, and both suffixes end in [रिति]: whenever the
    text ends in a plural suffix, the [रिति] rule is the one applied. *)
Lemma restore_plural_suffix (t : str) :
  endsWith t (u "ेभ्यरिति") = true ->
  rulePattern (restore t) = u "riti-visarga"
  /\ ruleConfidence (restore t) = 88
  /\ working (restore t) = slice t 0 (-4) ++ u "ः".
Proof.
  intros H. apply endsWith_inv in H.
  set (x := firstn _ t) in H. clearbody x. subst t.
  unfold restore. decide_endsWith.
  rewrite (slice_app_tail x) by (vm_compute; intuition congruence).
  ev (slice (u "ेभ्यरिति") (-5) (-4)).
  ev (eqb [2351] (u "ृ") || eqb [2351] (u "ॄ")).
  repeat split; reflexivity.
Qed.

(** Outside the space-separated branch, a positive result carries a stem
    of at least two code units. *)
Lemma analyse_fused_stem_length {P : Platform} (t : str) :
  endsWithSpaceIti t = false ->
  isPratika (analyse t) = true ->
  exists s, stem (analyse t) = Some s /\ 2 <= len s.
Proof.
  intros Hsp. unfold analyse. rewrite Hsp.
  destruct (negb (endsWithMatraTi t) && negb false && negb (isPlainWordIti t));
    [discriminate|].
  destruct (len (normalize (working (restore t))) <? 2) eqn:E;
    [discriminate|].
  intros _. eexists; split; [reflexivity|]. apply Z.ltb_ge in E. exact E.
Qed.

(** [identifyPratika("भूति")] is negative: the text does not pass the
    first test on its ending. *)
Lemma bhuti_is_not_pratika :
  option_map isPratika
    (identifyPratika (P := Devanagari.runtime) (VString (u "भूति")))
  = Some false.
Proof. vm_compute. reflexivity. Qed.

Lemma endsWithSpaceIti_inv (t : str) :
  endsWithSpaceIti t = true ->
  exists p w, isWhiteSpace w = true /\ t = p ++ w :: u "इति".
Proof.
  unfold endsWithSpaceIti, lastN. intros H.
  rewrite <- (firstn_skipn (List.length t - 4) t).
  destruct (skipn (List.length t - 4) t) as [|w [|i1 [|i2 [|i3 [|? ?]]]]];
    try discriminate.
  apply andb_true_iff in H as [Hw Hi]. apply eqb_eq in Hi.
  exists (firstn (List.length t - 4) t), w. split; [exact Hw|]. now rewrite Hi.
Qed.

(** X28. What holds of the stem-length rule: when the trimmed,
    normalised text does not end in white space followed by [इति] (the
    fused forms), a positive answer of [identifyPratika] carries a stem
    of at least two code units; and [identifyPratika("भूति")] is
    negative. *)
Theorem fused_positive_stem_length {P : Platform} (text : str)
        (r : PratikaAnalysis) :
  (forall p w, isWhiteSpace w = true ->
               normalize (trim text) <> p ++ w :: u "इति") ->
  identifyPratika (VString text) = Some r ->
  isPratika r = true ->
  (exists s, stem r = Some s /\ 2 <= len s)
  /\ option_map isPratika
       (identifyPratika (P := Devanagari.runtime) (VString (u "भूति")))
     = Some false.
Proof.
  intros Hfused Hr Hp. split; [|exact bhuti_is_not_pratika].
  unfold identifyPratika in Hr.
  destruct (negb (truthy (VString text)) || negb (isString (VString text)));
    [discriminate|].
  injection Hr as <-.
  apply analyse_fused_stem_length; [|exact Hp].
  destruct (endsWithSpaceIti (normalize (trim text))) eqn:E; [|reflexivity].
  apply endsWithSpaceIti_inv in E as [p [w [Hw Ht]]].
  now elim (Hfused p w Hw).
Qed.

Lemma fused_positive_stem_length_witness :
  (exists s,
      stem (analyse (P := Devanagari.runtime) (u "रामेति")) = Some s
      /\ 2 <= len s)
  /\ option_map isPratika
       (identifyPratika (P := Devanagari.runtime) (VString (u "भूति")))
     = Some false.
Proof.
  apply (fused_positive_stem_length (P := Devanagari.runtime) (u "रामेति")
           (analyse (P := Devanagari.runtime) (u "रामेति"))).
  - intros p w Hw H. vm_compute in H.
    do 7 (destruct p as [|? p]; [discriminate H|]). discriminate H.
  - vm_compute. reflexivity.
  - vm_compute. reflexivity.
Defined.

(** C1 (the code departs from the specification), which says that every
    positive answer of [identifyPratika] carries a stem of at least two
    code units, on every path. The space-separated path returns before
    the check of the length that the fused path makes:
    [identifyPratika("क इति")] is positive with the one-unit stem ["क"]. *)
Theorem space_branch_stem_of_length_one :
  exists r,
    identifyPratika (P := Devanagari.runtime) (VString (u "क इति")) = Some r
    /\ isPratika r = true
    /\ stem r = Some (u "क")
    /\ pattern r = Some (u "space-iti-inherent-a")
    /\ len (u "क") = 1.
Proof. eexists. vm_compute. repeat split; reflexivity. Qed.

(** C2 (the code departs from the specification), which says that a text ending in
    [ेभ्यरिति] or [येभ्यरिति] is classified by the plural rule, with
    identifier [ebhyariti] or [yebhyariti] and confidence 95. The code
    tests [रिति] first: [identifyPratika("देवेभ्यरिति")] and
    [identifyPratika("ज्ञेयेभ्यरिति")] both answer [riti-visarga] with
    confidence 88. *)
Theorem identifyPratika_plural_suffix_takes_riti_rule :
  (exists r,
      identifyPratika (P := Devanagari.runtime) (VString (u "देवेभ्यरिति"))
      = Some r
      /\ isPratika r = true
      /\ pattern r = Some (u "riti-visarga")
      /\ confidence r = 88
      /\ stem r = Some (u "देवेभ्यः"))
  /\ (exists r,
      identifyPratika (P := Devanagari.runtime) (VString (u "ज्ञेयेभ्यरिति"))
      = Some r
      /\ isPratika r = true
      /\ pattern r = Some (u "riti-visarga")
      /\ confidence r = 88
      /\ stem r = Some (u "ज्ञेयेभ्यः")).
Proof. split; eexists; vm_compute; repeat split; reflexivity. Qed.

(** C9. For every input whose trimmed, normalised form is [<word> इति],
    where [<word>] is a trimmed word that ends neither in a vowel sign nor
    in visarga, anusvara or candrabindu, [identifyPratika] answers
    [isPratika = true], confidence 75, rule [space-iti-inherent-a] and
    stem [<word>]. *)
Theorem space_separated_iti_is_pratika {P : Platform} (text word : str) :
  text <> [] ->
  normalize (trim text) = word ++ u " इति" ->
  trim word = word ->
  (forall c, lastChar word = Some c ->
             ~ In c (u "ािीुूृॄॢॣेैोौ") /\ ~ In c (u "ःंँ")) ->
  exists r,
    identifyPratika (VString text) = Some r
    /\ isPratika r = true
    /\ confidence r = 75
    /\ pattern r = Some (u "space-iti-inherent-a")
    /\ stem r = Some word.
Proof.
  intros Hne Ht Hw Hl.
  unfold identifyPratika, truthy, isString.
  rewrite (proj2 (eqb_neq text []) Hne). cbn [negb orb]. rewrite Ht.
  eexists. split; [reflexivity|].
  unfold analyse.
  assert (Hsp : endsWithSpaceIti (word ++ u " इति") = true).
  { unfold endsWithSpaceIti. rewrite lastN_app by (vm_compute; lia).
    vm_compute. reflexivity. }
  rewrite Hsp. rewrite andb_false_r. cbn [negb andb].
  rewrite removeSpaceIti_word by (intros c Hc; eapply trim_fixed_last; eauto).
  rewrite Hw.
  rewrite !lastIn_false by (intros c Hc; now apply Hl).
  cbn. repeat split; reflexivity.
Qed.

Lemma space_separated_iti_is_pratika_witness :
  exists r,
    identifyPratika (P := Devanagari.runtime) (VString (u "कृपालव इति"))
    = Some r
    /\ isPratika r = true
    /\ confidence r = 75
    /\ pattern r = Some (u "space-iti-inherent-a")
    /\ stem r = Some (u "कृपालव").
Proof.
  apply (space_separated_iti_is_pratika (P := Devanagari.runtime)
           (u "कृपालव इति") (u "कृपालव")).
  - vm_compute. discriminate.
  - vm_compute. reflexivity.
  - vm_compute. reflexivity.
  - intros c Hc. vm_compute in Hc. injection Hc as <-.
    split; vm_compute; intuition discriminate.
Defined.

End PratikaFacts.

(* ================================================================== *)
(** * Properties of SanskritSearch                                     *)
(* ================================================================== *)

Module SearchFacts.
Import JS JSFacts SanskritSearch Properties.
Import PratikaFacts(inClass_In).

(** ** Sorting *)

Section SortFacts.
Context {A : Type} (cmp : A -> A -> Z).

Lemma insertSorted_perm (x : A) (l : list A) :
  Permutation (x :: l) (insertSorted cmp x l).
Proof.
  induction l as [|y l IH]; simpl; [reflexivity|].
  destruct (cmp x y <=? 0); [reflexivity|].
  rewrite perm_swap. now apply perm_skip.
Qed.

Lemma sortBy_perm (l : list A) : Permutation l (sortBy cmp l).
Proof.
  induction l as [|x l IH]; simpl; [reflexivity|].
  rewrite <- insertSorted_perm. now apply perm_skip.
Qed.

Lemma In_sortBy (x : A) (l : list A) : In x (sortBy cmp l) <-> In x l.
Proof.
  split; apply Permutation_in;
    [symmetry|]; apply sortBy_perm.
Qed.

Lemma length_sortBy (l : list A) :
  List.length (sortBy cmp l) = List.length l.
Proof. symmetry. apply Permutation_length, sortBy_perm. Qed.
End SortFacts.

(** ** Objects *)

Lemma get_In_keys {V : Type} (o : object V) (k : str) (v : V) :
  get o k = Some v -> In k (keys o).
Proof.
  induction o as [|[k' v'] o IH]; simpl; [discriminate|].
  destruct (eqb k k') eqn:E.
  - apply eqb_eq in E. subst. now left.
  - intros H. right. now apply IH.
Qed.

(** ** The constructor *)

(** C10. An option given as [0] is replaced by the default: with
    [contextLength: 0] the instance has [contextLength] 50, and with
    [maxResults: 0] it has [maxResults] 100, whatever the other options. *)
Theorem zero_options_fall_back_to_defaults
        (cs es : option bool) (hc : option str) (other : option Z)
        (loaded : bool) :
  contextLength
    (config (constructor
               {| optCaseSensitive := cs; optHighlightClass := hc;
                  optContextLength := Some 0; optEnableSandhi := es;
                  optMaxResults := other |} loaded)) = 50
  /\ maxResults
       (config (constructor
                  {| optCaseSensitive := cs; optHighlightClass := hc;
                     optContextLength := other; optEnableSandhi := es;
                     optMaxResults := Some 0 |} loaded)) = 100.
Proof. split; reflexivity. Qed.

(** No instance has a [contextLength] or a [maxResults] of 0. *)
Lemma constructor_never_zero (options : Options) (loaded : bool) :
  contextLength (config (constructor options loaded)) <> 0
  /\ maxResults (config (constructor options loaded)) <> 0.
Proof.
  destruct options as [cs hc cl es mr]; cbn.
  split; [destruct cl as [n|] | destruct mr as [n|]]; cbn; try lia;
    destruct (n =? 0) eqn:E; try lia; now apply Z.eqb_neq in E.
Qed.

(** ** Invalid arguments *)

(** C4, as the code has it. For every invalid input (a value that is falsy,
    such as [null], [undefined] or the empty string, or that is not a
    string) [identifyPratika] returns [null]; for every falsy term or text
    [search] returns [{matches: [], count: 0}]. Neither throws. *)
Theorem invalid_input_is_answered {P : Platform} (this : Instance)
        (v : value) :
  truthy v = false \/ isString v = false ->
  PratikaIdentifier.identifyPratika v = None
  /\ (truthy v = false ->
      forall w, search this v w = Normal noResults
                /\ search this w v = Normal noResults).
Proof.
  intros H. split.
  - unfold PratikaIdentifier.identifyPratika.
    destruct H as [H|H]; rewrite H; cbn [negb orb];
      [reflexivity|now rewrite orb_true_r].
  - intros F w. unfold search. rewrite F. cbn [negb orb].
    now rewrite orb_true_r.
Qed.

Lemma invalid_input_is_answered_witness :
  PratikaIdentifier.identifyPratika (P := Devanagari.runtime) VNull = None
  /\ (truthy VNull = false ->
      forall w,
        search (P := Devanagari.runtime) (constructor noOptions true) VNull w
        = Normal noResults
        /\ search (P := Devanagari.runtime) (constructor noOptions true) w VNull
           = Normal noResults).
Proof.
  apply (invalid_input_is_answered (P := Devanagari.runtime)
           (constructor noOptions true) VNull).
  left. reflexivity.
Defined.

(** C4 as the specification states it fails: for [null], [identifyPratika]
    returns [null], not an object with [isPratika: false]; and [search]
    with a number as its term throws. *)
Lemma invalid_input_not_structured :
  ~ (exists r,
        PratikaIdentifier.identifyPratika (P := Devanagari.runtime) VNull
        = Some r
        /\ PratikaIdentifier.isPratika r = false)
  /\ search (P := Devanagari.runtime) (constructor noOptions true)
            (VNumber 5) (VString (u "देव"))
     = ThrowTypeError.
Proof.
  split.
  - intros [r [H _]]. discriminate.
  - reflexivity.
Qed.

(** ** The correspondence map *)

Section RoundTrip.
Variable this : Instance.
Hypothesis this_map : itiSandhiMap this = createItiSandhiMap.

(** What the reverse part of [generatePratikaVariations] contributes
    for a pattern the term ends with. *)
Lemma reverse_variation_In (term p ending : str) (endings : list str) :
  get (reverse createItiSandhiMap) p = Some endings ->
  In ending endings ->
  endsWith term p = true ->
  In (slice term 0 (- len p) ++ ending)
     (map text (generatePratikaVariations this term)).
Proof.
  intros Hg Hin He. unfold generatePratikaVariations.
  rewrite this_map, map_app. apply in_or_app. left.
  apply in_map_iff.
  exists {| text := slice term 0 (- len p) ++ ending;
            pattern := p ++ u "->" ++ orStem ending |}.
  split; [reflexivity|].
  apply in_flat_map. exists p. split.
  - apply In_sortBy. eapply get_In_keys. exact Hg.
  - rewrite He, Hg. apply in_map_iff. now exists ending.
Qed.

Lemma round_trip_via (base v1 p ending : str) :
  p <> [] ->
  match get (reverse createItiSandhiMap) p with
  | Some endings => mem ending endings
  | None => false
  end = true ->
  In (base ++ v1 ++ ending)
     (map text (generatePratikaVariations this (base ++ v1 ++ p))).
Proof.
  intros Hp Hm.
  destruct (get (reverse createItiSandhiMap) p) as [endings|] eqn:Hg;
    [|discriminate].
  apply existsb_exists in Hm as [x [Hx E]]. apply eqb_eq in E. subst x.
  rewrite !app_assoc.
  rewrite <- (slice_app_all (base ++ v1) p Hp) at 1.
  eapply reverse_variation_In; eauto. apply endsWith_self.
Qed.
End RoundTrip.

(** One entry [e -> s] of the forward map, handled through the reverse
    pattern [s] itself or, for [ायेति], through [येति]. *)
Ltac round_trip this Hmap base :=
  match goal with
  | |- In (base ++ ?k) (map text (generatePratikaVariations _ (base ++ ?v))) =>
    first
      [ apply (round_trip_via this Hmap base [] v k);
        [discriminate | vm_compute; reflexivity]
      | apply (round_trip_via this Hmap base (u "ा") (u "येति") (u "य"));
        [vm_compute; discriminate | vm_compute; reflexivity] ]
  end.

Ltac forward_entries this Hmap base He1 He2 H :=
  repeat match type of H with
         | (if eqb ?e ?k then _ else _) = _ =>
           let E := fresh "E" in
           destruct (eqb e k) eqn:E;
           [ apply eqb_eq in E; subst e; injection H as <-;
             first [ exfalso; apply He1; vm_compute; reflexivity
                   | exfalso; apply He2; vm_compute; reflexivity
                   | round_trip this Hmap base ]
           | ]
         end.

(** C3, as the code has it. For every entry [e -> s] of the forward map
    other than the two keys [े] and [ऐ], and every stem [base + e],
    expanding the quoted form [base + s] with [generatePratikaVariations]
    yields a list that contains the stem. *)
Theorem forward_entries_round_trip (options : Options)
        (loaded : bool) (e s base : str) :
  get (forward (itiSandhiMap (constructor options loaded))) e = Some s ->
  e <> u "े" ->
  e <> u "ऐ" ->
  In (base ++ e)
     (map text
          (generatePratikaVariations (constructor options loaded) (base ++ s))).
Proof.
  intros H He1 He2.
  set (this := constructor options loaded).
  assert (Hmap : itiSandhiMap this = createItiSandhiMap) by reflexivity.
  change (itiSandhiMap (constructor options loaded)) with createItiSandhiMap in H.
  ev (forward createItiSandhiMap) in H.
  cbn [get] in H.
  forward_entries this Hmap base He1 He2 H.
  discriminate.
Qed.

Lemma forward_entries_round_trip_witness :
  In (u "राम" ++ u "ाय")
     (map text
          (generatePratikaVariations
             (constructor noOptions true) (u "राम" ++ u "ायेति"))).
Proof.
  apply (forward_entries_round_trip
           noOptions true (u "ाय") (u "ायेति") (u "राम")).
  - vm_compute. reflexivity.
  - vm_compute. discriminate.
  - vm_compute. discriminate.
Defined.

(** C3 as the specification states it fails for the entry [े -> ैति]: from the
    stem ["हरे"] the quoted form is ["हरैति"], whose expansion is
    ["हरए"], ["हरै"]. *)
Lemma round_trip_fails_for_e_matra :
  get (forward (itiSandhiMap (constructor noOptions true))) (u "े")
  = Some (u "ैति")
  /\ ~ In (u "हर" ++ u "े")
          (map text
               (generatePratikaVariations
                  (constructor noOptions true) (u "हर" ++ u "ैति"))).
Proof.
  split; [vm_compute; reflexivity|].
  vm_compute. intros [H|[H|[]]]; discriminate.
Qed.

(** ** The limit on the number of results *)

(** C7 (the code departs from the specification), which says that the list
    of matches has at most [config.maxResults] entries in both modes. In precision
    mode the result of [exactWordSearch] is returned as it is: with
    [maxResults: 1], [search("कं", "कंकं")] returns two matches. *)
Theorem precision_mode_exceeds_maxResults :
  let this :=
    constructor {| optCaseSensitive := None; optHighlightClass := None;
                   optContextLength := None; optEnableSandhi := None;
                   optMaxResults := Some 1 |} true in
  maxResults (config this) = 1
  /\ hasEndingMarker (u "कं") = true
  /\ exists r,
      search (P := Devanagari.runtime) this
             (VString (u "कं")) (VString (u "कंकं")) = Normal r
      /\ map (fun m => (position m, length m)) (matches r) = [(0, 2); (2, 2)]
      /\ count r = 2.
Proof.
  cbv zeta. split; [reflexivity|]. split; [vm_compute; reflexivity|].
  eexists. split; [vm_compute; reflexivity|]. split; reflexivity.
Qed.

(** ** indexOf *)

Lemma indexOfAux_spec (p s : str) (k : Z) :
  let i := indexOfAux p s k in
  i = -1 \/
  (k <= i <= k + len s
   /\ isPrefixOf p (skipn (Z.to_nat (i - k)) s) = true).
Proof.
  revert k. induction s as [|c s IH]; intros k; cbn [indexOfAux].
  - destruct (isPrefixOf p []) eqn:E; [right|now left].
    unfold len; simpl. rewrite Z.sub_diag. simpl. split; [lia|exact E].
  - destruct (isPrefixOf p (c :: s)) eqn:E.
    + right. rewrite Z.sub_diag. simpl. split; [unfold len; simpl; lia|exact E].
    + destruct (IH (k + 1)) as [H|[H1 H2]]; [now left|right].
      cbv zeta in *. unfold len in *. cbn [List.length]. split; [lia|].
      replace (Z.to_nat (indexOfAux p s (k + 1) - k))
        with (S (Z.to_nat (indexOfAux p s (k + 1) - (k + 1)))) by lia.
      exact H2.
Qed.

(** What [indexOf] returns when it is not [-1]: an offset at or after the
    start where the pattern is a prefix of the rest. *)
Lemma indexOf_found (s p : str) (from : Z) :
  0 <= from ->
  indexOf s p from <> -1 ->
  from <= indexOf s p from + Z.max 0 (from - len s)
  /\ 0 <= indexOf s p from <= len s
  /\ isPrefixOf p (skipn (Z.to_nat (indexOf s p from)) s) = true.
Proof.
  intros Hf Hi. unfold indexOf, clamp in *.
  set (f := Z.max 0 (Z.min from (len s))) in *.
  assert (Hfl : 0 <= f <= len s) by (pose proof (len_nonneg s); lia).
  destruct (indexOfAux_spec p (skipn (Z.to_nat f) s) f) as [H|[H1 H2]];
    [contradiction|]. cbv zeta in *.
  set (i := indexOfAux p (skipn (Z.to_nat f) s) f) in *.
  assert (Hl : len (skipn (Z.to_nat f) s) = len s - f)
    by (unfold len in *; rewrite length_skipn; lia).
  rewrite Hl in H1. split; [lia|]. split; [lia|].
  rewrite skipn_skipn in H2.
  replace (Z.to_nat (i - f) + Z.to_nat f)%nat with (Z.to_nat i) in H2 by lia.
  exact H2.
Qed.

Lemma prefix_at_bound (p s : str) (i : Z) :
  0 <= i ->
  isPrefixOf p (skipn (Z.to_nat i) s) = true ->
  p <> [] ->
  i + len p <= len s.
Proof.
  intros Hi H Hp. apply isPrefixOf_length in H.
  rewrite length_skipn in H. unfold len.
  destruct p; [contradiction|]. simpl in *. lia.
Qed.

(** ** Marks after a match *)

Lemma at_skipn (s : str) (p k : Z) :
  0 <= p -> 0 <= k ->
  at_ s (p + k) = nth_error (skipn (Z.to_nat p) s) (Z.to_nat k).
Proof.
  intros Hp Hk. unfold at_.
  replace (p + k <? 0) with false by (symmetry; apply Z.ltb_ge; lia).
  rewrite nth_error_skipn. f_equal. lia.
Qed.

Lemma countWhile_spec (f : Z -> bool) (s : str) :
  0 <= countWhile f s
  /\ (forall k, (k < Z.to_nat (countWhile f s))%nat ->
                exists c, nth_error s k = Some c /\ f c = true)
  /\ (forall c, nth_error s (Z.to_nat (countWhile f s)) = Some c ->
                f c = false).
Proof.
  induction s as [|a s [IH0 [IH1 IH2]]]; cbn [countWhile].
  - split; [lia|]. split; [intros k Hk; simpl in Hk; lia|discriminate].
  - destruct (f a) eqn:E.
    + split; [lia|].
      replace (Z.to_nat (1 + countWhile f s))
        with (S (Z.to_nat (countWhile f s))) by lia.
      split.
      * intros [|k] Hk; [now exists a|]. apply IH1. lia.
      * intros c Hc. apply IH2. exact Hc.
    + split; [lia|]. split; [intros k Hk; simpl in Hk; lia|].
      intros c Hc. simpl in Hc. now injection Hc as <-.
Qed.


Section DirectSearch.
Context {P : Platform}.
Variable this : Instance.
Variables term text searchStr textStr : str.
Variable mark : bool.
Hypothesis term_nonempty : term <> [].
Hypothesis searchStr_nonempty : searchStr <> [].

Lemma directLoop_terminates (fuel : nat) (pos : Z) (ms : list Match) :
  0 <= pos ->
  Z.max 0 (len textStr - pos) < Z.of_nat fuel ->
  exists ms',
    directLoop this fuel term text searchStr textStr mark pos ms
    = Normal (ms ++ ms')
    /\ Forall (found this term text searchStr textStr mark) ms'.
Proof.
  revert pos ms. induction fuel as [|fuel IH]; intros pos ms Hp Hf; [lia|].
  cbn [directLoop].
  destruct (indexOf textStr searchStr pos =? -1) eqn:E.
  - exists []. rewrite app_nil_r. split; [reflexivity|constructor].
  - apply Z.eqb_neq in E.
    destruct (indexOf_found textStr searchStr pos Hp E) as [H1 [H2 H3]].
    set (i := indexOf textStr searchStr pos) in *.
    pose proof (prefix_at_bound _ _ _ (proj1 H2) H3 searchStr_nonempty).
    assert (0 < len searchStr).
    { destruct searchStr; [contradiction|]. unfold len. simpl. lia. }
    assert (0 < len term).
    { destruct term; [contradiction|]. unfold len. simpl. lia. }
    edestruct (IH (i + len term)) as [ms' [Hr Hq]];
      [lia|lia|].
    rewrite Hr. rewrite <- app_assoc. eexists. split; [reflexivity|].
    constructor; [|exact Hq].
    exists i. split; [lia|]. split; [exact H3|].
    destruct mark; reflexivity.
Qed.
End DirectSearch.




Section DirectSearchComplete.
Context {P : Platform}.
Variable this : Instance.
Variables term text searchStr textStr : str.
Variable mark : bool.
Hypothesis term_nonempty : term <> [].
Hypothesis searchStr_nonempty : searchStr <> [].



End DirectSearchComplete.



(** ** Phonetic variants *)

Lemma In_uniqAux (x : str) (seen l : list str) :
  In x (uniqAux seen l) -> In x l.
Proof.
  revert seen. induction l as [|y l IH]; intros seen; simpl; [easy|].
  destruct (mem y seen).
  - intros H. right. eapply IH; eauto.
  - intros [H|H]; [now left|right; eapply IH; eauto].
Qed.

Lemma In_uniq (x : str) (l : list str) : In x (uniq l) -> In x l.
Proof. apply In_uniqAux. Qed.

Lemma uniq_head (x : str) (l : list str) :
  exists l', uniq (x :: l) = x :: l'.
Proof. unfold uniq. simpl. eexists. reflexivity. Qed.

Lemma replaceAllAux_nil (fuel : nat) (p r : str) :
  replaceAllAux fuel p r [] = [].
Proof. destruct fuel; reflexivity. Qed.

(** Replacing every occurrence of a pattern by a non-empty string leaves
    a non-empty string non-empty, and its last code unit is the last one
    of the string or the last one of the replacement. *)
Lemma replaceAllAux_last (fuel : nat) (p r s : str) :
  (List.length s <= fuel)%nat ->
  p <> [] -> r <> [] -> s <> [] ->
  replaceAllAux fuel p r s <> []
  /\ (lastChar (replaceAllAux fuel p r s) = lastChar s
      \/ lastChar (replaceAllAux fuel p r s) = lastChar r).
Proof.
  revert s. induction fuel as [|fuel IH]; intros s Hf Hp Hr Hs.
  - destruct s; [contradiction|simpl in Hf; lia].
  - destruct s as [|c s]; [contradiction|]. cbn [replaceAllAux].
    destruct (isPrefixOf p (c :: s)) eqn:E.
    + split; [destruct r; [contradiction|discriminate]|].
      pose proof (isPrefixOf_inv _ _ E) as Hd.
      destruct (skipn (List.length p) (c :: s)) as [|d rest] eqn:Hk.
      * right. now rewrite replaceAllAux_nil, app_nil_r.
      * assert (Hlen : (List.length (d :: rest) <= fuel)%nat).
        { rewrite <- Hk, length_skipn. destruct p; [contradiction|].
          simpl in *. lia. }
        destruct (IH (d :: rest) Hlen Hp Hr) as [Hn [Hl|Hl]]; [discriminate| |].
        -- left. rewrite lastChar_app by exact Hn. rewrite Hl, Hd.
           now rewrite lastChar_app by discriminate.
        -- right. now rewrite lastChar_app by exact Hn.
    + split; [discriminate|].
      destruct s as [|d s].
      * left. now rewrite replaceAllAux_nil.
      * destruct (IH (d :: s)) as [Hn [Hl|Hl]];
          [simpl in *; lia|assumption|assumption|discriminate| |].
        -- left.
           change (c :: replaceAllAux fuel p r (d :: s))
             with ([c] ++ replaceAllAux fuel p r (d :: s)).
           change (c :: d :: s) with ([c] ++ d :: s).
           rewrite !lastChar_app by (assumption || discriminate). exact Hl.
        -- right.
           change (c :: replaceAllAux fuel p r (d :: s))
             with ([c] ++ replaceAllAux fuel p r (d :: s)).
           rewrite lastChar_app by assumption. exact Hl.
Qed.

Lemma replaceAll_last (s p r : str) :
  p <> [] -> r <> [] -> s <> [] ->
  replaceAll s p r <> []
  /\ (lastChar (replaceAll s p r) = lastChar s
      \/ lastChar (replaceAll s p r) = lastChar r).
Proof. intros. apply replaceAllAux_last; auto. Qed.

Lemma replaceAtEnd_last (s p r : str) :
  r <> [] -> s <> [] ->
  replaceAtEnd s p r <> []
  /\ (lastChar (replaceAtEnd s p r) = lastChar s
      \/ lastChar (replaceAtEnd s p r) = lastChar r).
Proof.
  intros Hr Hs. unfold replaceAtEnd. destruct (endsWith s p).
  - split; [destruct r; [contradiction|]; now destruct (firstn _ s)|].
    right. now apply lastChar_app.
  - split; [assumption|now left].
Qed.

Lemma endsInsideWord_nonempty (v : str) : endsInsideWord v -> v <> [].
Proof. intros [c [H _]] ->. discriminate. Qed.

Lemma endingPattern_inside_word (c : Z) :
  inClass endingPattern c = true -> isBoundaryChar c = false.
Proof.
  intros H. apply inClass_In in H.
  assert (F : forallb (fun c => negb (isBoundaryChar c)) endingPattern = true)
    by (vm_compute; reflexivity).
  rewrite forallb_forall in F. specialize (F c H).
  now destruct (isBoundaryChar c).
Qed.

Lemma replaced_endsInsideWord (s v r : str) :
  endsInsideWord s -> endsInsideWord r ->
  v <> [] ->
  (lastChar v = lastChar s \/ lastChar v = lastChar r) ->
  endsInsideWord v.
Proof.
  intros [c [Hc Hb]] [d [Hd Hb']] _ [H|H]; [exists c|exists d]; split;
    congruence.
Qed.

Lemma pushIfIncludes_inside (term a p r v : str) :
  endsInsideWord term -> p <> [] -> endsInsideWord r ->
  In v (pushIfIncludes term a p r) -> endsInsideWord v.
Proof.
  intros Ht Hp Hr. unfold pushIfIncludes.
  destruct (includes term a); [|easy]. intros [<-|[]].
  destruct (replaceAll_last term p r Hp (endsInsideWord_nonempty _ Hr)
              (endsInsideWord_nonempty _ Ht)) as [Hn Hl].
  exact (replaced_endsInsideWord term _ r Ht Hr Hn Hl).
Qed.

Ltac literal_inside :=
  match goal with
  | |- endsInsideWord _ =>
    eexists; split; vm_compute; reflexivity
  | |- _ <> [] => vm_compute; discriminate
  end.

(** Every variant of a term that ends in a marker ends inside a word. *)
Lemma variants_end_inside_word (term v : str) :
  hasEndingMarker term = true ->
  In v (generatePhoneticVariants term) ->
  endsInsideWord v.
Proof.
  intros Hm Hin.
  assert (Ht : endsInsideWord term).
  { unfold hasEndingMarker, lastIn in Hm.
    destruct (lastChar term) as [c|] eqn:Hc; [|discriminate].
    exists c. split; [exact Hc|now apply endingPattern_inside_word]. }
  unfold generatePhoneticVariants in Hin. apply In_uniq in Hin.
  repeat (apply in_app_or in Hin as [Hin|Hin];
          [first [ destruct Hin as [<-|[]]; exact Ht
                 | eapply pushIfIncludes_inside; [exact Ht| | |exact Hin];
                   literal_inside ]| ]).
  destruct (includes term (u "स्")); [|easy].
  destruct Hin as [<-|[]].
  destruct (replaceAtEnd_last term (u "स्") (u "ः")) as [Hn Hl];
    [literal_inside|now apply endsInsideWord_nonempty|].
  apply (replaced_endsInsideWord term _ (u "ः") Ht); [literal_inside|exact Hn|exact Hl].
Qed.

(** ** The regular expression of exactWordSearch *)

Lemma firstSome_In {A B : Type} (f : A -> option B) (l : list A) (y : B) :
  firstSome f l = Some y -> exists x, In x l /\ f x = Some y.
Proof.
  induction l as [|x l IH]; simpl; [discriminate|].
  destruct (f x) as [z|] eqn:E.
  - intros H. exists x. split; [now left|congruence].
  - intros H. destruct (IH H) as [x' [Hin Hf]]. exists x'. split; [now right|easy].
Qed.

Lemma at_Some_bound (s : str) (i : Z) (c : Z) :
  at_ s i = Some c -> 0 <= i < len s.
Proof.
  unfold at_. destruct (i <? 0) eqn:E; [discriminate|].
  apply Z.ltb_ge in E. intros H.
  assert (nth_error s (Z.to_nat i) <> None) by congruence.
  apply nth_error_Some in H0. unfold len. lia.
Qed.

Lemma boundaryAlternatives_In (text : str) (p a : Z) :
  In a (boundaryAlternatives text p) ->
  (a = 0 /\ (p = 0 \/ p = len text))
  \/ (a = 1 /\ exists c, at_ text p = Some c /\ isBoundaryChar c = true).
Proof.
  unfold boundaryAlternatives. intros H.
  apply in_app_or in H as [H|H]; [|apply in_app_or in H as [H|H]].
  - destruct (p =? 0) eqn:E; [|easy]. destruct H as [<-|[]].
    apply Z.eqb_eq in E. left. auto.
  - destruct (at_ text p) as [c|] eqn:Ec; [|easy].
    destruct (isBoundaryChar c) eqn:Eb; [|easy]. destruct H as [<-|[]].
    right. split; [reflexivity|]. now exists c.
  - destruct (p =? len text) eqn:E; [|easy]. destruct H as [<-|[]].
    apply Z.eqb_eq in E. left. auto.
Qed.

Lemma matchAt_inv (v text : str) (i lead total : Z) :
  0 <= i -> v <> [] ->
  matchAt v text i = Some (lead, total) ->
  isPrefixOf v (skipn (Z.to_nat (i + lead)) text) = true
  /\ (lead = 0 /\ i = 0
      \/ lead = 1 /\ exists c, at_ text i = Some c /\ isBoundaryChar c = true)
  /\ (total = lead + len v /\ i + total = len text
      \/ total = lead + len v + 1
         /\ exists c, at_ text (i + lead + len v) = Some c
                      /\ isBoundaryChar c = true).
Proof.
  intros Hi Hv H. unfold matchAt in H.
  apply firstSome_In in H as [a [Ha H]].
  destruct (isPrefixOf v (skipn (Z.to_nat (i + a)) text)) eqn:Ep; [|discriminate].
  apply firstSome_In in H as [b [Hb H]]. injection H as <- <-.
  apply boundaryAlternatives_In in Ha, Hb.
  assert (Hlen : 0 < len v)
    by (destruct v; [contradiction|unfold len; simpl; lia]).
  assert (Ha0 : 0 <= a) by (destruct Ha as [[-> _]|[-> _]]; lia).
  pose proof (prefix_at_bound v text (i + a) ltac:(lia) Ep Hv) as Hb1.
  split; [exact Ep|]. split.
  - destruct Ha as [[-> [H|H]]|[-> H]]; [left; auto|lia|right; auto].
  - destruct Hb as [[-> [H|H]]|[-> H]]; [lia|left; lia|right; auto].
Qed.

Lemma len_range (s : str) (a n : Z) :
  0 <= a -> 0 <= n -> a + n <= len s -> len (range s a (a + n)) = n.
Proof.
  intros Ha Hn Hl. unfold range, len in *.
  rewrite length_firstn, length_skipn. lia.
Qed.

Lemma lastChar_range (s : str) (a n : Z) :
  0 <= a -> 0 < n -> a + n <= len s ->
  lastChar (range s a (a + n)) = at_ s (a + n - 1).
Proof.
  intros Ha Hn Hl. unfold lastChar. rewrite len_range by lia.
  unfold at_.
  replace (n - 1 <? 0) with false by (symmetry; apply Z.ltb_ge; lia).
  replace (a + n - 1 <? 0) with false by (symmetry; apply Z.ltb_ge; lia).
  unfold range. rewrite nth_error_firstn.
  replace (Z.to_nat (n - 1) <? Z.to_nat (a + n - a))%nat with true
    by (symmetry; apply Nat.ltb_lt; lia).
  rewrite nth_error_skipn. f_equal. lia.
Qed.

Lemma prefix_last (v s : str) (i : Z) :
  0 <= i -> v <> [] ->
  isPrefixOf v (skipn (Z.to_nat i) s) = true ->
  at_ s (i + len v - 1) = lastChar v.
Proof.
  intros Hi Hv H. apply isPrefixOf_inv in H.
  assert (Hlen : 0 < len v)
    by (destruct v; [contradiction|unfold len; simpl; lia]).
  replace (i + len v - 1) with (i + (len v - 1)) by lia.
  rewrite at_skipn by lia. rewrite H.
  unfold lastChar, at_.
  replace (len v - 1 <? 0) with false by (symmetry; apply Z.ltb_ge; lia).
  apply nth_error_app1. unfold len in *. lia.
Qed.

Lemma substr_prefix (v s : str) (i : Z) :
  0 <= i -> v <> [] ->
  isPrefixOf v (skipn (Z.to_nat i) s) = true ->
  substr s i (len v) = v.
Proof.
  intros Hi Hv H. pose proof (prefix_at_bound v s i Hi H Hv) as Hb.
  pose proof (len_nonneg v) as Hl.
  unfold substr, relIndex.
  replace (i <? 0) with false by (symmetry; apply Z.ltb_ge; lia).
  rewrite (Z.min_l i) by lia. rewrite Z.max_l by lia. rewrite Z.min_l by lia.
  unfold range. replace (i + len v - i) with (len v) by lia.
  unfold len. rewrite Nat2Z.id. now apply isPrefixOf_firstn.
Qed.

(** The start of the captured group, as [exactWordSearch] computes it from
    the match, is the offset where the variant lies in the text, and the
    variant is delimited there. *)
Lemma matchStart_spec (v text : str) (i lead total : Z) :
  0 <= i -> endsInsideWord v ->
  matchAt v text i = Some (lead, total) ->
  let match0 := range text i (i + total) in
  let matchStart :=
    i + (len match0 - len v
         - (if lastIn isBoundaryChar match0 then 1 else 0)) in
  0 <= matchStart
  /\ i + total <= len text /\ 0 < total
  /\ substr text matchStart (len v) = v
  /\ wordDelimited text matchStart (len v).
Proof.
  intros Hi Hv H.
  pose proof (endsInsideWord_nonempty v Hv) as Hne.
  destruct (matchAt_inv v text i lead total Hi Hne H) as [Hp [Hl Ht]].
  assert (Hlen : 0 < len v)
    by (destruct v; [contradiction|unfold len; simpl; lia]).
  assert (Hl0 : 0 <= lead <= 1) by (destruct Hl as [[-> _]|[-> _]]; lia).
  pose proof (prefix_at_bound v text (i + lead) ltac:(lia) Hp Hne) as Hb.
  assert (Hb' : i + total <= len text).
  { destruct Ht as [[-> _]|[-> [c [Hc _]]]]; [lia|].
    apply at_Some_bound in Hc. lia. }
  assert (Htot : 0 < total) by (destruct Ht as [[-> _]|[-> _]]; lia).
  cbv zeta. rewrite len_range by lia.
  unfold lastIn. rewrite lastChar_range by lia.
  assert (E : (if match at_ text (i + total - 1) with
                  | Some c => isBoundaryChar c
                  | None => false
                  end then 1 else 0) = total - lead - len v).
  { destruct Ht as [[-> _]|[-> [c [Hc Hbc]]]].
    - replace (i + (lead + len v) - 1) with ((i + lead) + len v - 1) by lia.
      rewrite (prefix_last v text (i + lead)) by (assumption || lia).
      destruct Hv as [c [-> ->]]. lia.
    - replace (i + (lead + len v + 1) - 1) with (i + lead + len v) by lia.
      rewrite Hc, Hbc. lia. }
  rewrite E.
  replace (i + (total - len v - (total - lead - len v))) with (i + lead) by lia.
  split; [lia|]. split; [exact Hb'|]. split; [exact Htot|].
  split; [apply substr_prefix; (assumption || lia)|].
  split.
  - destruct Hl as [[-> ->]|[-> Hc]]; [now left|right].
    now replace (i + 1 - 1) with i by lia.
  - destruct Ht as [[-> Hend]|[-> Hc]]; [left; lia|right; exact Hc].
Qed.

Lemma scanFrom_inv (n : nat) (v text : str) (i index lead total : Z) :
  scanFrom n v text i = Some (index, (lead, total)) ->
  i <= index <= i + Z.of_nat n
  /\ matchAt v text index = Some (lead, total).
Proof.
  revert i. induction n as [|n IH]; intros i; cbn [scanFrom];
    destruct (matchAt v text i) as [[l t]|] eqn:E.
  - intros H; injection H as <- <- <-. split; [lia|exact E].
  - discriminate.
  - intros H; injection H as <- <- <-. split; [lia|exact E].
  - intros H. apply IH in H. split; [lia|easy].
Qed.

Lemma exec_inv (v text : str) (lastIndex index lead total : Z) :
  0 <= lastIndex ->
  exec v text lastIndex = Some (index, (lead, total)) ->
  lastIndex <= index <= len text
  /\ matchAt v text index = Some (lead, total).
Proof.
  unfold exec. intros H0.
  destruct (len text <? lastIndex) eqn:E; [discriminate|].
  apply Z.ltb_ge in E. intros H. apply scanFrom_inv in H. split; [lia|easy].
Qed.

(** ** Precision mode *)

Section ExactWordSearch.
Context {P : Platform}.
Variable this : Instance.
Variables searchTerm text : str.
Variable variants : list str.

Lemma execLoop_spec (v : str) (fuel : nat) (lastIndex : Z) (ms : list Match) :
  In v variants -> endsInsideWord v ->
  0 <= lastIndex ->
  Z.max 0 (len text + 1 - lastIndex) < Z.of_nat fuel ->
  exists ms',
    execLoop this fuel searchTerm text v lastIndex ms = Normal (ms ++ ms')
    /\ Forall (variantOccurrence variants text) ms'
    /\ Forall (delimitedMatch text) ms'
    /\ (ms = [] -> exec v text lastIndex <> None -> ms' <> []).
Proof.
  intros Hin Hv. revert lastIndex ms.
  induction fuel as [|fuel IH]; intros lastIndex ms Hl Hf; [lia|].
  cbn [execLoop].
  destruct (exec v text lastIndex) as [[index [lead total]]|] eqn:E.
  - destruct (exec_inv v text lastIndex index lead total Hl E) as [Hi Hm].
    destruct (matchStart_spec v text index lead total ltac:(lia) Hv Hm)
      as [H0 [Hb [Ht [Hs Hd]]]].
    cbv zeta in H0, Hs, Hd.
    set (matchStart := index + _) in *.
    assert (Hgood : variantOccurrence variants text
                      (exactMatch this searchTerm text v matchStart)).
    { unfold variantOccurrence. cbn. auto. }
    destruct (samePosition matchStart ms) eqn:Ed.
    + destruct (IH (index + total) ms) as [ms' [Hr [Hg [Hdl _]]]]; [lia|lia|].
      exists ms'. split; [exact Hr|]. split; [exact Hg|]. split; [exact Hdl|].
      intros -> _. discriminate.
    + destruct (IH (index + total)
                   (ms ++ [exactMatch this searchTerm text v matchStart]))
        as [ms' [Hr [Hg [Hdl _]]]]; [lia|lia|].
      rewrite <- app_assoc in Hr. eexists. split; [exact Hr|].
      split; [constructor; assumption|].
      split; [constructor; assumption|]. intros _ _. discriminate.
  - exists []. rewrite app_nil_r. split; [reflexivity|].
    split; [constructor|]. split; [constructor|]. intros _ H. now elim H.
Qed.

Lemma fallbackLoop_spec (v : str) (fuel : nat) (index : Z) (ms : list Match) :
  In v variants -> v <> [] ->
  0 <= index ->
  Z.max 0 (len text - index) < Z.of_nat fuel ->
  exists ms',
    fallbackLoop this fuel searchTerm text v index ms = Normal (ms ++ ms')
    /\ Forall (variantOccurrence variants text) ms'.
Proof.
  intros Hin Hv. revert index ms.
  induction fuel as [|fuel IH]; intros index ms Hi Hf; [lia|].
  cbn [fallbackLoop].
  destruct (indexOf text v index =? -1) eqn:E.
  - exists []. rewrite app_nil_r. split; [reflexivity|constructor].
  - apply Z.eqb_neq in E.
    destruct (indexOf_found text v index Hi E) as [H1 [H2 H3]].
    set (i := indexOf text v index) in *.
    pose proof (prefix_at_bound _ _ _ (proj1 H2) H3 Hv).
    assert (0 < len v) by (destruct v; [contradiction|unfold len; simpl; lia]).
    assert (Hgood : variantOccurrence variants text
                      (exactMatch this searchTerm text v i)).
    { unfold variantOccurrence. cbn. split; [reflexivity|].
      split; [exact Hin|]. split; [lia|]. apply substr_prefix; (assumption || lia). }
    destruct (samePosition i ms).
    + destruct (IH (i + len v) ms) as [ms' [Hr Hg]]; [lia|lia|].
      exists ms'. split; assumption.
    + destruct (IH (i + len v) (ms ++ [exactMatch this searchTerm text v i]))
        as [ms' [Hr Hg]]; [lia|lia|].
      rewrite <- app_assoc in Hr. eexists. split; [exact Hr|].
      constructor; assumption.
Qed.

Lemma searchVariant_spec (v : str) (ms : list Match) :
  In v variants -> endsInsideWord v ->
  exists ms',
    searchVariant this searchTerm text ms v = Normal (ms ++ ms')
    /\ Forall (variantOccurrence variants text) ms'
    /\ (ms <> [] -> Forall (delimitedMatch text) ms')
    /\ (ms = [] -> exec v text 0 <> None ->
        ms' <> [] /\ Forall (delimitedMatch text) ms').
Proof.
  intros Hin Hv. unfold searchVariant.
  destruct (execLoop_spec v (loopFuel text) 0 ms Hin Hv) as [ms1 [Hr [Hg [Hd Hn]]]];
    [lia|unfold loopFuel, len; lia|].
  rewrite Hr. cbn [bind].
  destruct (ms ++ ms1) as [|m rest] eqn:E.
  - apply app_eq_nil in E as [-> ->].
    destruct (fallbackLoop_spec v (loopFuel text) 0 [] Hin
                (endsInsideWord_nonempty v Hv))
      as [ms2 [Hr2 Hg2]]; [lia|unfold loopFuel, len; lia|].
    exists ms2. split; [exact Hr2|]. split; [exact Hg2|].
    split; [intros H; now elim H|].
    intros _ He. now elim (Hn eq_refl He).
  - exists ms1. rewrite E. split; [reflexivity|]. split; [exact Hg|].
    split; [intros _; exact Hd|]. intros H0 He. split; [now apply Hn|exact Hd].
Qed.

Lemma forEach_variants_spec (vs : list str) (ms : list Match) :
  (forall v, In v vs -> In v variants /\ endsInsideWord v) ->
  exists ms',
    forEach vs (searchVariant this searchTerm text) ms = Normal (ms ++ ms')
    /\ Forall (variantOccurrence variants text) ms'
    /\ (ms <> [] -> Forall (delimitedMatch text) ms').
Proof.
  revert ms. induction vs as [|v vs IH]; intros ms Hvs.
  - exists []. rewrite app_nil_r. split; [reflexivity|].
    split; [constructor|]. intros _. constructor.
  - destruct (Hvs v (or_introl eq_refl)) as [Hin Hv].
    destruct (searchVariant_spec v ms Hin Hv) as [ms1 [Hr [Hg [Hd _]]]].
    destruct (IH (ms ++ ms1)) as [ms2 [Hr2 [Hg2 Hd2]]];
      [intros w Hw; apply Hvs; now right|].
    cbn [forEach]. rewrite Hr. cbn [bind]. rewrite Hr2.
    rewrite <- app_assoc. eexists. split; [reflexivity|].
    split; [apply Forall_app; split; assumption|].
    intros Hne. apply Forall_app. split; [now apply Hd|].
    apply Hd2. destruct ms; [contradiction|discriminate].
Qed.

End ExactWordSearch.

(** ** Completeness of the scan *)

Lemma firstSome_hit {A B : Type} (f : A -> option B) (l : list A) (x : A) :
  In x l -> f x <> None -> firstSome f l <> None.
Proof.
  induction l as [|y l IH]; simpl; [easy|].
  intros [->|H] Hf.
  - destruct (f x); [discriminate|contradiction].
  - destruct (f y); [discriminate|auto].
Qed.

Lemma boundaryAlternatives_nonempty (text : str) (p : Z) :
  (p = 0 \/ p = len text
   \/ exists c, at_ text p = Some c /\ isBoundaryChar c = true) ->
  exists a, In a (boundaryAlternatives text p).
Proof.
  unfold boundaryAlternatives. intros [->|[->|[c [Hc Hb]]]].
  - exists 0. apply in_or_app. left. now left.
  - exists 0. apply in_or_app. right. apply in_or_app. right.
    rewrite Z.eqb_refl. now left.
  - exists 1. apply in_or_app. right. apply in_or_app. left.
    rewrite Hc, Hb. now left.
Qed.

(** An occurrence of the variant with a boundary on each side is matched
    by the pattern, at the occurrence or one code unit before it. *)
Lemma matchAt_delimited (v text : str) (p : Z) :
  0 <= p -> v <> [] ->
  isPrefixOf v (skipn (Z.to_nat p) text) = true ->
  wordDelimited text p (len v) ->
  exists i, 0 <= i <= p /\ matchAt v text i <> None.
Proof.
  intros Hp Hv Hpre [Hl Hr].
  assert (Htrail : exists b, In b (boundaryAlternatives text (p + len v))).
  { apply boundaryAlternatives_nonempty.
    destruct Hr as [Hr|Hr]; [right; left; exact Hr|right; right; exact Hr]. }
  destruct Htrail as [b Hb].
  assert (Hgo : forall i lead, i + lead = p ->
                In lead (boundaryAlternatives text i) ->
                matchAt v text i <> None).
  { intros i lead E Hin. unfold matchAt.
    apply firstSome_hit with (x := lead); [exact Hin|].
    rewrite E, Hpre. apply firstSome_hit with (x := b); [exact Hb|discriminate]. }
  destruct Hl as [->|[c [Hc Hbc]]].
  - exists 0. split; [lia|]. apply (Hgo 0 0); [lia|].
    unfold boundaryAlternatives. apply in_or_app. left. now left.
  - pose proof (at_Some_bound _ _ _ Hc). exists (p - 1). split; [lia|].
    apply (Hgo (p - 1) 1); [lia|].
    unfold boundaryAlternatives. apply in_or_app. right. apply in_or_app. left.
    rewrite Hc, Hbc. now left.
Qed.

Lemma scanFrom_hit (n : nat) (v text : str) (i j : Z) :
  i <= j <= i + Z.of_nat n ->
  matchAt v text j <> None ->
  scanFrom n v text i <> None.
Proof.
  revert i. induction n as [|n IH]; intros i Hj Hm; cbn [scanFrom].
  - replace i with j by lia. destruct (matchAt v text j); [discriminate|easy].
  - destruct (matchAt v text i) eqn:E; [discriminate|].
    apply IH; [|exact Hm].
    assert (j <> i) by (intros ->; congruence). lia.
Qed.

Lemma exec_complete (v text : str) (p : Z) :
  0 <= p -> v <> [] ->
  isPrefixOf v (skipn (Z.to_nat p) text) = true ->
  wordDelimited text p (len v) ->
  exec v text 0 <> None.
Proof.
  intros Hp Hv Hpre Hd.
  destruct (matchAt_delimited v text p Hp Hv Hpre Hd) as [i [Hi Hm]].
  pose proof (prefix_at_bound v text p Hp Hpre Hv).
  pose proof (len_nonneg v).
  unfold exec.
  replace (len text <? 0) with false by (symmetry; apply Z.ltb_ge; lia).
  apply scanFrom_hit with (j := i); [lia|exact Hm].
Qed.

(** ** exactWordSearch and search in precision mode *)

Lemma variants_head (term : str) :
  exists rest, generatePhoneticVariants term = term :: rest.
Proof. unfold generatePhoneticVariants. cbn [app]. apply uniq_head. Qed.

Section PrecisionMode.
Context {P : Platform}.
Variable this : Instance.

Lemma exactWordSearch_spec (searchTerm text : str) :
  hasEndingMarker (normalize searchTerm) = true ->
  exists r,
    exactWordSearch this searchTerm text = Normal r
    /\ (forall m, In m (matches r) ->
          variantOccurrence
            (generatePhoneticVariants (normalize searchTerm))
            (normalize text) m)
    /\ (exec (normalize searchTerm) (normalize text) 0 <> None ->
        forall m, In m (matches r) -> delimitedMatch (normalize text) m).
Proof.
  intros Hm. unfold exactWordSearch.
  destruct (eqb searchTerm [] || eqb text []).
  { exists noResults. split; [reflexivity|]. split; intros; contradiction. }
  set (term' := normalize searchTerm). set (text' := normalize text).
  set (variants := generatePhoneticVariants term').
  assert (Hvs : forall v, In v variants -> In v variants /\ endsInsideWord v).
  { intros v Hv. split; [exact Hv|].
    now apply (variants_end_inside_word term'). }
  destruct (variants_head term') as [rest Hrest].
  fold variants in Hrest.
  destruct (searchVariant_spec this term' text' variants term' []) as
      [ms1 [Hr1 [Hg1 [_ Hd1]]]];
    [rewrite Hrest; now left|apply Hvs; rewrite Hrest; now left|].
  destruct (forEach_variants_spec this term' text' variants rest ms1)
    as [ms2 [Hr2 [Hg2 Hd2]]];
    [intros v Hv; apply Hvs; rewrite Hrest; now right|].
  rewrite Hrest. cbn [forEach]. rewrite Hr1. cbn [bind app]. rewrite Hr2.
  cbn [bind]. eexists. split; [reflexivity|]. cbn [matches]. split.
  - intros m Hin. apply In_sortBy in Hin.
    apply in_app_or in Hin. rewrite Forall_forall in Hg1, Hg2.
    rewrite <- Hrest. destruct Hin; auto.
  - intros He m Hin. apply In_sortBy in Hin.
    destruct (Hd1 eq_refl He) as [Hne Hd].
    specialize (Hd2 Hne). rewrite Forall_forall in Hd, Hd2.
    apply in_app_or in Hin. destruct Hin; auto.
Qed.

End PrecisionMode.

(** ** The markers of precision mode *)

(** The class of [hasEndingMarker] is made of the explicit markers and of
    the eight base letters. *)
Lemma endingPattern_kinds (c : Z) :
  In c endingPattern <-> In c explicitMarkers \/ In c baseLetters.
Proof.
  rewrite <- !inClass_In, <- orb_true_iff.
  assert (F : forallb (fun c => inClass explicitMarkers c
                                || inClass baseLetters c) endingPattern
              = true) by (vm_compute; reflexivity).
  assert (G : forallb (inClass endingPattern) (explicitMarkers ++ baseLetters)
              = true) by (vm_compute; reflexivity).
  rewrite forallb_forall in F, G. split.
  - intros H. apply F. now apply inClass_In.
  - intros H. apply G. apply in_or_app. apply orb_true_iff in H.
    destruct H as [H|H]; apply inClass_In in H; auto.
Qed.

Lemma endsInMarker_hasEndingMarker (term : str) :
  endsInMarker term = true -> hasEndingMarker term = true.
Proof.
  unfold endsInMarker, hasEndingMarker, lastIn.
  destruct (lastChar term) as [c|]; [|easy].
  intros H. apply inClass_In. apply endingPattern_kinds. left.
  now apply inClass_In.
Qed.

(** A nasal ending begins with a code unit that is no vowel sign. *)
Lemma nasalEnding_head (e : str) :
  In e nasalEndings ->
  exists c tail, e = c :: tail /\ inClass vowelSigns c = false.
Proof.
  intros H.
  assert (F : forallb (fun e => match e with
                                | c :: _ => negb (inClass vowelSigns c)
                                | [] => false
                                end) nasalEndings = true)
    by (vm_compute; reflexivity).
  rewrite forallb_forall in F. specialize (F e H).
  destruct e as [|c tail]; [discriminate|]. exists c, tail.
  split; [reflexivity|]. now destruct (inClass vowelSigns c).
Qed.

(** ** Where a variant departs from the term *)

(** Replacing the occurrences of a pattern leaves the string as it is, or
    changes it first where the pattern first occurs. *)
Lemma replaceAllAux_first (fuel : nat) (p r s : str) :
  replaceAllAux fuel p r s = s
  \/ exists a b rest,
       s = a ++ p ++ b /\ replaceAllAux fuel p r s = a ++ r ++ rest.
Proof.
  revert s. induction fuel as [|fuel IH]; intros s; [now left|].
  destruct s as [|c s]; [now left|]. cbn [replaceAllAux].
  destruct (isPrefixOf p (c :: s)) eqn:E.
  - right. exists [], (skipn (List.length p) (c :: s)). eexists.
    split; [exact (isPrefixOf_inv _ _ E)|reflexivity].
  - destruct (IH s) as [->|[a [b [rest [Hs Hr]]]]]; [now left|].
    right. exists (c :: a), b, rest. rewrite Hr, Hs at 1. now split.
Qed.

Lemma replaceAtEnd_first (s p r : str) :
  replaceAtEnd s p r = s
  \/ exists a b rest,
       s = a ++ p ++ b /\ replaceAtEnd s p r = a ++ r ++ rest.
Proof.
  unfold replaceAtEnd. destruct (endsWith s p) eqn:E; [|now left].
  right. exists (firstn (List.length s - List.length p) s), [], [].
  rewrite !app_nil_r. split; [exact (endsWith_inv _ _ E)|reflexivity].
Qed.

Lemma isPrefixOf_nth (p t : str) (i : nat) (y : Z) :
  isPrefixOf p t = true -> nth_error p i = Some y -> nth_error t i = Some y.
Proof.
  intros H Hy. rewrite (isPrefixOf_inv _ _ H).
  rewrite nth_error_app1; [exact Hy|].
  apply nth_error_Some. congruence.
Qed.

Lemma nth_error_middle (a l : str) (y : Z) :
  nth_error (a ++ y :: l) (List.length a) = Some y.
Proof. rewrite nth_error_app2, Nat.sub_diag by lia. reflexivity. Qed.

(** A text that begins with the term does not begin with the stem
    followed by a vowel sign, when the term has another code unit
    there. *)
Lemma term_avoids_vowel_form (stem tail t : str) (c x : Z) :
  inClass vowelSigns c = false -> In x vowelSigns ->
  isPrefixOf (stem ++ c :: tail) t = true ->
  isPrefixOf (stem ++ [x]) t = false.
Proof.
  intros Hc Hx Hv. destruct (isPrefixOf (stem ++ [x]) t) eqn:E; [|reflexivity].
  pose proof (isPrefixOf_nth _ _ _ _ Hv (nth_error_middle stem tail c)) as H1.
  pose proof (isPrefixOf_nth _ _ _ _ E (nth_error_middle stem [] x)) as H2.
  assert (c = x) by congruence. subst x.
  apply inClass_In in Hx. congruence.
Qed.

(** Neither does a text that begins with a string that departs from the
    term by a replacement whose first code unit is no vowel sign. *)
Lemma changed_avoids_vowel_form (stem tail a p r b rest t : str) (c x : Z) :
  stem ++ c :: tail = a ++ p ++ b ->
  (exists p0 p' r0 r',
      p = p0 :: p' /\ r = r0 :: r' /\ p0 <> r0
      /\ inClass vowelSigns r0 = false) ->
  inClass vowelSigns c = false -> In x vowelSigns ->
  isPrefixOf (a ++ r ++ rest) t = true ->
  isPrefixOf (stem ++ [x]) t = false.
Proof.
  intros Ht [p0 [p' [r0 [r' [-> [-> [Hne Hr]]]]]]] Hc Hx Hv.
  destruct (isPrefixOf (stem ++ [x]) t) eqn:E; [|reflexivity]. exfalso.
  cbn [app] in Ht, Hv.
  pose proof (isPrefixOf_nth _ _ _ _ E (nth_error_middle stem [] x)) as H2.
  pose proof (isPrefixOf_nth _ _ _ _ Hv (nth_error_middle a _ r0)) as H1.
  apply inClass_In in Hx.
  destruct (Nat.lt_trichotomy (List.length a) (List.length stem))
    as [Hlt|[El|Hgt]].
  - assert (H3 : nth_error (stem ++ [x]) (List.length a) = Some p0).
    { rewrite nth_error_app1 by lia.
      rewrite <- (nth_error_app1 stem (c :: tail)) by lia.
      rewrite Ht. apply nth_error_middle. }
    pose proof (isPrefixOf_nth _ _ _ _ E H3). congruence.
  - rewrite <- El in H2. assert (r0 = x) by congruence. subst x. congruence.
  - assert (H3 : nth_error (a ++ r0 :: r' ++ rest) (List.length stem)
                 = Some c).
    { rewrite nth_error_app1 by lia.
      rewrite <- (nth_error_app1 a (p0 :: p' ++ b)) by lia.
      rewrite <- Ht. apply nth_error_middle. }
    pose proof (isPrefixOf_nth _ _ _ _ Hv H3).
    assert (c = x) by congruence. subst x. congruence.
Qed.

Ltac first_units :=
  do 4 eexists; split; [vm_compute; reflexivity|];
  split; [vm_compute; reflexivity|];
  split; [vm_compute; discriminate|vm_compute; reflexivity].

(** No variant of a term begins a text that begins with a stem of the
    term followed by a vowel sign, when the term has another code unit
    after that stem. *)
Lemma variant_avoids_vowel_form (stem tail v t : str) (c x : Z) :
  inClass vowelSigns c = false -> In x vowelSigns ->
  In v (generatePhoneticVariants (stem ++ c :: tail)) ->
  isPrefixOf v t = true ->
  isPrefixOf (stem ++ [x]) t = false.
Proof.
  intros Hc Hx Hin Hv. set (term := stem ++ c :: tail) in *.
  assert (Hsame : v = term -> isPrefixOf (stem ++ [x]) t = false).
  { intros ->. now apply (term_avoids_vowel_form stem tail t c x). }
  assert (Hrep : forall p r,
             (exists p0 p' r0 r',
                 p = p0 :: p' /\ r = r0 :: r' /\ p0 <> r0
                 /\ inClass vowelSigns r0 = false) ->
             v = replaceAll term p r ->
             isPrefixOf (stem ++ [x]) t = false).
  { intros p r Hu ->. unfold replaceAll in Hv.
    destruct (replaceAllAux_first (List.length term) p r term)
      as [E|[a [b [rest [Hs E]]]]]; rewrite E in Hv.
    - now apply Hsame.
    - exact (changed_avoids_vowel_form stem tail a p r b rest t c x Hs Hu Hc
               Hx Hv). }
  unfold generatePhoneticVariants in Hin. apply In_uniq in Hin.
  apply in_app_or in Hin as [Hin|Hin];
    [destruct Hin as [<-|[]]; now apply Hsame|].
  do 17 (apply in_app_or in Hin as [Hin|Hin];
         [unfold pushIfIncludes in Hin;
          destruct (includes _ _); [|contradiction];
          destruct Hin as [<-|[]];
          eapply Hrep; [|reflexivity]; first_units| ]).
  destruct (includes _ _); [|contradiction].
  destruct Hin as [<-|[]].
  destruct (replaceAtEnd_first term (u "स्") (u "ः"))
    as [E|[a [b [rest [Hs E]]]]]; rewrite E in Hv.
  - now apply Hsame.
  - apply (changed_avoids_vowel_form stem tail a (u "स्") (u "ः") b rest t c x
             Hs); [first_units|exact Hc|exact Hx|exact Hv].
Qed.

Lemma substr_is_prefix (s v : str) (p n : Z) :
  0 <= p -> substr s p n = v ->
  isPrefixOf v (skipn (Z.to_nat p) s) = true.
Proof.
  intros Hp E. unfold substr, relIndex, range in E.
  replace (p <? 0) with false in E by (symmetry; apply Z.ltb_ge; lia).
  pose proof (len_nonneg s).
  destruct (Z.le_gt_cases p (len s)) as [Hle|Hgt].
  - rewrite (Z.min_l p) in E by lia. rewrite <- E.
    set (r := skipn (Z.to_nat p) s). set (k := Z.to_nat _).
    rewrite <- (firstn_skipn k r) at 2. apply isPrefixOf_app.
  - rewrite (Z.min_r p) in E by lia. unfold len in E.
    rewrite Nat2Z.id, skipn_all, firstn_nil in E. now subst v.
Qed.

(** C6, as the code has it. When the term (normalised) ends in an
    explicit marker (anusvara, candrabindu, visarga, a vowel sign, virama
    or a Vedic sign), [search] returns, and every match it returns is of
    type [exact] and lies where a phonetic variant of the term occurs in
    the text: the text from [position] over [length] code units is the
    variant in [matchedText]. When the term has an occurrence delimited
    by word boundaries, every match is delimited by word boundaries;
    otherwise the matches are plain substring occurrences. And when the
    term is a stem followed by a nasal ending (anusvara, candrabindu or
    ['म्']), no match begins where the text has that stem followed by a
    vowel sign. *)
Theorem precision_matches_are_variant_occurrences {P : Platform}
        (this : Instance) (term text : str) :
  term <> [] -> text <> [] ->
  endsInMarker (normalize term) = true ->
  normalize (normalize term) = normalize term ->
  normalize (normalize text) = normalize text ->
  exists r,
    search this (VString term) (VString text) = Normal r
    /\ (forall m, In m (matches r) ->
          variantOccurrence (generatePhoneticVariants (normalize term))
                            (normalize text) m)
    /\ ((exists p,
            0 <= p
            /\ isPrefixOf (normalize term)
                          (skipn (Z.to_nat p) (normalize text)) = true
            /\ wordDelimited (normalize text) p (len (normalize term))) ->
        forall m, In m (matches r) -> delimitedMatch (normalize text) m)
    /\ (forall stem e x,
          normalize term = stem ++ e ->
          In e nasalEndings -> In x vowelSigns ->
          forall m, In m (matches r) ->
            isPrefixOf (stem ++ [x])
                       (skipn (Z.to_nat (position m)) (normalize text))
            = false).
Proof.
  intros Ht Hx Hm Hnt Hnx. apply endsInMarker_hasEndingMarker in Hm.
  unfold search, truthy.
  rewrite (proj2 (eqb_neq term []) Ht), (proj2 (eqb_neq text []) Hx).
  cbn [negb orb]. unfold searchStrings. rewrite Hm.
  destruct (exactWordSearch_spec this (normalize term) (normalize text))
    as [r [Hr [Hg Hd]]]; [now rewrite Hnt|].
  rewrite Hnt, Hnx in *.
  exists r. split; [exact Hr|]. split; [exact Hg|]. split.
  - intros [p [Hp [Hpre Hdel]]]. apply Hd.
    apply exec_complete with (p := p); try assumption.
    intros E. rewrite E in Hm. discriminate.
  - intros stem e x Es He Hv m Hin.
    destruct (nasalEnding_head e He) as [c [tail [-> Hc]]].
    destruct (Hg m Hin) as [_ [Hvar [Hpos Hsub]]].
    rewrite Es in Hvar.
    apply (variant_avoids_vowel_form stem tail (matchedText m) _ c x Hc Hv
             Hvar).
    exact (substr_is_prefix _ _ _ _ Hpos Hsub).
Qed.

Lemma precision_matches_are_variant_occurrences_witness :
  exists r,
    search (P := Devanagari.runtime) (constructor noOptions true)
           (VString (u "देवं")) (VString (u "स देवं नमति, देवम् एव")) = Normal r
    /\ (forall m, In m (matches r) ->
          variantOccurrence
            (generatePhoneticVariants (Devanagari.nfc (u "देवं")))
            (Devanagari.nfc (u "स देवं नमति, देवम् एव")) m)
    /\ ((exists p,
            0 <= p
            /\ isPrefixOf (Devanagari.nfc (u "देवं"))
                 (skipn (Z.to_nat p)
                        (Devanagari.nfc (u "स देवं नमति, देवम् एव"))) = true
            /\ wordDelimited (Devanagari.nfc (u "स देवं नमति, देवम् एव")) p
                             (len (Devanagari.nfc (u "देवं")))) ->
        forall m, In m (matches r) ->
                  delimitedMatch (Devanagari.nfc (u "स देवं नमति, देवम् एव")) m)
    /\ (forall stem e x,
          Devanagari.nfc (u "देवं") = stem ++ e ->
          In e nasalEndings -> In x vowelSigns ->
          forall m, In m (matches r) ->
            isPrefixOf (stem ++ [x])
                       (skipn (Z.to_nat (position m))
                              (Devanagari.nfc (u "स देवं नमति, देवम् एव")))
            = false).
Proof.
  apply (precision_matches_are_variant_occurrences (P := Devanagari.runtime)
           (constructor noOptions true)
           (u "देवं") (u "स देवं नमति, देवम् एव")).
  - vm_compute. discriminate.
  - vm_compute. discriminate.
  - vm_compute. reflexivity.
  - vm_compute. reflexivity.
  - vm_compute. reflexivity.
Defined.

(** A query that ends in anusvara does not match the same stem with
    another vowel mark: [search("देवं", "देवो गच्छति")] finds nothing,
    while [search("देवं", "स देवं नमति, देवम् एव")] finds both spellings
    of the nasal. *)
Lemma nasal_query_examples :
  (exists r,
      search (P := Devanagari.runtime) (constructor noOptions true)
             (VString (u "देवं")) (VString (u "देवो गच्छति")) = Normal r
      /\ matches r = [])
  /\ (exists r,
         search (P := Devanagari.runtime) (constructor noOptions true)
                (VString (u "देवं")) (VString (u "स देवं नमति, देवम् एव"))
         = Normal r
         /\ map (fun m => (position m, matchedText m)) (matches r)
            = [(2, u "देवं"); (13, u "देवम्")]).
Proof.
  split; eexists; (split; [vm_compute; reflexivity|]); vm_compute; reflexivity.
Qed.

(** C6 as the specification states it fails: [search("देवो", "देवोऽसुरेभ्यो
    बलमददात्")] runs in precision mode and returns the match at
    position 0 of length 4, which is followed by an avagraha, not by a
    word boundary. *)
Lemma precision_match_not_delimited :
  exists r m,
    hasEndingMarker (u "देवो") = true
    /\ search (P := Devanagari.runtime) (constructor noOptions true)
              (VString (u "देवो")) (VString (u "देवोऽसुरेभ्यो बलमददात्"))
       = Normal r
    /\ In m (matches r)
    /\ ~ delimitedMatch (u "देवोऽसुरेभ्यो बलमददात्") m.
Proof.
  eexists. eexists. split; [vm_compute; reflexivity|].
  split; [vm_compute; reflexivity|]. split; [left; reflexivity|].
  unfold delimitedMatch, wordDelimited. cbn [position length].
  intros [_ [H|[c [Hc Hb]]]].
  - vm_compute in H. discriminate.
  - vm_compute in Hc. injection Hc as <-. vm_compute in Hb. discriminate.
Qed.

(** ** The index *)

Lemma mem_In (x : str) (l : list str) : mem x l = true <-> In x l.
Proof.
  unfold mem. rewrite existsb_exists. split.
  - intros [y [Hy E]]. apply eqb_eq in E. now subst.
  - intros H. exists x. split; [exact H|apply eqb_refl].
Qed.

Lemma get_set {V : Type} (o : object V) (k k' : str) (v : V) :
  get (set o k v) k' = if eqb k' k then Some v else get o k'.
Proof.
  induction o as [|[k0 v0] o IH]; cbn [set get].
  - reflexivity.
  - destruct (eqb k k0) eqn:E; cbn [get].
    + apply eqb_eq in E. subst k0. now destruct (eqb k' k).
    + rewrite IH. destruct (eqb k' k0) eqn:E0; [|reflexivity].
      apply eqb_eq in E0. subst k0.
      destruct (eqb k' k) eqn:E1; [|reflexivity].
      apply eqb_eq in E1. subst k'. rewrite eqb_refl in E. discriminate.
Qed.

Lemma In_add (x n : nat) (l : list nat) : In x (add n l) <-> x = n \/ In x l.
Proof.
  unfold add. destruct (existsb (Nat.eqb n) l) eqn:E.
  - split; [auto|]. intros [->|H]; [|exact H].
    apply existsb_exists in E as [y [Hy Ey]]. apply Nat.eqb_eq in Ey. now subst.
  - rewrite in_app_iff. simpl. intuition.
Qed.

Lemma NoDup_add (n : nat) (l : list nat) : NoDup l -> NoDup (add n l).
Proof.
  intros H. unfold add. destruct (existsb (Nat.eqb n) l) eqn:E; [exact H|].
  apply NoDup_app; [exact H|constructor; [easy|constructor]|].
  intros x Hx [E'|[]]. subst x.
  assert (existsb (Nat.eqb n) l = true)
    by (apply existsb_exists; exists n; split; [exact Hx|apply Nat.eqb_refl]).
  congruence.
Qed.

Lemma add_idempotent (n : nat) (l : list nat) : add n (add n l) = add n l.
Proof.
  unfold add at 1.
  replace (existsb (Nat.eqb n) (add n l)) with true; [reflexivity|].
  symmetry. apply existsb_exists. exists n.
  split; [apply In_add; now left|apply Nat.eqb_refl].
Qed.

Lemma get_indexWord (docIndex : nat) (terms : object (list nat))
      (word w : str) :
  get (indexWord docIndex terms word) w
  = if eqb w word then Some (add docIndex (postings terms word))
    else get terms w.
Proof.
  unfold indexWord, has, postings.
  destruct (get terms word) as [docs|] eqn:E.
  - rewrite E. apply get_set.
  - rewrite get_set, eqb_refl. rewrite !get_set.
    destruct (eqb w word); reflexivity.
Qed.

Lemma get_fold_indexWord (docIndex : nat) (words : list str)
      (terms : object (list nat)) (w : str) :
  get (fold_left (indexWord docIndex) words terms) w
  = if mem w words then Some (add docIndex (postings terms w))
    else get terms w.
Proof.
  revert terms. induction words as [|x words IH]; intros terms; [reflexivity|].
  cbn [fold_left]. rewrite IH. unfold mem. cbn [existsb]. fold (mem w words).
  unfold postings at 1. rewrite !get_indexWord.
  destruct (eqb w x) eqn:E; cbn [orb].
  - apply eqb_eq in E. subst x. rewrite add_idempotent.
    now destruct (mem w words).
  - reflexivity.
Qed.

Lemma createIndexFrom_postings (w : str) (docs : list Document.t)
      (start : nat) (index : Index) (i : nat) :
  In i (postings (terms (createIndexFrom start docs index)) w)
  <-> In i (postings (terms index) w)
      \/ (start <= i)%nat
         /\ exists d, nth_error docs (i - start) = Some d
                      /\ In w (extractWords (Document.text d)).
Proof.
  revert start index. induction docs as [|doc docs IH]; intros start index.
  - cbn [createIndexFrom]. split; [auto|]. intros [H|[_ [d [H _]]]]; [exact H|].
    destruct (i - start)%nat; discriminate.
  - cbn [createIndexFrom]. rewrite IH. cbn [terms].
    unfold postings at 1. rewrite get_fold_indexWord.
    destruct (mem w (extractWords (Document.text doc))) eqn:E.
    + rewrite In_add. split.
      * intros [[->|H]|[Hs [d [Hn Hw]]]].
        -- right. split; [lia|]. exists doc. rewrite Nat.sub_diag.
           split; [reflexivity|now apply mem_In].
        -- now left.
        -- right. split; [lia|]. exists d. split; [|exact Hw].
           replace (i - start)%nat with (S (i - S start)) by lia. exact Hn.
      * intros [H|[Hs [d [Hn Hw]]]]; [left; now right|].
        destruct (Nat.eq_dec i start) as [->|Hne]; [left; now left|].
        right. split; [lia|]. exists d. split; [|exact Hw].
        replace (i - start)%nat with (S (i - S start)) in Hn by lia. exact Hn.
    + fold (postings (terms index) w). split.
      * intros [H|[Hs [d [Hn Hw]]]]; [now left|].
        right. split; [lia|]. exists d. split; [|exact Hw].
        replace (i - start)%nat with (S (i - S start)) by lia. exact Hn.
      * intros [H|[Hs [d [Hn Hw]]]]; [now left|].
        destruct (Nat.eq_dec i start) as [->|Hne].
        -- rewrite Nat.sub_diag in Hn. injection Hn as <-.
           apply mem_In in Hw. congruence.
        -- right. split; [lia|]. exists d. split; [|exact Hw].
           replace (i - start)%nat with (S (i - S start)) in Hn by lia. exact Hn.
Qed.

(** What the index built by [createIndex] holds for a word: the ordinals
    of the documents that have the word among their tokens. *)
Lemma createIndex_postings (w : str) (docs : list Document.t) (i : nat) :
  In i (postings (terms (createIndex docs)) w)
  <-> exists d, nth_error docs i = Some d
                /\ In w (extractWords (Document.text d)).
Proof.
  unfold createIndex. rewrite createIndexFrom_postings.
  cbn [terms postings get]. rewrite Nat.sub_0_r. split.
  - intros [[]|[_ H]]. exact H.
  - intros H. right. split; [lia|exact H].
Qed.

Lemma fold_add_In (l acc : list nat) (x : nat) :
  In x (fold_left (fun acc docIdx => add docIdx acc) l acc)
  <-> In x l \/ In x acc.
Proof.
  revert acc. induction l as [|n l IH]; intros acc; cbn [fold_left].
  - simpl. intuition.
  - rewrite IH, In_add. simpl. intuition.
Qed.

Lemma fold_add_NoDup (l acc : list nat) :
  NoDup acc -> NoDup (fold_left (fun acc docIdx => add docIdx acc) l acc).
Proof.
  revert acc. induction l as [|n l IH]; intros acc H; cbn [fold_left];
    [exact H|]. apply IH. now apply NoDup_add.
Qed.

Lemma relevant_fold_In (index : Index) (words : list str) (acc : list nat)
      (i : nat) :
  In i (fold_left (addRelevant index) words acc)
  <-> In i acc
      \/ exists w, In w words /\ In i (postings (terms index) w).
Proof.
  revert acc. induction words as [|x words IH]; intros acc; cbn [fold_left].
  - split; [auto|]. intros [H|[w [[] _]]]. exact H.
  - rewrite IH. clear IH.
    assert (Hx : In i (addRelevant index acc x)
                 <-> In i acc \/ In i (postings (terms index) x)).
    { unfold addRelevant, postings. destruct (get (terms index) x) as [docs|].
      - rewrite fold_add_In. intuition.
      - simpl. intuition. }
    rewrite Hx. split.
    + intros [[H|H]|[w [Hw Hi]]].
      * now left.
      * right. exists x. split; [now left|exact H].
      * right. exists w. split; [now right|exact Hi].
    + intros [H|[w [[->|Hw] Hi]]].
      * left. now left.
      * left. now right.
      * right. exists w. split; assumption.
Qed.

Lemma relevant_fold_NoDup (index : Index) (words : list str)
      (acc : list nat) :
  NoDup acc -> NoDup (fold_left (addRelevant index) words acc).
Proof.
  revert acc. induction words as [|x words IH]; intros acc H; cbn [fold_left];
    [exact H|]. apply IH. unfold addRelevant.
  destruct (get (terms index) x); [now apply fold_add_NoDup|exact H].
Qed.

(** ** searchMultiple *)

Lemma mapM_Normal {A B : Type} (f : A -> completion B) (l : list A)
      (ys : list B) :
  mapM f l = Normal ys ->
  forall y, In y ys <-> exists x, In x l /\ f x = Normal y.
Proof.
  revert ys. induction l as [|x l IH]; intros ys; cbn [mapM].
  - intros H. injection H as <-. intros y. split; [easy|].
    intros [x [[] _]].
  - destruct (f x) as [y0| |] eqn:E; cbn [bind]; try discriminate.
    destruct (mapM f l) as [ys0| |]; cbn [bind]; try discriminate.
    intros H. injection H as <-. intros y. split.
    + intros [<-|Hy].
      * exists x. split; [now left|exact E].
      * apply (IH ys0 eq_refl) in Hy as [x' [Hx' Hf]].
        exists x'. split; [now right|exact Hf].
    + intros [x' [[<-|Hx'] Hf]].
      * left. congruence.
      * right. apply (IH ys0 eq_refl). now exists x'.
Qed.

Lemma searchMultiple_In {P : Platform} (this : Instance) (term : str)
      (docs : list (option Document.t)) (rs : list DocumentResults)
      (r : DocumentResults) :
  searchMultiple this term docs = Normal rs ->
  (In r rs <->
   exists d res,
     In (Some d) docs
     /\ search this (VString term) (VString (Document.text d)) = Normal res
     /\ 0 < count res
     /\ r = resultFor d res).
Proof.
  unfold searchMultiple.
  destruct (mapM (searchDocument this term) docs) as [ys| |] eqn:E;
    cbn [bind]; try discriminate.
  intros H. injection H as <-.
  rewrite filter_In, (mapM_Normal _ _ _ E r). split.
  - intros [[[d|] [Hd Hs]] Hc]; [|discriminate].
    cbn [searchDocument] in Hs.
    destruct (search this (VString term) (VString (Document.text d)))
      as [res| |] eqn:Er; cbn [bind] in Hs; try discriminate.
    injection Hs as <-. exists d, res. cbn [results resultFor] in Hc.
    apply Z.ltb_lt in Hc. repeat split; assumption.
  - intros [d [res [Hd [Hs [Hc ->]]]]]. split.
    + exists (Some d). split; [exact Hd|]. cbn [searchDocument].
      rewrite Hs. reflexivity.
    + cbn [results resultFor]. now apply Z.ltb_lt.
Qed.

(** X29. [searchWithIndex] over the index built from the documents is
    [searchMultiple] over the documents that have at least one token of
    the term among their own tokens, each taken once.
    So, whenever it returns, a document appears in its result exactly
    when it shares a token with the term and [search] finds a match in
    it: a document without such a token is not returned even when a full
    search finds the term inside one of its words. *)
Theorem searchWithIndex_searches_documents_sharing_a_token
        {P : Platform} (this : Instance) (term : str)
        (docs : list Document.t) :
  NoDup (relevantDocIndices term (createIndex docs))
  /\ (forall i,
         In i (relevantDocIndices term (createIndex docs))
         <-> exists d, nth_error docs i = Some d /\ sharesToken term d)
  /\ searchWithIndex this term (createIndex docs) docs
     = searchMultiple this term
         (map (fun i => nth_error docs i)
              (relevantDocIndices term (createIndex docs)))
  /\ (forall rs,
         searchWithIndex this term (createIndex docs) docs = Normal rs ->
         forall r,
           In r rs <->
           exists d res,
             In d docs
             /\ sharesToken term d
             /\ search this (VString term) (VString (Document.text d))
                = Normal res
             /\ 0 < count res
             /\ r = resultFor d res).
Proof.
  assert (Hidx : forall i,
             In i (relevantDocIndices term (createIndex docs))
             <-> exists d, nth_error docs i = Some d /\ sharesToken term d).
  { intros i. unfold relevantDocIndices.
    rewrite (relevant_fold_In (createIndex docs)). split.
    - intros [[]|[w [Hw Hi]]]. apply createIndex_postings in Hi as [d [Hd Hin]].
      exists d. split; [exact Hd|]. now exists w.
    - intros [d [Hd [w [Hw Hin]]]]. right. exists w. split; [exact Hw|].
      apply createIndex_postings. now exists d. }
  split; [apply relevant_fold_NoDup; constructor|].
  split; [exact Hidx|]. split; [reflexivity|].
  intros rs Hrs r. unfold searchWithIndex in Hrs.
  rewrite (searchMultiple_In this term _ rs r Hrs). split.
  - intros [d [res [Hd [Hs [Hc ->]]]]].
    apply in_map_iff in Hd as [i [Hn Hi]].
    apply Hidx in Hi as [d' [Hn' Hsh]].
    assert (d' = d) by congruence. subst d'.
    exists d, res. split; [eapply nth_error_In; eauto|]. auto.
  - intros [d [res [Hd [Hsh [Hs [Hc ->]]]]]].
    apply In_nth_error in Hd as [i Hn].
    exists d, res. split; [|auto].
    apply in_map_iff. exists i. split; [exact Hn|].
    apply Hidx. now exists d.
Qed.

(** C5 (the code departs from the specification), which says that every
    document in which the full search finds a match is also returned by
    the search through the index, and from the README, whose example
    builds the index of its three documents and searches it for
    ["ब्रह्म"], ["जिज्ञासा"] and ["शास्त्र"]. None of the three is a whole
    word of a document: [searchWithIndex] returns nothing for each of
    them, while [searchMultiple] finds each once, in document 1, 1
    and 3. *)
Theorem searchWithIndex_misses_what_searchMultiple_finds :
  (searchWithIndex (P := Devanagari.runtime) (constructor noOptions true)
                   (u "ब्रह्म") (createIndex readmeDocuments) readmeDocuments
   = Normal []
   /\ exists r,
        searchMultiple (P := Devanagari.runtime) (constructor noOptions true)
                       (u "ब्रह्म") (map Some readmeDocuments) = Normal [r]
        /\ id r = u "1" /\ count (results r) = 1)
  /\ (searchWithIndex (P := Devanagari.runtime) (constructor noOptions true)
                      (u "जिज्ञासा") (createIndex readmeDocuments)
                      readmeDocuments
      = Normal []
      /\ exists r,
           searchMultiple (P := Devanagari.runtime)
                          (constructor noOptions true)
                          (u "जिज्ञासा") (map Some readmeDocuments)
           = Normal [r]
           /\ id r = u "1" /\ count (results r) = 1)
  /\ (searchWithIndex (P := Devanagari.runtime) (constructor noOptions true)
                      (u "शास्त्र") (createIndex readmeDocuments)
                      readmeDocuments
      = Normal []
      /\ exists r,
           searchMultiple (P := Devanagari.runtime)
                          (constructor noOptions true)
                          (u "शास्त्र") (map Some readmeDocuments)
           = Normal [r]
           /\ id r = u "3" /\ count (results r) = 1).
Proof.
  repeat split;
    try (vm_compute; reflexivity);
    eexists; (split; [vm_compute; reflexivity|]);
    split; vm_compute; reflexivity.
Qed.

(** ** Order and distinctness of the matches *)

Lemma insertSorted_byPosition (x : Match) (l : list Match) :
  StronglySorted byPositionLe l ->
  StronglySorted byPositionLe (insertSorted byPosition x l).
Proof.
  induction l as [|y l IH]; intros Hs; cbn [insertSorted].
  - constructor; constructor.
  - apply StronglySorted_inv in Hs as [Hs Hy].
    destruct (byPosition x y <=? 0) eqn:E.
    + apply Z.leb_le in E. unfold byPosition in E.
      constructor; [constructor; assumption|].
      constructor; [unfold byPositionLe; lia|].
      eapply Forall_impl; [|exact Hy]. unfold byPositionLe. intros; lia.
    + apply Z.leb_gt in E. unfold byPosition in E.
      constructor; [now apply IH|].
      apply (Permutation_Forall (insertSorted_perm byPosition x l)).
      constructor; [unfold byPositionLe; lia|exact Hy].
Qed.

Lemma sortBy_byPosition (l : list Match) :
  StronglySorted byPositionLe (sortBy byPosition l).
Proof.
  induction l as [|x l IH]; cbn [sortBy]; [constructor|].
  now apply insertSorted_byPosition.
Qed.

Lemma StronglySorted_firstn {A : Type} (R : A -> A -> Prop) (n : nat)
      (l : list A) :
  StronglySorted R l -> StronglySorted R (firstn n l).
Proof.
  revert n. induction l as [|x l IH]; intros [|n] Hs; cbn [firstn];
    try constructor.
  - apply IH. now apply StronglySorted_inv in Hs.
  - apply StronglySorted_inv in Hs as [_ Hx].
    rewrite Forall_forall in *. intros y Hy. apply Hx.
    rewrite <- (firstn_skipn n l). apply in_or_app. now left.
Qed.

Lemma NoDup_firstn {A : Type} (n : nat) (l : list A) :
  NoDup l -> NoDup (firstn n l).
Proof.
  intros H. rewrite <- (firstn_skipn n l) in H.
  now apply NoDup_app_remove_r in H.
Qed.

Lemma sliceArray_from_start {A : Type} (l : list A) (n : Z) :
  exists k, sliceArray l 0 n = firstn k l
            /\ (0 < n -> Z.of_nat k <= n).
Proof.
  unfold sliceArray. cbv zeta.
  assert (E : relIndex (Z.of_nat (List.length l)) 0 = 0).
  { unfold relIndex. cbn [Z.ltb Z.compare]. lia. }
  rewrite E. cbn [Z.to_nat skipn].
  eexists. split; [reflexivity|]. intros Hn. unfold relIndex.
  replace (n <? 0) with false by (symmetry; apply Z.ltb_ge; lia). lia.
Qed.

Lemma NoDup_spans_of_positions (l : list Match) :
  NoDup (map position l) -> NoDup (map span l).
Proof.
  induction l as [|m l IH]; cbn [map]; intros H; [constructor|].
  inversion H as [|? ? Hn Hd]; subst. constructor; [|now apply IH].
  intros Hin. apply Hn. apply in_map_iff in Hin as [m' [E Hm']].
  apply in_map_iff. exists m'. split; [|exact Hm'].
  unfold span in E. congruence.
Qed.

Lemma samePosition_false (p : Z) (ms : list Match) :
  samePosition p ms = false -> ~ In p (map position ms).
Proof.
  unfold samePosition. intros H Hin.
  apply in_map_iff in Hin as [m [E Hm]].
  assert (existsb (fun m => position m =? p) ms = true)
    by (apply existsb_exists; exists m; split; [exact Hm|now apply Z.eqb_eq]).
  congruence.
Qed.

Lemma isDuplicate_false (m : Match) (ms : list Match) :
  isDuplicate m ms = false -> ~ In (span m) (map span ms).
Proof.
  unfold isDuplicate. intros H Hin.
  apply in_map_iff in Hin as [m' [E Hm']]. unfold span in E.
  injection E as E1 E2.
  assert (existsb (fun e => (position e =? position m)
                            && (length e =? length m)) ms = true).
  { apply existsb_exists. exists m'. split; [exact Hm'|].
    apply andb_true_iff. split; now apply Z.eqb_eq. }
  congruence.
Qed.

Lemma NoDup_snoc {A : Type} (l : list A) (x : A) :
  NoDup l -> ~ In x l -> NoDup (l ++ [x]).
Proof.
  intros H Hx. apply NoDup_app; [exact H|constructor; [easy|constructor]|].
  intros a Ha [E|[]]. subst a. contradiction.
Qed.

Lemma pushUnlessDuplicate_NoDup (ms : list Match) (m : Match) :
  NoDup (map span ms) -> NoDup (map span (pushUnlessDuplicate ms m)).
Proof.
  intros H. unfold pushUnlessDuplicate.
  destruct (isDuplicate m ms) eqn:E; [exact H|].
  rewrite map_app. apply NoDup_snoc; [exact H|now apply isDuplicate_false].
Qed.

Lemma fold_pushUnlessDuplicate_NoDup (new ms : list Match) :
  NoDup (map span ms) ->
  NoDup (map span (fold_left pushUnlessDuplicate new ms)).
Proof.
  revert ms. induction new as [|m new IH]; intros ms H; cbn [fold_left];
    [exact H|]. apply IH. now apply pushUnlessDuplicate_NoDup.
Qed.

(** An invariant of the state that [forEach] threads. *)
Lemma forEach_invariant {A S : Type} (I : S -> Prop)
      (f : S -> A -> completion S) (l : list A) (s s' : S) :
  (forall s x s', f s x = Normal s' -> I s -> I s') ->
  I s -> forEach l f s = Normal s' -> I s'.
Proof.
  intros Hf. revert s. induction l as [|x l IH]; intros s Hi; cbn [forEach].
  - intros H. injection H as <-. exact Hi.
  - destruct (f s x) as [s1| |] eqn:E; cbn [bind]; try discriminate.
    apply IH. now apply (Hf s x s1).
Qed.

Section Distinct.
Context {P : Platform}.
Variable this : Instance.

Lemma execLoop_positions (fuel : nat) (searchTerm text v : str)
      (lastIndex : Z) (ms out : list Match) :
  execLoop this fuel searchTerm text v lastIndex ms = Normal out ->
  NoDup (map position ms) -> NoDup (map position out).
Proof.
  revert lastIndex ms. induction fuel as [|fuel IH]; intros lastIndex ms;
    cbn [execLoop]; [discriminate|].
  destruct (exec v text lastIndex) as [[index [lead total]]|].
  - cbv zeta.
    match goal with
    | |- context [samePosition ?p ms] => destruct (samePosition p ms) eqn:E
    end; intros H Hn.
    + now apply (IH _ _ H).
    + apply (IH _ _ H). rewrite map_app. apply NoDup_snoc; [exact Hn|].
      now apply samePosition_false.
  - intros H Hn. now injection H as <-.
Qed.

Lemma fallbackLoop_positions (fuel : nat) (searchTerm text v : str)
      (index : Z) (ms out : list Match) :
  fallbackLoop this fuel searchTerm text v index ms = Normal out ->
  NoDup (map position ms) -> NoDup (map position out).
Proof.
  revert index ms. induction fuel as [|fuel IH]; intros index ms;
    cbn [fallbackLoop]; [discriminate|].
  destruct (indexOf text v index =? -1).
  - intros H Hn. now injection H as <-.
  - destruct (samePosition (indexOf text v index) ms) eqn:E; intros H Hn.
    + now apply (IH _ _ H).
    + apply (IH _ _ H). rewrite map_app. apply NoDup_snoc; [exact Hn|].
      now apply samePosition_false.
Qed.

Lemma searchVariant_positions (searchTerm text v : str) (ms out : list Match) :
  searchVariant this searchTerm text ms v = Normal out ->
  NoDup (map position ms) -> NoDup (map position out).
Proof.
  unfold searchVariant.
  destruct (execLoop this (loopFuel text) searchTerm text v 0 ms) as [ms1| |]
    eqn:E; cbn [bind]; try discriminate.
  intros H Hn. pose proof (execLoop_positions _ _ _ _ _ _ _ E Hn) as Hn1.
  destruct ms1 as [|m ms1].
  - now apply (fallbackLoop_positions _ _ _ _ _ _ _ H).
  - now injection H as <-.
Qed.

(** Whenever [exactWordSearch] returns, its matches are in the order of
    their positions and no two of them start at the same position. *)
Lemma exactWordSearch_sorted_distinct (searchTerm text : str) (r : Results) :
  exactWordSearch this searchTerm text = Normal r ->
  StronglySorted byPositionLe (matches r)
  /\ NoDup (map position (matches r)).
Proof.
  unfold exactWordSearch.
  destruct (eqb searchTerm [] || eqb text []).
  { intros H. injection H as <-. split; constructor. }
  destruct (forEach _ _ _) as [ms| |] eqn:E; cbn [bind]; try discriminate.
  intros H. injection H as <-. cbn [matches]. split.
  - apply sortBy_byPosition.
  - apply (Permutation_NoDup
             (Permutation_map position (sortBy_perm byPosition ms))).
    refine (forEach_invariant (fun ms => NoDup (map position ms))
                              _ _ _ _ _ _ E); [|constructor].
    intros s x s'. apply searchVariant_positions.
Qed.

End Distinct.

Lemma indexOf_empty_pattern (s : str) (from : Z) : indexOf s [] from <> -1.
Proof.
  unfold indexOf, clamp.
  destruct (skipn (Z.to_nat (Z.max 0 (Z.min from (len s)))) s);
    cbn [indexOfAux isPrefixOf]; lia.
Qed.

Lemma indexOf_here (s p : str) (i : Z) :
  0 <= i <= len s ->
  isPrefixOf p (skipn (Z.to_nat i) s) = true ->
  indexOf s p i = i.
Proof.
  intros Hi H. unfold indexOf, clamp.
  replace (Z.max 0 (Z.min i (len s))) with i by lia.
  destruct (skipn (Z.to_nat i) s); cbn [indexOfAux]; now rewrite H.
Qed.

Section DirectSearchDistinct.
Context {P : Platform}.
Variable this : Instance.
Variables term text searchStr textStr : str.
Variable mark : bool.

(** With an empty [searchStr] every [indexOf] succeeds: the loop never
    ends. *)
Lemma directLoop_empty_pattern (fuel : nat) (pos : Z) (ms : list Match) :
  searchStr = [] ->
  directLoop this fuel term text searchStr textStr mark pos ms = Diverges.
Proof.
  intros ->. revert pos ms. induction fuel as [|fuel IH]; intros pos ms;
    cbn [directLoop]; [reflexivity|].
  destruct (indexOf textStr [] pos =? -1) eqn:E; [|apply IH].
  apply Z.eqb_eq in E. now elim (indexOf_empty_pattern textStr pos).
Qed.

(** With an empty term the loop does not advance: once it has found an
    occurrence it finds it again, for ever. *)
Lemma directLoop_stuck (fuel : nat) (i : Z) (ms : list Match) :
  term = [] ->
  0 <= i <= len textStr ->
  isPrefixOf searchStr (skipn (Z.to_nat i) textStr) = true ->
  directLoop this fuel term text searchStr textStr mark i ms = Diverges.
Proof.
  intros Ht Hi Hp. revert ms. induction fuel as [|fuel IH]; intros ms;
    cbn [directLoop]; [reflexivity|].
  rewrite (indexOf_here textStr searchStr i Hi Hp).
  replace (i =? -1) with false by (symmetry; apply Z.eqb_neq; lia).
  replace (i + len term) with i by (rewrite Ht; unfold len; simpl; lia).
  apply IH.
Qed.

(** Whenever the loop ends, the positions of the matches it has added
    increase strictly. *)
Lemma directLoop_positions (fuel : nat) (pos : Z) (ms out : list Match) :
  directLoop this fuel term text searchStr textStr mark pos ms = Normal out ->
  0 <= pos ->
  (forall m, In m ms -> position m < pos) ->
  NoDup (map position ms) ->
  NoDup (map position out).
Proof.
  revert pos ms. induction fuel as [|fuel IH]; intros pos ms;
    cbn [directLoop]; [discriminate|].
  destruct (indexOf textStr searchStr pos =? -1) eqn:E.
  - intros H _ _ Hn. now injection H as <-.
  - apply Z.eqb_neq in E. intros H Hp Hlt Hn.
    destruct (indexOf_found textStr searchStr pos Hp E) as [H1 [H2 H3]].
    set (i := indexOf textStr searchStr pos) in *.
    assert (Hs : searchStr = [] \/ searchStr <> [])
      by (destruct searchStr; [now left|right; discriminate]).
    destruct Hs as [Hs|Hs].
    { rewrite directLoop_empty_pattern in H by exact Hs. discriminate. }
    assert (Ht : term = [] \/ term <> [])
      by (destruct term; [now left|right; discriminate]).
    pose proof (prefix_at_bound _ _ _ (proj1 H2) H3 Hs) as Hb.
    destruct Ht as [Ht|Ht].
    { replace (i + len term) with i in H
        by (rewrite Ht; unfold len; simpl; lia).
      rewrite directLoop_stuck in H; [discriminate|exact Ht|lia|exact H3]. }
    assert (0 < len searchStr)
      by (destruct searchStr; [contradiction|unfold len; simpl; lia]).
    assert (0 < len term)
      by (destruct term; [contradiction|unfold len; simpl; lia]).
    apply (IH _ _ H); [lia| |].
    + intros m Hm. apply in_app_or in Hm as [Hm|[<-|[]]].
      * specialize (Hlt m Hm). lia.
      * cbn [position directMatch]. lia.
    + rewrite map_app. apply NoDup_snoc; [exact Hn|].
      cbn [map position directMatch]. intros Hin.
      apply in_map_iff in Hin as [m [Em Hm]]. specialize (Hlt m Hm). lia.
Qed.

End DirectSearchDistinct.

Section SearchOrder.
Context {P : Platform}.
Variable this : Instance.

Lemma directSearch_positions (term text : str) (ms : list Match) :
  directSearch this term text = Normal ms -> NoDup (map position ms).
Proof.
  unfold directSearch. intros H.
  apply (directLoop_positions _ _ _ _ _ _ _ _ _ _ H); [lia|easy|constructor].
Qed.

(** Whenever [search] returns, its matches are in the order of their
    positions and no two of them have the same position and length; in
    fuzzy mode there are at most [maxResults] of them when that number is
    positive. *)
Lemma search_sorted_distinct (searchTerm text : value) (r : Results) :
  search this searchTerm text = Normal r ->
  StronglySorted byPositionLe (matches r)
  /\ NoDup (map span (matches r))
  /\ (forall term,
         searchTerm = VString term ->
         hasEndingMarker (normalize term) = false ->
         0 < maxResults (config this) ->
         Z.of_nat (List.length (matches r)) <= maxResults (config this)).
Proof.
  unfold search.
  destruct (negb (truthy searchTerm) || negb (truthy text)).
  { intros H. injection H as <-. cbn [matches noResults].
    split; [constructor|]. split; [constructor|]. intros. simpl. lia. }
  destruct searchTerm as [| | | | |term|]; try discriminate.
  destruct text as [| | | | |txt|]; try discriminate.
  unfold searchStrings.
  destruct (hasEndingMarker (normalize term)) eqn:Em.
  - intros H. apply exactWordSearch_sorted_distinct in H as [Hs Hn].
    split; [exact Hs|]. split; [now apply NoDup_spans_of_positions|].
    intros t Et. injection Et as <-. congruence.
  - destruct (directSearch this (normalize term) (normalize txt))
      as [directMatches| |] eqn:Ed; cbn [bind]; try discriminate.
    pose proof (NoDup_spans_of_positions _ (directSearch_positions _ _ _ Ed))
      as Hd.
    set (merged := if enableSandhi (config this) && sandhiRules this
                   then _ else _).
    destruct merged as [ms| |] eqn:Emerged; cbn [bind]; try discriminate.
    assert (Hms : NoDup (map span ms)).
    { unfold merged in Emerged.
      destruct (enableSandhi (config this) && sandhiRules this).
      - destruct (sandhiAwareSearch this (normalize term) (normalize txt))
          as [sandhiMatches| |]; cbn [bind] in Emerged; try discriminate.
        injection Emerged as <-. now apply fold_pushUnlessDuplicate_NoDup.
      - now injection Emerged as <-. }
    intros H. injection H as <-. cbn [matches].
    assert (Hsorted : StronglySorted byPositionLe (sortBy byPosition ms))
      by apply sortBy_byPosition.
    assert (Hnodup : NoDup (map span (sortBy byPosition ms)))
      by (apply (Permutation_NoDup
                   (Permutation_map span (sortBy_perm byPosition ms)));
          exact Hms).
    destruct (maxResults (config this) =? 0) eqn:E0.
    + apply Z.eqb_eq in E0. split; [exact Hsorted|]. split; [exact Hnodup|].
      intros; lia.
    + destruct (sliceArray_from_start (sortBy byPosition ms)
                  (maxResults (config this))) as [k [-> Hk]].
      split; [now apply StronglySorted_firstn|].
      split.
      * rewrite <- firstn_map. now apply NoDup_firstn.
      * intros t _ _ Hpos. rewrite length_firstn. specialize (Hk Hpos). lia.
Qed.

End SearchOrder.

End SearchFacts.

(* ================================================================== *)
(** * Further properties of PratikaIdentifier                          *)
(* ================================================================== *)

Module IdentifierFacts.
Import JS JSFacts PratikaIdentifier Properties PratikaFacts.
Import SearchFacts.

(** ** The vowel before the final [ति] *)

Lemma thirdLast_app (x p : str) :
  (3 <= List.length p)%nat -> thirdLast (x ++ p) = thirdLast p.
Proof.
  unfold thirdLast. intros H. rewrite rev_app_distr.
  apply nth_error_app1. rewrite length_rev. lia.
Qed.

Lemma endsWith_thirdLast (t p : str) (m : Z) :
  endsWith t p = true -> thirdLast p = Some m -> thirdLast t = Some m.
Proof.
  intros H Hm. apply endsWith_inv in H. rewrite H.
  rewrite thirdLast_app; [exact Hm|].
  unfold thirdLast in Hm.
  assert (Hn : nth_error (rev p) 2 <> None) by congruence.
  apply nth_error_Some in Hn. rewrite length_rev in Hn. lia.
Qed.

(** A text whose third code unit from the end is [c] does not end in a
    suffix whose third code unit from the end is another one. *)
Lemma endsWith_other_vowel (t p : str) (c : Z) :
  thirdLast t = Some c ->
  match thirdLast p with
  | Some m => negb (c =? m)
  | None => false
  end = true ->
  endsWith t p = false.
Proof.
  intros Ht Hp. destruct (endsWith t p) eqn:E; [|reflexivity].
  destruct (thirdLast p) as [m|] eqn:Em; [|discriminate].
  rewrite (endsWith_thirdLast t p m E Em) in Ht. injection Ht as ->.
  rewrite Z.eqb_refl in Hp. discriminate.
Qed.

(** A text that passes the first test of [identifyPratika] ends in [ति]
    after one of [ि], [ी], [े], [इ]. *)
Lemma first_test_inv (t : str) :
  negb (endsWithMatraTi t) && negb (endsWithSpaceIti t)
  && negb (isPlainWordIti t) = false ->
  exists w c, t = w ++ c :: u "ति" /\ inClass (u "िीेइ") c = true.
Proof.
  intros H. destruct (endsWithMatraTi t) eqn:E1.
  - unfold endsWithMatraTi, lastN in E1.
    rewrite <- (firstn_skipn (List.length t - 3) t).
    destruct (skipn (List.length t - 3) t) as [|c [|t1 [|t2 [|? ?]]]];
      try discriminate.
    apply andb_true_iff in E1 as [Hc Hti]. apply eqb_eq in Hti.
    exists (firstn (List.length t - 3) t), c. split; [now rewrite Hti|].
    apply inClass_In in Hc. apply inClass_In.
    vm_compute in Hc |- *. intuition.
  - destruct (endsWithSpaceIti t) eqn:E2.
    + apply endsWithSpaceIti_inv in E2 as [p [w [_ Ht]]].
      exists (p ++ [w]), 2311. split; [|vm_compute; reflexivity].
      rewrite Ht. rewrite <- app_assoc. ev (u "इति"). ev (u "ति").
      reflexivity.
    + destruct (isPlainWordIti t) eqn:E3; [|discriminate].
      unfold isPlainWordIti in E3.
      apply andb_true_iff in E3 as [E3 _]. apply andb_true_iff in E3 as [E3 _].
      apply endsWith_inv in E3.
      exists (firstn (List.length t - List.length (u "इति")) t), 2311.
      split; [|vm_compute; reflexivity].
      rewrite E3 at 1. ev (u "इति"). ev (u "ति"). reflexivity.
Qed.

Lemma analyse_originalText {P : Platform} (t : str) :
  originalText (analyse t) = t.
Proof.
  unfold analyse.
  repeat match goal with
         | |- context [if ?b then _ else _] => destruct b
         end; reflexivity.
Qed.

(** The confidence the cascade assigns. *)
Lemma restore_confidence (t : str) : 60 <= ruleConfidence (restore t) <= 95.
Proof.
  unfold restore, rule.
  repeat match goal with
         | |- context [if ?b then _ else _] => destruct b
         end; cbn [ruleConfidence]; lia.
Qed.

(** X1. A positive answer of [identifyPratika] is given only to a text
    whose trimmed, normalised form ends in [ति] after one of [ि], [ी],
    [े], [इ]: nothing ending in [ुति], [ूति], [ोति], [ौति], [ैति] or in
    a consonant before [ति] is taken for a pratika. *)
Theorem positive_answer_ends_in_iti {P : Platform} (text : value)
        (r : PratikaAnalysis) :
  identifyPratika text = Some r ->
  isPratika r = true ->
  exists w c, originalText r = w ++ c :: u "ति" /\ In c (u "िीेइ").
Proof.
  unfold identifyPratika. intros Hr Hp.
  destruct (negb (truthy text) || negb (isString text)); [discriminate|].
  destruct text as [| | | | |text|]; try discriminate.
  injection Hr as <-. rewrite analyse_originalText.
  set (t := normalize (trim text)) in *. clearbody t.
  destruct (negb (endsWithMatraTi t) && negb (endsWithSpaceIti t)
            && negb (isPlainWordIti t)) eqn:E.
  - unfold analyse in Hp. rewrite E in Hp. discriminate.
  - destruct (first_test_inv t E) as [w [c [Ht Hc]]].
    exists w, c. split; [exact Ht|]. now apply inClass_In.
Qed.

Lemma positive_answer_ends_in_iti_witness :
  exists w c,
    originalText (analyse (P := Devanagari.runtime) (u "रामेति"))
    = w ++ c :: u "ति"
    /\ In c (u "िीेइ").
Proof.
  apply (positive_answer_ends_in_iti (P := Devanagari.runtime)
           (VString (u "रामेति"))).
  - vm_compute. reflexivity.
  - vm_compute. reflexivity.
Defined.

(** X2. Every answer of [identifyPratika] has one of two shapes. A
    negative answer has no stem, no pattern, no ending and confidence 0.
    A positive answer has a stem, a pattern and an ending, and a
    confidence between 60 and 95. *)
Theorem answer_is_negative_or_complete {P : Platform} (text : value)
        (r : PratikaAnalysis) :
  identifyPratika text = Some r ->
  (isPratika r = false /\ stem r = None /\ pattern r = None
   /\ itiEnding r = None /\ confidence r = 0)
  \/ (isPratika r = true
      /\ (exists s, stem r = Some s)
      /\ (exists p, pattern r = Some p)
      /\ (exists e, itiEnding r = Some e)
      /\ 60 <= confidence r <= 95).
Proof.
  unfold identifyPratika. intros Hr.
  destruct (negb (truthy text) || negb (isString text)); [discriminate|].
  destruct text as [| | | | |text|]; try discriminate.
  injection Hr as <-.
  set (t := normalize (trim text)). clearbody t.
  unfold analyse.
  repeat match goal with
         | |- context [if ?b then _ else _] => destruct b
         end;
    cbn [notPratika isPratika stem pattern itiEnding confidence];
    first [ left; repeat split; reflexivity
          | right; repeat split; eauto using restore_confidence; try lia;
            apply restore_confidence ].
Qed.

Lemma answer_is_negative_or_complete_witness :
  (isPratika (analyse (P := Devanagari.runtime) (u "रामेति")) = false
   /\ stem (analyse (P := Devanagari.runtime) (u "रामेति")) = None
   /\ pattern (analyse (P := Devanagari.runtime) (u "रामेति")) = None
   /\ itiEnding (analyse (P := Devanagari.runtime) (u "रामेति")) = None
   /\ confidence (analyse (P := Devanagari.runtime) (u "रामेति")) = 0)
  \/ (isPratika (analyse (P := Devanagari.runtime) (u "रामेति")) = true
      /\ (exists s,
             stem (analyse (P := Devanagari.runtime) (u "रामेति")) = Some s)
      /\ (exists p,
             pattern (analyse (P := Devanagari.runtime) (u "रामेति")) = Some p)
      /\ (exists e,
             itiEnding (analyse (P := Devanagari.runtime) (u "रामेति"))
             = Some e)
      /\ 60 <= confidence (analyse (P := Devanagari.runtime) (u "रामेति"))
         <= 95).
Proof.
  apply (answer_is_negative_or_complete (P := Devanagari.runtime)
           (VString (u "रामेति"))).
  vm_compute. reflexivity.
Defined.

Lemma endsWith_suffix (t p q : str) :
  endsWith t p = true -> endsWith p q = true -> endsWith t q = true.
Proof.
  intros H1 H2. apply endsWith_inv in H1. apply endsWith_inv in H2.
  rewrite H1, H2, app_assoc. apply endsWith_self.
Qed.

(** The rules the cascade cannot reach: those whose suffix ends in the
    suffix of an earlier rule, and those whose suffix the first test of
    [identifyPratika] has turned away. *)
Lemma restore_reaches (t : str) (c : Z) :
  thirdLast t = Some c ->
  inClass (u "िीेइ") c = true ->
  mem (rulePattern (restore t)) shadowedRules = false.
Proof.
  intros Ht Hc. unfold restore.
  repeat match goal with
         | |- context [if endsWith t ?p then _ else _] =>
           let E := fresh "E" in destruct (endsWith t p) eqn:E
         end;
    repeat match goal with
           | |- context [if ?b then _ else _] => destruct b
           end;
    unfold rule; cbn [rulePattern];
    try (vm_compute; reflexivity); exfalso;
    first
      [ match goal with
        | H1 : endsWith t ?q = false, H2 : endsWith t ?p = true |- _ =>
          rewrite (endsWith_suffix t p q H2 ltac:(vm_compute; reflexivity))
            in H1;
          discriminate H1
        end
      | match goal with
        | H2 : endsWith t ?p = true |- _ =>
          rewrite (endsWith_other_vowel t p c Ht) in H2;
          [ discriminate H2 | ]
        end;
        apply inClass_In in Hc; vm_compute in Hc;
        repeat (destruct Hc as [Hc|Hc]; [subst c; vm_compute; reflexivity|]);
        contradiction ].
Qed.


(** X3. Fifteen rules of the cascade are never the one reported. The
    suffixes of [yebhyariti], [ebhyariti], [bhyaamiti], [aanaamiti],
    [naamiti], [yaamiti], [yaarिति], [oriti], [airiti] and [yeti] end in
    the suffix of a rule tested before them ([रिति], [मिति], [ेति]); the
    texts of [oti-visarga], [oti], [ooti], [aiti] and [auti] do not pass
    the first test. *)
Theorem shadowed_rules_are_never_reported {P : Platform} (text : value)
        (r : PratikaAnalysis) (p : str) :
  identifyPratika text = Some r ->
  pattern r = Some p ->
  ~ In p shadowedRules.
Proof.
  unfold identifyPratika. intros Hr Hp Hin.
  destruct (negb (truthy text) || negb (isString text)); [discriminate|].
  destruct text as [| | | | |text|]; try discriminate.
  injection Hr as <-.
  set (t := normalize (trim text)) in *. clearbody t.
  unfold analyse in Hp.
  destruct (negb (endsWithMatraTi t) && negb (endsWithSpaceIti t)
            && negb (isPlainWordIti t)) eqn:E; [discriminate|].
  destruct (first_test_inv t E) as [w [c [Ht Hc]]].
  destruct (endsWithSpaceIti t).
  - destruct (_ || _); [discriminate|].
    injection Hp as <-. vm_compute in Hin.
    repeat (destruct Hin as [Hin|Hin]; [discriminate|]). contradiction.
  - destruct (len (normalize (working (restore t))) <? 2); [discriminate|].
    injection Hp as <-. apply mem_In in Hin.
    rewrite (restore_reaches t c) in Hin; [discriminate| |exact Hc].
    rewrite Ht. change (w ++ c :: u "ति") with (w ++ [c] ++ u "ति").
    rewrite thirdLast_app by (vm_compute; lia). reflexivity.
Qed.

Lemma shadowed_rules_are_never_reported_witness :
  ~ In (u "eti") shadowedRules.
Proof.
  apply (shadowed_rules_are_never_reported (P := Devanagari.runtime)
           (VString (u "रामेति"))
           (analyse (P := Devanagari.runtime) (u "रामेति"))).
  - vm_compute. reflexivity.
  - vm_compute. reflexivity.
Defined.

(** X4. [isPratika(text)] is true exactly when [extractPratikaStem(text)]
    returns a stem. *)
Theorem isPratika_iff_stem_extracted {P : Platform} (text : value) :
  isPratikaText text = true <-> exists s, extractPratikaStem text = Some s.
Proof.
  unfold isPratikaText, extractPratikaStem, identifyPratika.
  destruct (negb (truthy text) || negb (isString text));
    [split; [discriminate|intros [s H]; discriminate]|].
  destruct text as [| | | | |text|];
    try (split; [discriminate|intros [s H]; discriminate]).
  set (t := normalize (trim text)). clearbody t.
  unfold analyse.
  repeat match goal with
         | |- context [if ?b then _ else _] =>
           lazymatch b with
           | isPratika _ => fail
           | _ => destruct b
           end
         end;
    cbn [notPratika isPratika stem];
    (split; [ intros H; first [discriminate H | eexists; reflexivity]
            | intros [s H]; first [discriminate H | reflexivity] ]).
Qed.

Lemma lastN_snoc_lit (n : nat) (x : str) (c : Z) (s : str) :
  n = S (List.length s) -> lastN n ((x ++ [c]) ++ s) = c :: s.
Proof.
  intros ->. rewrite <- app_assoc. rewrite lastN_app by (simpl; lia).
  apply (lastN_all (c :: s)).
Qed.

(** X5. A word followed by white space and [इति] is not a pratika when
    the word ends in a vowel sign, visarga, anusvara or candrabindu. *)
Theorem space_separated_iti_after_vowel_sign {P : Platform}
        (text word : str) (c : Z) :
  text <> [] ->
  normalize (trim text) = word ++ u " इति" ->
  trim word = word ->
  lastChar word = Some c ->
  In c (u "ािीुूृॄॢॣेैोौ" ++ u "ःंँ") ->
  identifyPratika (VString text)
  = Some (notPratika (word ++ u " इति")
            (u "Space-separated इति with explicit vowel/visarga is not a pratika")).
Proof.
  intros Hne Ht Hw Hl Hc.
  unfold identifyPratika, truthy, isString.
  rewrite (proj2 (eqb_neq text []) Hne). cbn [negb orb]. rewrite Ht.
  f_equal. unfold analyse.
  assert (Hsp : endsWithSpaceIti (word ++ u " इति") = true).
  { unfold endsWithSpaceIti. rewrite lastN_app by (vm_compute; lia).
    vm_compute. reflexivity. }
  rewrite Hsp. rewrite andb_false_r. cbn [negb andb].
  rewrite removeSpaceIti_word
    by (intros c' Hc'; eapply trim_fixed_last; eauto).
  rewrite Hw. unfold lastIn. rewrite Hl.
  apply in_app_or in Hc. destruct Hc as [Hc|Hc]; apply inClass_In in Hc;
    rewrite Hc; [reflexivity|]. now rewrite orb_true_r.
Qed.

Lemma space_separated_iti_after_vowel_sign_witness :
  identifyPratika (P := Devanagari.runtime) (VString (u "ब्रह्मणे इति"))
  = Some (notPratika (u "ब्रह्मणे" ++ u " इति")
            (u "Space-separated इति with explicit vowel/visarga is not a pratika")).
Proof.
  apply (space_separated_iti_after_vowel_sign (P := Devanagari.runtime)
           (u "ब्रह्मणे इति") (u "ब्रह्मणे") 2375).
  - vm_compute. discriminate.
  - vm_compute. reflexivity.
  - vm_compute. reflexivity.
  - vm_compute. reflexivity.
  - vm_compute. tauto.
Defined.

Lemma sliceFrom_app (x y : str) : sliceFrom (x ++ y) (len x) = y.
Proof.
  unfold sliceFrom, range, relIndex.
  pose proof (len_nonneg x). pose proof (len_nonneg y).
  rewrite len_app.
  replace (len x <? 0) with false by (symmetry; apply Z.ltb_ge; lia).
  rewrite Z.min_l by lia.
  replace (len x + len y - len x) with (len y) by lia.
  unfold len. rewrite !Nat2Z.id. rewrite skipn_app, skipn_all.
  rewrite Nat.sub_diag. simpl. apply firstn_all.
Qed.

(** The word before a fused [इति]: no rule of the cascade applies. *)
Lemma restore_generic (s : str) :
  restore (s ++ u "इति")
  = rule s (u "generic") (u "Generic stem + इति") 60.
Proof.
  assert (Ht : thirdLast (s ++ u "इति") = Some 2311)
    by (rewrite thirdLast_app by (vm_compute; lia); vm_compute; reflexivity).
  unfold restore.
  repeat match goal with
         | |- context [endsWith (s ++ u "इति") ?p] =>
           rewrite (endsWith_other_vowel (s ++ u "इति") p 2311 Ht)
             by (vm_compute; reflexivity)
         end.
  cbv iota.
  replace (-3) with (- len (u "इति")) by (vm_compute; reflexivity).
  rewrite slice_app_all by (vm_compute; discriminate). reflexivity.
Qed.

(** X6. A word without [ि], [ी] and [े], written before [इति] without a
    space, is a pratika by the generic rule: the stem is the word, the
    confidence 60, provided the normalised word has two code units or
    more. *)
Theorem plain_word_before_iti_is_generic {P : Platform} (text s : str) :
  text <> [] ->
  normalize (trim text) = s ++ u "इति" ->
  s <> [] ->
  (forall c, In c s -> ~ In c (u "िीे")) ->
  (forall c, lastChar s = Some c -> isWhiteSpace c = false) ->
  2 <= len (normalize s) ->
  identifyPratika (VString text)
  = Some {| isPratika := true;
            originalText := s ++ u "इति";
            stem := Some (normalize s);
            pattern := Some (u "generic");
            patternDescription := u "Generic stem + इति";
            itiEnding := Some (u "इति");
            confidence := 60 |}.
Proof.
  intros Hne Ht Hs Hplain Hlast Hlen.
  unfold identifyPratika, truthy, isString.
  rewrite (proj2 (eqb_neq text []) Hne). cbn [negb orb]. rewrite Ht.
  f_equal. unfold analyse.
  assert (E1 : endsWithMatraTi (s ++ u "इति") = false).
  { unfold endsWithMatraTi. rewrite lastN_app by (vm_compute; lia).
    vm_compute. reflexivity. }
  assert (E2 : endsWithSpaceIti (s ++ u "इति") = false).
  { unfold endsWithSpaceIti.
    destruct (lastChar_cases s) as [[-> _]|[s' [c [-> E]]]]; [easy|].
    rewrite (lastN_snoc_lit 4 s' c (u "इति")) by (vm_compute; reflexivity).
    ev (u "इति"). rewrite (Hlast c E). reflexivity. }
  assert (E3 : isPlainWordIti (s ++ u "इति") = true).
  { unfold isPlainWordIti. rewrite endsWith_self.
    rewrite length_app.
    replace (List.length s + List.length (u "इति") - 3)%nat
      with (List.length s + 0)%nat by (vm_compute (List.length (u "इति")); lia).
    rewrite firstn_app_2. simpl firstn. rewrite app_nil_r.
    rewrite (proj2 (eqb_neq s []) Hs). cbn [negb andb].
    apply forallb_forall. intros c Hc.
    destruct (inClass (u "िीे") c) eqn:Ec; [|reflexivity].
    apply inClass_In in Ec. now elim (Hplain c Hc). }
  rewrite E1, E2, E3. cbn [negb andb].
  rewrite restore_generic. unfold rule.
  cbn [working rulePattern description ruleConfidence].
  replace (len (normalize s) <? 2) with false
    by (symmetry; apply Z.ltb_ge; lia).
  now rewrite sliceFrom_app.
Qed.

Lemma plain_word_before_iti_is_generic_witness :
  identifyPratika (P := Devanagari.runtime) (VString (u "धर्मइति"))
  = Some {| isPratika := true;
            originalText := u "धर्म" ++ u "इति";
            stem := Some (normalize (Platform := Devanagari.runtime) (u "धर्म"));
            pattern := Some (u "generic");
            patternDescription := u "Generic stem + इति";
            itiEnding := Some (u "इति");
            confidence := 60 |}.
Proof.
  apply (plain_word_before_iti_is_generic (P := Devanagari.runtime)
           (u "धर्मइति") (u "धर्म")).
  - vm_compute. discriminate.
  - vm_compute. reflexivity.
  - vm_compute. discriminate.
  - intros c Hc Hin. vm_compute in Hc, Hin.
    repeat (destruct Hc as [Hc|Hc]; [subst c; intuition discriminate|]).
    contradiction.
  - intros c Hc. vm_compute in Hc. injection Hc as <-. vm_compute. reflexivity.
  - vm_compute. discriminate.
Defined.

(** ** From a stem to its forms before [इति] *)

Lemma sliceFrom_last_length (s : str) :
  (List.length (sliceFrom s (-1)) <= 1)%nat.
Proof.
  unfold sliceFrom, range, relIndex. cbn [Z.ltb Z.compare].
  rewrite length_firstn. pose proof (len_nonneg s). lia.
Qed.

Lemma In_uniqAux_complete (x : str) (l seen : list str) :
  In x l -> mem x seen = false -> In x (uniqAux seen l).
Proof.
  revert seen. induction l as [|y l IH]; intros seen Hin Hseen; [easy|].
  cbn [uniqAux]. destruct (eqb x y) eqn:E.
  - apply eqb_eq in E. subst y. rewrite Hseen. now left.
  - destruct Hin as [->|Hin]; [now rewrite eqb_refl in E|].
    destruct (mem y seen).
    + now apply IH.
    + right. apply IH; [exact Hin|]. cbn [mem existsb]. fold (mem x seen).
      now rewrite E, Hseen.
Qed.

Lemma In_uniq_complete (x : str) (l : list str) : In x l -> In x (uniq l).
Proof. intros H. now apply In_uniqAux_complete. Qed.

(** X7. Every form [generatePratikaVariations] returns is the stem
    followed by one of eight endings, the first form being the stem
    before [इति]. The stem is never shortened: for a stem in [म्] the
    accusative form, with [मिति] in the place of [म्], is not among
    them. *)
Theorem variations_append_to_the_stem (stem : str) :
  (exists rest, generatePratikaVariations stem = (stem ++ u "इति") :: rest)
  /\ Forall (fun v =>
               exists suffix,
                 v = stem ++ suffix
                 /\ In suffix [u "इति"; u "ेति"; u "ीति"; u "वीति"; u "विति";
                               u "ैति"; u "ावीति"; u "ाविति"])
            (generatePratikaVariations stem)
  /\ forall base,
       stem = base ++ u "म्" ->
       ~ In (base ++ u "मिति") (generatePratikaVariations stem).
Proof.
  assert (Hm : eqb (sliceFrom stem (-1)) (u "म्") = false).
  { apply eqb_neq. intros H. pose proof (sliceFrom_last_length stem) as L.
    rewrite H in L. vm_compute in L. lia. }
  assert (Hall : forall v,
             In v (generatePratikaVariations stem) ->
             exists suffix,
               v = stem ++ suffix
               /\ In suffix [u "इति"; u "ेति"; u "ीति"; u "वीति"; u "विति";
                             u "ैति"; u "ावीति"; u "ाविति"]).
  { intros v Hv. unfold generatePratikaVariations in Hv. apply In_uniq in Hv.
    rewrite Hm in Hv. cbn [app] in Hv.
    destruct Hv as [<-|Hv]; [eexists; split; [reflexivity|cbn [In]; tauto]|].
    repeat (apply in_app_or in Hv; destruct Hv as [Hv|Hv]);
      match type of Hv with
      | In _ (if ?b then _ else _) => destruct b
      end;
      cbn [In] in Hv;
      repeat (destruct Hv as [<-|Hv];
              [eexists; split; [reflexivity|cbn [In]; tauto]|]);
      contradiction. }
  split; [apply uniq_head|]. split; [now apply Forall_forall|].
  intros base -> Hin. destruct (Hall _ Hin) as [suffix [E Hs]].
  rewrite <- app_assoc in E. apply app_inv_head in E.
  cbn [In] in Hs.
  repeat (destruct Hs as [<-|Hs]; [vm_compute in E; discriminate E|]).
  contradiction.
Qed.

Lemma endsWith_app_common (s p q : str) :
  endsWith (s ++ q) (p ++ q) = endsWith s p.
Proof.
  destruct (endsWith s p) eqn:E.
  - apply endsWith_inv in E. rewrite E at 1. rewrite <- app_assoc.
    apply endsWith_self.
  - destruct (endsWith (s ++ q) (p ++ q)) eqn:E'; [|reflexivity].
    apply endsWith_inv in E'. rewrite !length_app in E'.
    replace (List.length s + List.length q - (List.length p + List.length q))%nat
      with (List.length s - List.length p)%nat in E' by lia.
    rewrite app_assoc in E'. apply app_inv_tail in E'.
    rewrite firstn_app in E'.
    replace (List.length s - List.length p - List.length s)%nat with 0%nat
      in E' by lia.
    simpl firstn in E'. rewrite app_nil_r in E'.
    rewrite E' in E. rewrite endsWith_self in E. discriminate.
Qed.

(** A text that ends in [s] ends in [p] only when one of the two ends in
    the other. *)
Lemma endsWith_app_neither (x s p : str) :
  endsWith p s = false ->
  endsWith s p = false ->
  endsWith (x ++ s) p = false.
Proof.
  intros Hps Hsp. destruct (endsWith (x ++ s) p) eqn:E; [|reflexivity].
  apply endsWith_inv in E.
  apply app_eq_app in E as [l [[_ E]|[_ E]]].
  - rewrite E, endsWith_self in Hps. discriminate.
  - rewrite E, endsWith_self in Hsp. discriminate.
Qed.

(** Decide the tests of the cascade on [x ++ s] against the literals
    that neither end in [s] nor are an ending of [s]. *)
Ltac decide_other_suffixes x s :=
  repeat match goal with
         | |- context [endsWith (x ++ s) ?p] =>
           rewrite (endsWith_app_neither x s p)
             by (vm_compute; reflexivity)
         end;
  cbv iota.

(** X8. For a stem that ends neither in a vowel nor in [ाय] or [ेण],
    the form [generatePratikaVariations] builds with [ेति] is read back
    by [extractPratikaStem] as the stem. *)
Theorem consonant_stem_round_trip {P : Platform} (s : str) :
  2 <= len s ->
  endsWithVowel s = false ->
  endsWith s (u "ाय") = false ->
  endsWith s (u "ेण") = false ->
  normalize (trim (s ++ u "ेति")) = s ++ u "ेति" ->
  normalize s = s ->
  In (s ++ u "ेति") (generatePratikaVariations s)
  /\ extractPratikaStem (VString (s ++ u "ेति")) = Some s.
Proof.
  intros Hlen Hv Haya Hena Hnorm Hs. split.
  - unfold generatePratikaVariations. apply In_uniq_complete.
    rewrite Hv. cbn [negb]. rewrite !orb_true_r.
    apply in_or_app. right. apply in_or_app. right.
    apply in_or_app. left. now left.
  - unfold extractPratikaStem, identifyPratika, truthy, isString.
    replace (eqb (s ++ u "ेति") []) with false
      by (symmetry; apply eqb_neq; destruct s; discriminate).
    cbn [negb orb]. rewrite Hnorm. unfold analyse.
    assert (E1 : endsWithMatraTi (s ++ u "ेति") = true).
    { unfold endsWithMatraTi. rewrite lastN_app by (vm_compute; lia).
      vm_compute. reflexivity. }
    assert (E2 : endsWithSpaceIti (s ++ u "ेति") = false).
    { unfold endsWithSpaceIti.
      destruct (lastChar_cases s) as [[-> _]|[s' [c [-> E]]]];
        [unfold len in Hlen; simpl in Hlen; lia|].
      rewrite (lastN_snoc_lit 4 s' c (u "ेति")) by (vm_compute; reflexivity).
      ev (u "ेति"). ev (eqb [2375; 2340; 2367] (u "इति")).
      apply andb_false_r. }
    rewrite E1, E2. cbn [negb andb].
    assert (Hr : normalize (working (restore (s ++ u "ेति"))) = s).
    { unfold restore. decide_other_suffixes s (u "ेति").
      replace (u "स्येति") with (u "स्य" ++ u "ेति") by (vm_compute; reflexivity).
      replace (u "ायेति") with (u "ाय" ++ u "ेति") by (vm_compute; reflexivity).
      replace (u "ेणेति") with (u "ेण" ++ u "ेति") by (vm_compute; reflexivity).
      rewrite !endsWith_app_common, Haya, Hena, endsWith_self.
      destruct (endsWith s (u "स्य")) eqn:Esya; unfold rule; cbn [working].
      - apply endsWith_inv in Esya.
        set (x := firstn _ s) in Esya. clearbody x. subst s.
        rewrite <- app_assoc.
        change (-4) with (Z.opp 4).
        rewrite (slice_app_drop x (u "स्य" ++ u "ेति") 4)
          by (vm_compute; intuition congruence).
        rewrite <- app_assoc.
        replace (firstn (Z.to_nat (len (u "स्य" ++ u "ेति") - 4))
                        (u "स्य" ++ u "ेति") ++ u "य")
          with (u "स्य") by (vm_compute; reflexivity).
        exact Hs.
      - replace (-3) with (- len (u "ेति")) by (vm_compute; reflexivity).
        rewrite slice_app_all by (vm_compute; discriminate). exact Hs. }
    rewrite Hr.
    replace (len s <? 2) with false by (symmetry; apply Z.ltb_ge; lia).
    reflexivity.
Qed.

Lemma consonant_stem_round_trip_witness :
  In (u "राम" ++ u "ेति") (generatePratikaVariations (u "राम"))
  /\ extractPratikaStem (P := Devanagari.runtime)
                        (VString (u "राम" ++ u "ेति")) = Some (u "राम").
Proof.
  apply (consonant_stem_round_trip (P := Devanagari.runtime) (u "राम"));
    vm_compute; first [reflexivity | discriminate].
Defined.

(** X9. For a text in [दिति], where a final [त्] has become [द] before
    [इति], [extractSearchableForms] returns the restored stem in [त्]
    and, after it, the same stem in [द्]. *)
Theorem diti_text_gives_both_forms {P : Platform} (text x : str) :
  text <> [] ->
  normalize (trim text) = x ++ u "दिति" ->
  normalize (x ++ u "त्") = x ++ u "त्" ->
  extractSearchableForms (VString text)
  = Normal (Some [Some (x ++ u "त्"); Some (x ++ u "द्")]).
Proof.
  intros Hne Ht Hn.
  unfold extractSearchableForms, identifyPratika, truthy, isString.
  rewrite (proj2 (eqb_neq text []) Hne). cbn [negb orb]. rewrite Ht.
  unfold analyse.
  assert (E1 : endsWithMatraTi (x ++ u "दिति") = true).
  { unfold endsWithMatraTi. rewrite lastN_app by (vm_compute; lia).
    vm_compute. reflexivity. }
  assert (E2 : endsWithSpaceIti (x ++ u "दिति") = false).
  { unfold endsWithSpaceIti. rewrite lastN_app by (vm_compute; lia).
    vm_compute. reflexivity. }
  rewrite E1, E2. cbn [negb andb].
  assert (Hr : restore (x ++ u "दिति")
               = rule (x ++ u "त्") (u "diti") (u "त् + इति → दिति sandhi") 85).
  { unfold restore. decide_other_suffixes x (u "दिति").
    rewrite endsWith_self.
    replace (-4) with (- len (u "दिति")) by (vm_compute; reflexivity).
    rewrite slice_app_all by (vm_compute; discriminate). reflexivity. }
  rewrite Hr. unfold rule. cbn [working rulePattern description ruleConfidence].
  rewrite Hn.
  replace (len (x ++ u "त्") <? 2) with false.
  2:{ symmetry. apply Z.ltb_ge. rewrite len_app.
      pose proof (len_nonneg x). vm_compute (len (u "त्")). lia. }
  cbn [isPratika negb stem]. unfold sandhiForms, patternIs. cbn [pattern].
  ev (eqb (u "diti") (u "diti")). ev (eqb (u "diti") (u "bhiriti-visarga")).
  ev (eqb (u "diti") (u "bhiriti")). ev (eqb (u "diti") (u "riti-visarga")).
  rewrite endsWith_self. cbn [andb app map].
  replace (-2) with (- len (u "त्")) by (vm_compute; reflexivity).
  rewrite slice_app_all by (vm_compute; discriminate). reflexivity.
Qed.

Lemma diti_text_gives_both_forms_witness :
  extractSearchableForms (P := Devanagari.runtime) (VString (u "स्यादिति"))
  = Normal (Some [Some (u "स्या" ++ u "त्"); Some (u "स्या" ++ u "द्")]).
Proof.
  apply (diti_text_gives_both_forms (P := Devanagari.runtime)
           (u "स्यादिति") (u "स्या")).
  - vm_compute. discriminate.
  - vm_compute. reflexivity.
  - vm_compute. reflexivity.
Defined.

End IdentifierFacts.

(* ================================================================== *)
(** * Properties of SanskritSandhiRules                                *)
(* ================================================================== *)

Module SandhiFacts.
Import JS JSFacts SanskritSandhiRules Properties.
Import SearchFacts.
Import IdentifierFacts(endsWith_app_neither).

(** ** The filter on the text of a variation *)

Lemma uniqueByText_spec (l : list Variation) (seen : list str) :
  NoDup (map text (uniqueByText seen l))
  /\ forall v, In v (uniqueByText seen l) ->
               In v l /\ mem (text v) seen = false.
Proof.
  revert seen. induction l as [|v l IH]; intros seen; cbn [uniqueByText].
  - split; [constructor|easy].
  - destruct (mem (text v) seen) eqn:E.
    + destruct (IH seen) as [H1 H2]. split; [exact H1|].
      intros w Hw. destruct (H2 w Hw). split; [now right|assumption].
    + destruct (IH (text v :: seen)) as [H1 H2]. split.
      * cbn [map]. constructor; [|exact H1].
        intros Hin. apply in_map_iff in Hin as [w [Ew Hw]].
        destruct (H2 w Hw) as [_ Hm]. cbn [mem existsb] in Hm.
        rewrite Ew, eqb_refl in Hm. discriminate.
      * intros w [<-|Hw]; [split; [now left|exact E]|].
        destruct (H2 w Hw) as [Hl Hm]. split; [now right|].
        cbn [mem existsb] in Hm. apply orb_false_iff in Hm. apply Hm.
Qed.

Lemma uniqueByText_seen (l : list Variation) (seen : list str) :
  (forall v, In v l -> In (text v) seen) -> uniqueByText seen l = [].
Proof.
  induction l as [|v l IH]; intros H; cbn [uniqueByText]; [reflexivity|].
  rewrite (proj2 (mem_In (text v) seen)) by (apply H; now left).
  apply IH. intros w Hw. apply H. now right.
Qed.

Lemma uniqueByText_app (l1 l2 : list Variation) (seen : list str) :
  (forall v, In v l2 -> In (text v) (seen ++ map text l1)) ->
  uniqueByText seen (l1 ++ l2) = uniqueByText seen l1.
Proof.
  revert seen. induction l1 as [|v l1 IH]; intros seen H.
  - cbn [app]. apply uniqueByText_seen. intros w Hw.
    specialize (H w Hw). now rewrite app_nil_r in H.
  - cbn [app uniqueByText]. destruct (mem (text v) seen) eqn:E.
    + apply IH. intros w Hw. specialize (H w Hw).
      apply in_app_or in H as [H|[H|H]]; apply in_or_app.
      * now left.
      * left. rewrite <- H. now apply mem_In.
      * now right.
    + f_equal. apply IH. intros w Hw. specialize (H w Hw).
      apply in_app_or in H as [H|[H|H]].
      * right. now apply in_or_app; left.
      * now left.
      * right. now apply in_or_app; right.
Qed.

Lemma expandWith_app (prefix term : str) (a b : list SandhiRule) :
  expandWith prefix term (a ++ b)
  = expandWith prefix term a ++ expandWith prefix term b.
Proof. apply flat_map_app. Qed.

Lemma expandWith_texts (p q term : str) (rules : list SandhiRule) :
  map text (expandWith p term rules) = map text (expandWith q term rules).
Proof.
  induction rules as [|r rules IH]; [reflexivity|].
  cbn [expandWith flat_map]. rewrite !map_app. f_equal; [|exact IH].
  destruct (indexOf term (result r) 0 =? -1); reflexivity.
Qed.

(** X10. The variations of a term begin with the term itself, under the
    rule [original], and no two of them have the same text. *)
Theorem variations_begin_with_the_term (term : str) :
  (exists rest,
      generateVariations term
      = {| text := term; variationRule := u "original" |} :: rest)
  /\ NoDup (map text (generateVariations term)).
Proof.
  split.
  - unfold generateVariations. cbn [uniqueByText mem existsb text].
    eexists. reflexivity.
  - apply uniqueByText_spec.
Qed.

(** X11. The third strategy of [generateVariations], the vowel
    combinations, never adds a variation: each text it builds has been
    built by the first strategy, the reversal of the sandhi rules, which
    runs through the same vowel rules first. *)
Theorem vowel_combinations_add_nothing (term : str) :
  generateVariations term
  = uniqueByText []
      ({| text := term; variationRule := u "original" |}
         :: trySplitSandhi term ++ tryEndingVariations term).
Proof.
  unfold generateVariations.
  rewrite app_assoc, app_comm_cons. apply uniqueByText_app.
  intros v Hv. cbn [app map]. right. rewrite map_app. apply in_or_app. left.
  unfold trySplitSandhi. rewrite expandWith_app, map_app.
  apply in_or_app. left.
  rewrite (expandWith_texts (u "reverse-") (u "expand-")).
  now apply in_map.
Qed.

Lemma eqb_app_head (x a b : str) : eqb (x ++ a) (x ++ b) = eqb a b.
Proof.
  induction x as [|c x IH]; [reflexivity|].
  cbn [app eqb]. now rewrite Z.eqb_refl.
Qed.

Lemma replaceAtEnd_app (x p r : str) : replaceAtEnd (x ++ p) p r = x ++ r.
Proof.
  unfold replaceAtEnd. rewrite endsWith_self. rewrite length_app.
  replace (List.length x + List.length p - List.length p)%nat
    with (List.length x + 0)%nat by lia.
  rewrite firstn_app_2. simpl firstn. now rewrite app_nil_r.
Qed.

(** X12. For each entry of the table of endings: a term that ends in the
    ending of the entry gets one variation for each replacement of the
    entry, the term with the replacement in the place of the ending, and
    no other entry applies to it. *)
Theorem ending_variations_replace_the_ending :
  Forall (fun e =>
            forall base,
              tryEndingVariations (base ++ ending e)
              = map (fun v => {| text := base ++ v;
                                 variationRule := endingRule e |})
                    (variations e))
         endingVariations.
Proof.
  unfold endingVariations. repeat constructor; intros base;
    cbn [ending variations endingRule]; unfold tryEndingVariations;
    unfold endingVariations; cbn [flat_map ending variations endingRule];
    repeat match goal with
           | |- context [endsWith (base ++ ?s) ?p] =>
             first [ rewrite (endsWith_app_neither base s p)
                       by (vm_compute; reflexivity)
                   | rewrite (endsWith_self base s) ]
           end;
    cbv iota; cbn [app];
    rewrite !replaceAtEnd_app;
    repeat match goal with
           | |- context [eqb (base ++ ?a) (base ++ ?b)] =>
             rewrite (eqb_app_head base a b); ev (eqb a b)
           end;
    cbv iota; cbn [app map]; reflexivity.
Qed.

Lemma uniqueByText_keeps_texts (l : list Variation) (seen : list str)
      (t : str) :
  In t (map text l) -> In t seen \/ In t (map text (uniqueByText seen l)).
Proof.
  revert seen. induction l as [|v l IH]; intros seen H; [easy|].
  cbn [uniqueByText]. destruct H as [<-|H].
  - destruct (mem (text v) seen) eqn:E; [left; now apply mem_In|].
    right. now left.
  - destruct (mem (text v) seen).
    + now apply IH.
    + destruct (IH (text v :: seen) H) as [[<-|Hs]|Hr].
      * right. now left.
      * now left.
      * right. now right.
Qed.

(** X13. The two visarga rules written with the class [[अइउऋएओ]] are
    applied with the class as a literal string, and the rule that drops
    the visarga has the empty string as its result, which occurs at the
    start of every term: the variations of every term hold the term
    after [ः[अइउऋएओ]]. *)
Theorem class_notation_is_taken_literally (term : str) :
  In (u "ः" ++ u "[अइउऋएओ]" ++ term) (map text (generateVariations term)).
Proof.
  unfold generateVariations.
  destruct (uniqueByText_keeps_texts
              ({| text := term; variationRule := u "original" |}
                 :: trySplitSandhi term ++ tryEndingVariations term
                 ++ tryVowelCombinations term) []
              (u "ः" ++ u "[अइउऋएओ]" ++ term)) as [[]|H]; [|exact H].
  cbn [map]. right. rewrite map_app. apply in_or_app. left.
  unfold trySplitSandhi. rewrite !expandWith_app, !map_app.
  apply in_or_app. right. apply in_or_app. right.
  unfold visargaSandhi, expandWith, mk.
  cbn [flat_map result pattern following rule].
  rewrite !map_app. do 6 (apply in_or_app; right).
  assert (E0 : indexOf term [] 0 = 0).
  { unfold indexOf, clamp. pose proof (len_nonneg term).
    replace (Z.max 0 (Z.min 0 (len term))) with 0 by lia.
    destruct term; reflexivity. }
  rewrite E0. cbn [Z.eqb app map text].
  assert (E1 : substring term 0 0 = []).
  { unfold substring, clamp, range. pose proof (len_nonneg term).
    replace (Z.max 0 (Z.min 0 (len term))) with 0 by lia. reflexivity. }
  assert (E2 : substring term (0 + len []) (len term) = term).
  { unfold substring, clamp, range. pose proof (len_nonneg term).
    cbn [len List.length Z.of_nat Z.add].
    replace (Z.max 0 (Z.min 0 (len term))) with 0 by lia.
    replace (Z.max 0 (Z.min (len term) (len term))) with (len term) by lia.
    rewrite Z.min_l, Z.max_r by lia. rewrite Z.sub_0_r.
    cbn [Z.to_nat skipn]. unfold len. rewrite Nat2Z.id. apply firstn_all. }
  rewrite E1, E2. left. reflexivity.
Qed.

End SandhiFacts.

(* ================================================================== *)
(** * Further properties of SanskritSearch                             *)
(* ================================================================== *)

Module EngineFacts.
Import JS JSFacts SanskritSearch Properties.
Import PratikaFacts(inClass_In).
Import SearchFacts.
Import SandhiFacts(uniqueByText_spec).

(** ** The context of a match *)

Lemma substring_range (s : str) (a b : Z) :
  0 <= a <= b -> b <= len s -> substring s a b = range s a b.
Proof.
  intros Ha Hb. unfold substring, clamp.
  rewrite (Z.min_l a) by lia. rewrite (Z.max_r 0 a) by lia.
  rewrite (Z.min_l b) by lia. rewrite (Z.max_r 0 b) by lia.
  rewrite Z.min_l by lia. now rewrite Z.max_r by lia.
Qed.

Lemma substr_range (s : str) (a n : Z) :
  0 <= a -> 0 <= n -> a + n <= len s -> substr s a n = range s a (a + n).
Proof.
  intros Ha Hn Hl. unfold substr, relIndex.
  replace (a <? 0) with false by (symmetry; apply Z.ltb_ge; lia).
  rewrite (Z.min_l a) by lia. rewrite Z.max_l by lia.
  now rewrite Z.min_l by lia.
Qed.

Lemma range_app (s : str) (a b c : Z) :
  0 <= a <= b -> b <= c -> range s a b ++ range s b c = range s a c.
Proof.
  intros Ha Hb. unfold range.
  replace (Z.to_nat b) with (Z.to_nat (b - a) + Z.to_nat a)%nat by lia.
  rewrite <- skipn_skipn.
  replace (Z.to_nat (c - a)) with (Z.to_nat (b - a) + Z.to_nat (c - b))%nat
    by lia.
  set (r := skipn (Z.to_nat a) s).
  rewrite <- (firstn_skipn (Z.to_nat (b - a)) r) at 3.
  rewrite firstn_app.
  rewrite firstn_firstn.
  replace (Nat.min (Z.to_nat (b - a) + Z.to_nat (c - b)) (Z.to_nat (b - a)))
    with (Z.to_nat (b - a)) by lia.
  f_equal. rewrite length_firstn.
  destruct (Nat.le_gt_cases (Z.to_nat (b - a)) (List.length r)) as [H|H].
  - rewrite Nat.min_l by lia. f_equal. lia.
  - rewrite (skipn_all2 r) by lia. now rewrite !firstn_nil.
Qed.

Lemma len_range_between (s : str) (a b : Z) :
  0 <= a <= b -> b <= len s -> len (range s a b) = b - a.
Proof.
  intros Ha Hb. replace b with (a + (b - a)) at 1 by lia.
  apply len_range; lia.
Qed.

(** X14. The context of a match that lies inside the text, taken with a
    context length that is not negative: [full] is [before], the matched
    characters and [after] put together, and [before] and [after] hold
    the [contextLength] code units on each side of the match, or as many
    as the text has there. *)
Theorem context_surrounds_the_match (this : Instance)
        (text : str) (position length : Z) :
  0 <= position -> 0 <= length -> position + length <= len text ->
  0 <= contextLength (config this) ->
  full (getContext this text position length)
  = before (getContext this text position length)
      ++ match_ (getContext this text position length)
      ++ after (getContext this text position length)
  /\ text
     = range text 0
             (position - len (before (getContext this text position length)))
         ++ full (getContext this text position length)
         ++ range text
              (position + length
               + len (after (getContext this text position length)))
              (len text)
  /\ len (match_ (getContext this text position length)) = length
  /\ len (before (getContext this text position length))
     = Z.min position (contextLength (config this))
  /\ len (after (getContext this text position length))
     = Z.min (len text - (position + length)) (contextLength (config this)).
Proof.
  intros Hp Hl Hb Hc. unfold getContext.
  cbn [full before match_ after].
  set (c := contextLength (config this)) in *.
  set (start := Z.max 0 (position - c)).
  set (end_ := Z.min (len text) (position + length + c)).
  assert (Hs : 0 <= start <= position) by (unfold start; lia).
  assert (He : position + length <= end_ <= len text) by (unfold end_; lia).
  rewrite !substring_range by lia. rewrite substr_range by lia.
  rewrite !len_range_between by lia.
  split; [|split; [|split; [|split]]].
  - rewrite range_app by lia. now rewrite range_app by lia.
  - replace (position - (position - start)) with start by lia.
    replace (position + length + (end_ - (position + length))) with end_ by lia.
    rewrite range_app by lia. rewrite range_app by lia.
    unfold range. rewrite Z.sub_0_r. cbn [Z.to_nat skipn].
    unfold len. rewrite Nat2Z.id. symmetry. apply firstn_all.
  - lia.
  - unfold start. lia.
  - unfold end_. lia.
Qed.

Lemma context_surrounds_the_match_witness :
  full (getContext (constructor noOptions true) (u "स देवं नमति") 2 4)
  = before (getContext (constructor noOptions true) (u "स देवं नमति") 2 4)
      ++ match_ (getContext (constructor noOptions true) (u "स देवं नमति") 2 4)
      ++ after (getContext (constructor noOptions true) (u "स देवं नमति") 2 4).
Proof.
  apply (context_surrounds_the_match
           (constructor noOptions true) (u "स देवं नमति") 2 4);
    vm_compute; discriminate.
Defined.

(** ** Tokens *)

Lemma NoDup_uniqAux (l seen : list str) :
  NoDup (uniqAux seen l)
  /\ forall x, In x (uniqAux seen l) -> mem x seen = false.
Proof.
  revert seen. induction l as [|y l IH]; intros seen; cbn [uniqAux].
  - split; [constructor|easy].
  - destruct (mem y seen) eqn:E; [apply IH|].
    destruct (IH (y :: seen)) as [H1 H2]. split.
    + constructor; [|exact H1]. intros Hin. specialize (H2 y Hin).
      cbn [mem existsb] in H2. now rewrite eqb_refl in H2.
    + intros x [<-|Hx]; [exact E|]. specialize (H2 x Hx).
      cbn [mem existsb] in H2. apply orb_false_iff in H2. apply H2.
Qed.

Lemma NoDup_uniq (l : list str) : NoDup (uniq l).
Proof. apply NoDup_uniqAux. Qed.

Lemma splitRuns_spec (sep : Z -> bool) (s cur w : str) :
  Forall (fun c => sep c = false) cur ->
  In w (splitRuns sep cur s) ->
  w <> []
  /\ Forall (fun c => sep c = false) w
  /\ exists pre post,
      rev cur ++ s = pre ++ w ++ post
      /\ (pre = [] \/ exists pre' c, pre = pre' ++ [c] /\ sep c = true)
      /\ (post = [] \/ exists c post', post = c :: post' /\ sep c = true).
Proof.
  revert cur. induction s as [|c s IH]; intros cur Hcur Hw.
  - cbn [splitRuns] in Hw. destruct cur as [|a cur]; [easy|].
    destruct Hw as [<-|[]]. split.
    + intros H. apply (f_equal (@List.length Z)) in H.
      rewrite length_rev in H. discriminate.
    + split; [now apply Forall_rev|].
      exists [], []. rewrite !app_nil_r. split; [reflexivity|]. split; now left.
  - cbn [splitRuns] in Hw. destruct (sep c) eqn:Ec.
    + assert (Hrest : In w (splitRuns sep [] s) ->
                w <> []
                /\ Forall (fun c => sep c = false) w
                /\ exists pre post,
                    rev cur ++ c :: s = pre ++ w ++ post
                    /\ (pre = []
                        \/ exists pre' c, pre = pre' ++ [c] /\ sep c = true)
                    /\ (post = []
                        \/ exists c post', post = c :: post' /\ sep c = true)).
      { intros H.
        destruct (IH [] (Forall_nil _) H)
          as [H1 [H2 [pre [post [E [Hpre Hpost]]]]]].
        split; [exact H1|]. split; [exact H2|].
        exists (rev cur ++ c :: pre), post. cbn [rev app] in E. rewrite E.
        split; [now rewrite <- app_assoc|]. split; [|exact Hpost]. right.
        destruct Hpre as [->|[pre' [c' [-> Hc']]]].
        - exists (rev cur), c. split; [reflexivity|exact Ec].
        - exists (rev cur ++ c :: pre'), c'. split; [|exact Hc'].
          now rewrite <- app_assoc. }
      destruct cur as [|a cur]; [exact (Hrest Hw)|].
      destruct Hw as [<-|Hw]; [|exact (Hrest Hw)].
      split.
      * intros H. apply (f_equal (@List.length Z)) in H.
        rewrite length_rev in H. discriminate.
      * split; [now apply Forall_rev|].
        exists [], (c :: s). split; [reflexivity|]. split; [now left|].
        right. now exists c, s.
    + destruct (IH (c :: cur)) as [H1 [H2 [pre [post [E H3]]]]];
        [now constructor|exact Hw|].
      split; [exact H1|]. split; [exact H2|].
      exists pre, post. split; [|exact H3].
      rewrite <- E. cbn [rev]. now rewrite <- app_assoc.
Qed.

(** X15. The words [extractWords] takes from a text are distinct, and
    each is a run of the text between separators: not empty, free of
    white space and of the listed punctuation, with the start of the
    text or a separator before it and the end of the text or a separator
    after it. *)
Theorem words_are_runs_between_separators (text : str) :
  NoDup (extractWords text)
  /\ Forall (maximalRun isSeparator text) (extractWords text).
Proof.
  split; [apply NoDup_uniq|]. apply Forall_forall. intros w Hw.
  apply In_uniq in Hw.
  exact (splitRuns_spec isSeparator text [] w (Forall_nil _) Hw).
Qed.

(** ** The index *)

Lemma createIndexFrom_documents (docs : list Document.t) (start : nat)
      (index : Index) :
  documents (createIndexFrom start docs index)
  = documents index
      ++ map (fun d => (Document.id d, Document.metadata d)) docs.
Proof.
  revert start index. induction docs as [|d docs IH]; intros start index.
  - cbn. now rewrite app_nil_r.
  - cbn [createIndexFrom map]. rewrite IH. cbn [documents].
    now rewrite <- app_assoc.
Qed.

Lemma add_nonempty (n : nat) (l : list nat) : add n l <> [].
Proof.
  unfold add. destruct (existsb (Nat.eqb n) l) eqn:E.
  - destruct l; [discriminate|discriminate].
  - destruct l; discriminate.
Qed.

(** Every word of the index has a set of ordinals that is not empty and
    holds no ordinal twice. *)
Lemma createIndexFrom_sets (docs : list Document.t) (start : nat)
      (index : Index) :
  (forall w l, get (terms index) w = Some l -> l <> [] /\ NoDup l) ->
  forall w l, get (terms (createIndexFrom start docs index)) w = Some l ->
              l <> [] /\ NoDup l.
Proof.
  revert start index. induction docs as [|d docs IH]; intros start index H;
    [exact H|].
  cbn [createIndexFrom]. apply IH. cbn [terms]. intros w l.
  rewrite get_fold_indexWord.
  destruct (mem w (extractWords (Document.text d))); [|apply H].
  intros E. injection E as <-. split; [apply add_nonempty|].
  apply NoDup_add. unfold postings.
  destruct (get (terms index) w) as [l|] eqn:El; [|constructor].
  now apply (H w l).
Qed.

(** X16. The index [createIndex] builds: [documents] lists the id and
    the metadata of each document, in order; a word is a key of [terms]
    exactly when a document has it among its words; and the set under a
    key holds, once each, the ordinals of the documents that have the
    word. *)
Theorem index_maps_words_to_their_documents (docs : list Document.t)
        (w : str) :
  documents (createIndex docs)
  = map (fun d => (Document.id d, Document.metadata d)) docs
  /\ (has (terms (createIndex docs)) w = true
      <-> exists d, In d docs /\ In w (extractWords (Document.text d)))
  /\ (forall l,
         get (terms (createIndex docs)) w = Some l ->
         NoDup l
         /\ forall i,
              In i l
              <-> exists d, nth_error docs i = Some d
                            /\ In w (extractWords (Document.text d))).
Proof.
  assert (Hsets : forall w l,
             get (terms (createIndex docs)) w = Some l -> l <> [] /\ NoDup l).
  { apply createIndexFrom_sets. cbn. discriminate. }
  split; [apply (createIndexFrom_documents docs 0)|]. split.
  - unfold has. split.
    + destruct (get (terms (createIndex docs)) w) as [l|] eqn:E;
        [intros _|discriminate].
      destruct (Hsets w l E) as [Hne _].
      destruct l as [|i l]; [contradiction|].
      destruct (proj1 (createIndex_postings w docs i)) as [d [Hd Hw]].
      { unfold postings. rewrite E. now left. }
      exists d. split; [|exact Hw]. eapply nth_error_In. exact Hd.
    + intros [d [Hd Hw]]. apply In_nth_error in Hd as [i Hi].
      assert (Hin : In i (postings (terms (createIndex docs)) w))
        by (apply createIndex_postings; now exists d).
      unfold postings in Hin.
      destruct (get (terms (createIndex docs)) w); [reflexivity|easy].
  - intros l E. split; [now apply (Hsets w l)|].
    intros i. rewrite <- createIndex_postings. unfold postings.
    now rewrite E.
Qed.

(** X17. A search through the index searches no document, and returns
    the empty list, when none of the words of the term is a key of the
    index: a term made of separators alone, or an index over no
    document. *)
Theorem searchWithIndex_without_indexed_word {P : Platform}
        (this : Instance) (term : str) (index : Index)
        (docs : list Document.t) :
  (forall w, In w (extractWords term) -> get (terms index) w = None) ->
  searchWithIndex this term index docs = Normal [].
Proof.
  intros H. unfold searchWithIndex, relevantDocIndices.
  assert (E : forall acc,
             fold_left (addRelevant index) (extractWords term) acc = acc).
  { induction (extractWords term) as [|w ws IH]; intros acc; [reflexivity|].
    cbn [fold_left]. unfold addRelevant at 2.
    rewrite (H w) by now left. apply IH. intros w' Hw'. apply H. now right. }
  rewrite E. reflexivity.
Qed.

Lemma searchWithIndex_without_indexed_word_witness :
  searchWithIndex (P := Devanagari.runtime) (constructor noOptions true)
                  (u "देव")
                  (createIndex [{| Document.id := u "doc1";
                                   Document.text := u "रामो गच्छति";
                                   Document.metadata := None |}])
                  [{| Document.id := u "doc1";
                      Document.text := u "रामो गच्छति";
                      Document.metadata := None |}]
  = Normal [].
Proof.
  apply (searchWithIndex_without_indexed_word (P := Devanagari.runtime)).
  intros w Hw. vm_compute in Hw. destruct Hw as [<-|[]].
  vm_compute. reflexivity.
Defined.

(** ** Occurrences *)

Lemma indexOfAux_complete (p s : str) (k : Z) (i : nat) :
  0 <= k ->
  isPrefixOf p (skipn i s) = true ->
  indexOfAux p s k <> -1.
Proof.
  revert k i. induction s as [|c s IH]; intros k i Hk H; cbn [indexOfAux].
  - rewrite skipn_nil in H. rewrite H. lia.
  - destruct (isPrefixOf p (c :: s)) eqn:E; [lia|].
    destruct i as [|i]; [cbn [skipn] in H; congruence|].
    apply (IH (k + 1) i); [lia|exact H].
Qed.

Lemma indexOf_complete (p s : str) : occurs p s -> indexOf s p 0 <> -1.
Proof.
  intros [i [Hi H]]. unfold indexOf, clamp.
  pose proof (len_nonneg s).
  replace (Z.max 0 (Z.min 0 (len s))) with 0 by lia.
  cbn [Z.to_nat skipn]. now apply (indexOfAux_complete p s 0 (Z.to_nat i)).
Qed.

Lemma found_occurrence {P : Platform} (this : Instance) (term text : str)
      (mark : bool) (m : Match) :
  found this term text (folded this term) (folded this text) mark m ->
  foldedOccurrence this [term] text m
  /\ type m = direct.
Proof.
  intros [p [Hp [Hpre ->]]].
  cbn [type directMatch]. split; [|reflexivity].
  exists term. cbn [position length matchedText directMatch].
  split; [now left|]. split; [exact Hp|]. split; [exact Hpre|].
  split; [|reflexivity].
  destruct mark; [lia|]. unfold extension.
  pose proof (proj1 (countWhile_spec (inClass sanskritEndings)
                       (skipn (Z.to_nat (p + len term)) text))). lia.
Qed.

Lemma foldedOccurrence_incl {P : Platform} (this : Instance)
      (vs ws : list str) (text : str) (m : Match) :
  incl vs ws -> foldedOccurrence this vs text m ->
  foldedOccurrence this ws text m.
Proof. intros H [v [Hv Hr]]. exists v. split; [now apply H|exact Hr]. Qed.

Lemma forEach_total {A S : Type} (I : S -> Prop)
      (f : S -> A -> completion S) (l : list A) (s : S) :
  (forall x s, In x l -> I s -> exists s', f s x = Normal s' /\ I s') ->
  I s -> exists s', forEach l f s = Normal s' /\ I s'.
Proof.
  revert s. induction l as [|x l IH]; intros s H Hs.
  - now exists s.
  - destruct (H x s (or_introl eq_refl) Hs) as [s1 [E1 H1]].
    destruct (IH s1) as [s2 [E2 H2]];
      [intros y t Hy; apply H; now right|exact H1|].
    exists s2. cbn [forEach]. rewrite E1. cbn [bind]. now split.
Qed.

Lemma forEach_reaches {A S : Type} (I : S -> Prop) (Q : A -> Prop)
      (f : S -> A -> completion S) (l : list A) (s s' : S) :
  (forall x s s', In x l -> f s x = Normal s' -> I s -> I s') ->
  (forall x s s', In x l -> f s x = Normal s' -> Q x -> I s') ->
  forEach l f s = Normal s' ->
  I s \/ (exists x, In x l /\ Q x) ->
  I s'.
Proof.
  revert s. induction l as [|x l IH]; intros s Hkeep Hfind H Hor.
  - cbn [forEach] in H. injection H as <-.
    destruct Hor as [Hs|[x [[] _]]]. exact Hs.
  - cbn [forEach] in H. destruct (f s x) as [s1| |] eqn:E1; try discriminate.
    cbn [bind] in H. apply (IH s1).
    + intros y t t' Hy. apply Hkeep. now right.
    + intros y t t' Hy. apply Hfind. now right.
    + exact H.
    + destruct Hor as [Hs|[y [[<-|Hy] Hq]]].
      * left. exact (Hkeep x s s1 (or_introl eq_refl) E1 Hs).
      * left. exact (Hfind x s s1 (or_introl eq_refl) E1 Hq).
      * right. now exists y.
Qed.

(** ** The variations of a term are not empty *)

Lemma endsWith_lastChar (t p : str) :
  endsWith t p = true -> p <> [] -> lastChar t = lastChar p.
Proof.
  intros H Hp. apply endsWith_inv in H. rewrite H. now apply lastChar_app.
Qed.

Lemma expandWith_text (prefix term : str)
      (rules : list SanskritSandhiRules.SandhiRule)
      (v : SanskritSandhiRules.Variation) :
  In v (SanskritSandhiRules.expandWith prefix term rules) ->
  exists r before after,
    In r rules
    /\ SanskritSandhiRules.text v
       = before ++ SanskritSandhiRules.pattern r
           ++ SanskritSandhiRules.following r ++ after.
Proof.
  unfold SanskritSandhiRules.expandWith. intros H.
  apply in_flat_map in H as [r [Hr H]].
  destruct (indexOf term (SanskritSandhiRules.result r) 0 =? -1); [easy|].
  destruct H as [<-|[]]. cbn [SanskritSandhiRules.text].
  now eexists r, _, _.
Qed.

Lemma rules_have_a_pattern (r : SanskritSandhiRules.SandhiRule) :
  In r (SanskritSandhiRules.vowelSandhi
          ++ SanskritSandhiRules.consonantSandhi
          ++ SanskritSandhiRules.visargaSandhi) ->
  SanskritSandhiRules.pattern r <> [].
Proof.
  intros H.
  assert (E : forallb (fun r => negb (eqb (SanskritSandhiRules.pattern r) []))
                (SanskritSandhiRules.vowelSandhi
                   ++ SanskritSandhiRules.consonantSandhi
                   ++ SanskritSandhiRules.visargaSandhi) = true)
    by (vm_compute; reflexivity).
  rewrite forallb_forall in E. specialize (E r H).
  apply negb_true_iff in E. now apply eqb_neq.
Qed.

Lemma variation_texts_nonempty (term : str)
      (v : SanskritSandhiRules.Variation) :
  term <> [] ->
  hasEndingMarker term = false ->
  In v (SanskritSandhiRules.generateVariations term) ->
  SanskritSandhiRules.text v <> [].
Proof.
  intros Ht Hm Hv. unfold SanskritSandhiRules.generateVariations in Hv.
  apply uniqueByText_spec in Hv as [Hv _].
  assert (Hexp : forall prefix rules,
             incl rules (SanskritSandhiRules.vowelSandhi
                           ++ SanskritSandhiRules.consonantSandhi
                           ++ SanskritSandhiRules.visargaSandhi) ->
             In v (SanskritSandhiRules.expandWith prefix term rules) ->
             SanskritSandhiRules.text v <> []).
  { intros prefix rules Hincl H.
    apply expandWith_text in H as [r [b [a [Hr ->]]]].
    pose proof (rules_have_a_pattern r (Hincl r Hr)) as Hp.
    destruct b; [|discriminate].
    destruct (SanskritSandhiRules.pattern r); [contradiction|discriminate]. }
  destruct Hv as [<-|Hv]; [exact Ht|].
  apply in_app_or in Hv as [Hv|Hv];
    [apply (Hexp _ _ (incl_refl _) Hv)|].
  apply in_app_or in Hv as [Hv|Hv];
    [|apply (Hexp _ _ (incl_appl _ (incl_refl _)) Hv)].
  unfold SanskritSandhiRules.tryEndingVariations in Hv.
  apply in_flat_map in Hv as [e [He Hv]].
  destruct (endsWith term (SanskritSandhiRules.ending e)) eqn:Ee; [|easy].
  apply in_flat_map in Hv as [variant [Hvar Hv]].
  destruct (eqb _ term); [easy|]. destruct Hv as [<-|[]].
  cbn [SanskritSandhiRules.text].
  assert (Hmark : forall p c,
             endsWith term p = true -> lastChar p = Some c ->
             inClass endingPattern c = true -> False).
  { intros p c Hp Hc Hin.
    assert (p <> []) by (intros ->; discriminate).
    unfold hasEndingMarker, lastIn in Hm.
    rewrite (endsWith_lastChar term p Hp), Hc, Hin in Hm by assumption.
    discriminate. }
  unfold SanskritSandhiRules.endingVariations in He.
  repeat (destruct He as [<-|He];
          [cbn [SanskritSandhiRules.ending SanskritSandhiRules.variations] in *;
           repeat (destruct Hvar as [<-|Hvar];
                   [first [ apply replaceAtEnd_last;
                            [vm_compute; discriminate|exact Ht]
                          | exfalso; eapply (Hmark _ _ Ee);
                            vm_compute; reflexivity ]|]);
           contradiction|]).
  contradiction.
Qed.

(** ** The fuzzy mode *)

Section FuzzyMode.
Context {P : Platform}.
Variable this : Instance.
Hypothesis lower_nonempty : forall s, s <> [] -> toLowerCase s <> [].

Lemma folded_nonempty (s : str) : s <> [] -> folded this s <> [].
Proof.
  intros H. unfold folded. destruct (caseSensitive (config this)); auto.
Qed.

Lemma directLoop_extends (term text searchStr textStr : str) (mark : bool)
      (fuel : nat) (pos : Z) (ms out : list Match) :
  directLoop this fuel term text searchStr textStr mark pos ms = Normal out ->
  exists ms', out = ms ++ ms'.
Proof.
  revert pos ms. induction fuel as [|fuel IH]; intros pos ms H;
    [discriminate|].
  cbn [directLoop] in H.
  destruct (indexOf textStr searchStr pos =? -1).
  - injection H as <-. exists []. now rewrite app_nil_r.
  - apply IH in H as [ms' ->]. rewrite <- app_assoc. now eexists.
Qed.

Lemma directLoop_finds (term text searchStr textStr : str) (mark : bool)
      (fuel : nat) (pos : Z) (ms out : list Match) :
  directLoop this (S fuel) term text searchStr textStr mark pos ms
  = Normal out ->
  indexOf textStr searchStr pos <> -1 ->
  out <> [].
Proof.
  intros H Hi. cbn [directLoop] in H. apply Z.eqb_neq in Hi.
  rewrite Hi in H. apply directLoop_extends in H as [ms' ->].
  rewrite <- app_assoc. destruct ms; discriminate.
Qed.

Lemma directSearch_spec (term text : str) :
  term <> [] ->
  exists ms,
    directSearch this term text = Normal ms
    /\ Forall (fun m => foldedOccurrence this [term] text m
                        /\ type m = direct) ms
    /\ (occurs (folded this term) (folded this text) -> ms <> []).
Proof.
  intros Ht. pose proof (folded_nonempty term Ht) as Hs.
  unfold directSearch. fold (folded this term). fold (folded this text).
  set (mark := lastIn (inClass sanskritEndings) term).
  assert (Hlen : 0 < len term)
    by (destruct term; [contradiction|unfold len; simpl; lia]).
  destruct (directLoop_terminates this term text (folded this term)
              (folded this text) mark Ht Hs
              (loopFuel (folded this text)) 0 []) as [ms [Hr Hq]];
    [lia|unfold loopFuel, len; lia|].
  exists ms. split; [exact Hr|]. split.
  - eapply Forall_impl; [|exact Hq]. intros m. apply found_occurrence.
  - intros Hocc. apply indexOf_complete in Hocc.
    unfold loopFuel in Hr. rewrite app_nil_l in Hr.
    exact (directLoop_finds _ _ _ _ _ _ _ _ _ Hr Hocc).
Qed.

Lemma sandhiAwareSearch_spec (term text : str) :
  term <> [] ->
  hasEndingMarker term = false ->
  exists ms,
    sandhiAwareSearch this term text = Normal ms
    /\ Forall (fun m =>
                 foldedOccurrence this
                   (map SanskritSandhiRules.text
                        (SanskritSandhiRules.generateVariations term))
                   text m
                 /\ type m = sandhi) ms
    /\ (sandhiRules this = true ->
        (exists v,
            In v (map SanskritSandhiRules.text
                      (SanskritSandhiRules.generateVariations term))
            /\ occurs (folded this v) (folded this text)) ->
        ms <> []).
Proof.
  intros Ht Hm.
  assert (Hret : exists ms,
             sandhiAwareSearch this term text = Normal ms
             /\ Forall (fun m =>
                          foldedOccurrence this
                            (map SanskritSandhiRules.text
                                 (SanskritSandhiRules.generateVariations term))
                            text m
                          /\ type m = sandhi) ms).
  { unfold sandhiAwareSearch.
    destruct (negb (sandhiRules this));
      [exists []; split; [reflexivity|constructor]|].
    apply forEach_total; [|constructor].
    intros v ms Hv Hms.
    destruct (directSearch_spec (SanskritSandhiRules.text v) text)
      as [vm [Hr [Hq _]]]; [now apply (variation_texts_nonempty term)|].
    rewrite Hr. cbn [bind]. eexists. split; [reflexivity|].
    apply Forall_app. split; [exact Hms|].
    apply Forall_forall. intros m Hin.
    apply in_map_iff in Hin as [m0 [<- Hm0]].
    rewrite Forall_forall in Hq. destruct (Hq m0 Hm0) as [[w [Hw Ho]] _].
    destruct Hw as [<-|[]]. cbn [type]. split; [|reflexivity].
    exists (SanskritSandhiRules.text v). split; [now apply in_map|exact Ho]. }
  destruct Hret as [ms [Hr Hq]]. exists ms. split; [exact Hr|].
  split; [exact Hq|].
  intros Hrules [w [Hw Hocc]]. apply in_map_iff in Hw as [v [<- Hv]].
  unfold sandhiAwareSearch in Hr. rewrite Hrules in Hr. cbn [negb] in Hr.
  refine (forEach_reaches (fun ms => ms <> [])
            (fun v => occurs (folded this (SanskritSandhiRules.text v))
                             (folded this text))
            _ _ _ _ _ _ Hr _).
  - intros y s s' _ E Hs.
    destruct (directSearch this (SanskritSandhiRules.text y) text);
      try discriminate.
    cbn [bind] in E. injection E as <-. destruct s; [contradiction|discriminate].
  - intros y s s' Hy E Hocc'.
    destruct (directSearch_spec (SanskritSandhiRules.text y) text)
      as [vm [Hd [_ Hne]]]; [now apply (variation_texts_nonempty term)|].
    rewrite Hd in E. cbn [bind] in E. injection E as <-.
    specialize (Hne Hocc'). destruct vm; [contradiction|].
    destruct s; discriminate.
  - right. now exists v.
Qed.

Lemma In_fold_pushUnlessDuplicate (new ms : list Match) (m : Match) :
  In m (fold_left pushUnlessDuplicate new ms) -> In m ms \/ In m new.
Proof.
  revert ms. induction new as [|x new IH]; intros ms H; [now left|].
  cbn [fold_left] in H. apply IH in H as [H|H]; [|right; now right].
  unfold pushUnlessDuplicate in H. destruct (isDuplicate x ms); [now left|].
  apply in_app_or in H as [H|[<-|[]]]; [now left|right; now left].
Qed.

Lemma fold_pushUnlessDuplicate_incl (new ms : list Match) (m : Match) :
  In m ms -> In m (fold_left pushUnlessDuplicate new ms).
Proof.
  revert ms. induction new as [|x new IH]; intros ms H; [exact H|].
  cbn [fold_left]. apply IH. unfold pushUnlessDuplicate.
  destruct (isDuplicate x ms); [exact H|]. apply in_or_app. now left.
Qed.

Lemma In_sliceArray {A : Type} (l : list A) (from to : Z) (x : A) :
  In x (sliceArray l from to) -> In x l.
Proof.
  unfold sliceArray. intros H.
  set (f := Z.to_nat (relIndex (Z.of_nat (List.length l)) from)) in *.
  rewrite <- (firstn_skipn f l). apply in_or_app. right.
  set (r := skipn f l) in *.
  rewrite <- (firstn_skipn (Z.to_nat (relIndex (Z.of_nat (List.length l)) to
                                      - relIndex (Z.of_nat (List.length l)) from))
                           r).
  apply in_or_app. now left.
Qed.

Lemma sliceArray_nonempty {A : Type} (l : list A) (n : Z) :
  l <> [] -> 0 < n -> sliceArray l 0 n <> [].
Proof.
  intros Hl Hn. unfold sliceArray, relIndex.
  destruct l as [|a l]; [contradiction|].
  cbn [Z.ltb Z.compare]. replace (n <? 0) with false by lia.
  set (len := Z.of_nat (List.length (a :: l))).
  assert (0 < len) by (unfold len; simpl; lia).
  rewrite (Z.min_l 0) by lia. cbn [Z.to_nat skipn].
  replace (Z.to_nat (Z.min n len - 0)) with (S (Z.to_nat (Z.min n len - 1)))
    by lia.
  discriminate.
Qed.

(** The fuzzy mode of [search]. *)
Lemma searchStrings_fuzzy (term text : str) :
  normalize term <> [] ->
  hasEndingMarker (normalize term) = false ->
  exists r,
    searchStrings this term text = Normal r
    /\ count r = Z.of_nat (List.length (matches r))
    /\ (forall m, In m (matches r) ->
          (type m = direct \/ type m = sandhi)
          /\ foldedOccurrence this (fuzzyCandidates this (normalize term))
                              (normalize text) m)
    /\ (0 <= maxResults (config this) ->
        (exists v,
            In v (fuzzyCandidates this (normalize term))
            /\ occurs (folded this v) (folded this (normalize text))) ->
        matches r <> []).
Proof.
  intros Ht Hm. unfold searchStrings. rewrite Hm.
  set (t := normalize term) in *. set (x := normalize text).
  destruct (directSearch_spec t x Ht) as [dm [Hd [Hdq Hdn]]].
  rewrite Hd. cbn [bind]. unfold fuzzyCandidates.
  set (vs := map SanskritSandhiRules.text
                 (SanskritSandhiRules.generateVariations t)).
  assert (Hmerged : exists ms,
             (if enableSandhi (config this) && sandhiRules this
              then sandhiMatches <- sandhiAwareSearch this t x ;;
                   Normal (fold_left pushUnlessDuplicate sandhiMatches dm)
              else Normal dm) = Normal ms
             /\ (forall m, In m ms ->
                   (type m = direct \/ type m = sandhi)
                   /\ foldedOccurrence this
                        (t :: (if enableSandhi (config this)
                                  && sandhiRules this
                               then vs else [])) x m)
             /\ ((exists v,
                     In v (t :: (if enableSandhi (config this)
                                    && sandhiRules this
                                 then vs else []))
                     /\ occurs (folded this v) (folded this x)) ->
                 ms <> [])).
  { rewrite Forall_forall in Hdq.
    assert (Hdm : forall m tl, In m dm ->
                    (type m = direct \/ type m = sandhi)
                    /\ foldedOccurrence this (t :: tl) x m).
    { intros m tl Hin. destruct (Hdq m Hin) as [Ho Ty].
      split; [now left|]. apply (foldedOccurrence_incl this [t]); [|exact Ho].
      intros w [<-|[]]. now left. }
    destruct (enableSandhi (config this) && sandhiRules this) eqn:Es.
    - apply andb_true_iff in Es as [_ Hrules].
      destruct (sandhiAwareSearch_spec t x Ht Hm) as [sm [Hs [Hsq Hsn]]].
      rewrite Hs. cbn [bind]. eexists. split; [reflexivity|]. split.
      + intros m Hin. apply In_fold_pushUnlessDuplicate in Hin as [Hin|Hin];
          [now apply Hdm|].
        rewrite Forall_forall in Hsq. destruct (Hsq m Hin) as [Ho Ty].
        split; [now right|].
        apply (foldedOccurrence_incl this vs); [|exact Ho].
        intros w Hw. now right.
      + intros [v [Hv Hocc]] E.
        assert (Hdm0 : dm = []).
        { destruct dm as [|m dm]; [reflexivity|].
          assert (Hin : In m (fold_left pushUnlessDuplicate sm (m :: dm)))
            by (apply fold_pushUnlessDuplicate_incl; now left).
          rewrite E in Hin. contradiction. }
        subst dm. destruct Hv as [<-|Hv]; [now apply Hdn|].
        assert (Hsm : sm <> []) by (apply Hsn; [exact Hrules|now exists v]).
        destruct sm as [|m sm]; [contradiction|].
        cbn [fold_left pushUnlessDuplicate isDuplicate existsb app] in E.
        assert (Hin : In m (fold_left pushUnlessDuplicate sm [m]))
          by (apply fold_pushUnlessDuplicate_incl; now left).
        rewrite E in Hin. contradiction.
    - exists dm. split; [reflexivity|]. split; [now intros m; apply Hdm|].
      intros [v [[<-|[]] Hocc]]. now apply Hdn. }
  destruct Hmerged as [ms [-> [Hq Hn]]]. cbn [bind].
  eexists. split; [reflexivity|]. cbn [matches count].
  split; [reflexivity|]. split.
  - intros m Hin. apply Hq.
    destruct (maxResults (config this) =? 0);
      [|apply In_sliceArray in Hin]; now apply In_sortBy in Hin.
  - intros Hmax Hocc. specialize (Hn Hocc).
    assert (Hsorted : sortBy byPosition ms <> []).
    { intros E. apply Hn. apply length_zero_iff_nil.
      rewrite <- (length_sortBy byPosition ms), E. reflexivity. }
    destruct (maxResults (config this) =? 0) eqn:E0; [exact Hsorted|].
    apply Z.eqb_neq in E0. apply sliceArray_nonempty; [exact Hsorted|lia].
Qed.

End FuzzyMode.

(** X18. In fuzzy mode, on a platform whose [toLowerCase] keeps a string
    that is not empty not empty, [search] returns; every match it returns
    is of type [direct] or [sandhi] and lies where the term, or a sandhi
    variation of the term, occurs in the text, compared as the
    configuration says: it starts at the occurrence, is at least as long,
    and [matchedText] is the text it covers. *)
Theorem fuzzy_matches_are_variation_occurrences {P : Platform}
        (this : Instance) (term text : str) :
  (forall s, s <> [] -> toLowerCase s <> []) ->
  normalize term <> [] ->
  hasEndingMarker (normalize term) = false ->
  exists r,
    search this (VString term) (VString text) = Normal r
    /\ count r = Z.of_nat (List.length (matches r))
    /\ forall m, In m (matches r) ->
         (type m = direct \/ type m = sandhi)
         /\ foldedOccurrence this (fuzzyCandidates this (normalize term))
                             (normalize text) m.
Proof.
  intros Hlow Ht Hm. unfold search.
  destruct (negb (truthy (VString term)) || negb (truthy (VString text))).
  - exists noResults. split; [reflexivity|]. split; [reflexivity|].
    intros m [].
  - destruct (searchStrings_fuzzy this Hlow term text Ht Hm)
      as [r [Hr [Hc [Hq _]]]].
    exists r. auto.
Qed.

Lemma fuzzy_matches_are_variation_occurrences_witness :
  exists r,
    search (P := Devanagari.runtime) (constructor noOptions true)
           (VString (u "देव")) (VString (u "देवोऽसुरेभ्यो बलमददात्")) = Normal r
    /\ count r = Z.of_nat (List.length (matches r))
    /\ forall m, In m (matches r) ->
         (type m = direct \/ type m = sandhi)
         /\ foldedOccurrence (P := Devanagari.runtime)
              (constructor noOptions true)
              (fuzzyCandidates
                 (constructor noOptions true)
                 (normalize (Platform := Devanagari.runtime) (u "देव")))
              (normalize (Platform := Devanagari.runtime)
                         (u "देवोऽसुरेभ्यो बलमददात्")) m.
Proof.
  apply (fuzzy_matches_are_variation_occurrences (P := Devanagari.runtime)
           (constructor noOptions true) (u "देव") (u "देवोऽसुरेभ्यो बलमददात्")).
  - intros [|c s] H; [contradiction|discriminate].
  - vm_compute. discriminate.
  - vm_compute. reflexivity.
Defined.

(** ** What is there is found *)

Lemma substr_occurs (s v : str) (p n : Z) :
  0 <= p -> v <> [] -> substr s p n = v -> occurs v s.
Proof.
  intros Hp Hv E. exists p. split; [exact Hp|].
  unfold substr, relIndex, range in E.
  replace (p <? 0) with false in E by (symmetry; apply Z.ltb_ge; lia).
  pose proof (len_nonneg s).
  destruct (Z.le_gt_cases p (len s)) as [Hle|Hgt].
  - rewrite (Z.min_l p) in E by lia. rewrite <- E.
    set (r := skipn (Z.to_nat p) s). set (k := Z.to_nat _).
    rewrite <- (firstn_skipn k r) at 2. apply isPrefixOf_app.
  - rewrite (Z.min_r p) in E by lia. unfold len in E.
    rewrite Nat2Z.id, skipn_all, firstn_nil in E. congruence.
Qed.

Section PrecisionFinds.
Context {P : Platform}.
Variable this : Instance.

Lemma fallbackLoop_extends (searchTerm text v : str) (fuel : nat) (index : Z)
      (ms out : list Match) :
  fallbackLoop this fuel searchTerm text v index ms = Normal out ->
  ms <> [] -> out <> [].
Proof.
  revert index ms. induction fuel as [|fuel IH]; intros index ms H Hne;
    [discriminate|].
  cbn [fallbackLoop] in H.
  destruct (indexOf text v index =? -1); [now injection H as <-|].
  apply IH in H; [exact H|].
  destruct (samePosition _ ms); [exact Hne|]. destruct ms; discriminate.
Qed.

Lemma fallbackLoop_finds (searchTerm text v : str) (fuel : nat)
      (out : list Match) :
  fallbackLoop this (S fuel) searchTerm text v 0 [] = Normal out ->
  indexOf text v 0 <> -1 ->
  out <> [].
Proof.
  intros H Hi. cbn [fallbackLoop] in H. apply Z.eqb_neq in Hi.
  rewrite Hi in H. cbn [samePosition existsb app] in H.
  apply fallbackLoop_extends in H; [exact H|discriminate].
Qed.

Lemma searchVariant_finds (searchTerm text : str) (variants : list str)
      (v : str) (ms out : list Match) :
  In v variants -> endsInsideWord v ->
  searchVariant this searchTerm text ms v = Normal out ->
  ms <> [] \/ occurs v text ->
  out <> [].
Proof.
  intros Hin Hv H Hor. unfold searchVariant in H.
  destruct (execLoop_spec this searchTerm text variants v
              (loopFuel text) 0 ms Hin Hv) as [ms1 [Hr _]];
    [lia|unfold loopFuel, len; lia|].
  rewrite Hr in H. cbn [bind] in H.
  destruct (ms ++ ms1) as [|m rest] eqn:E.
  - apply app_eq_nil in E as [-> ->].
    destruct Hor as [Hne|Hocc]; [contradiction|].
    unfold loopFuel in H.
    exact (fallbackLoop_finds _ _ _ _ _ H (indexOf_complete _ _ Hocc)).
  - injection H as <-. discriminate.
Qed.

Lemma exactWordSearch_finds (searchTerm text : str) :
  hasEndingMarker (normalize searchTerm) = true ->
  searchTerm <> [] -> text <> [] ->
  exists r,
    exactWordSearch this searchTerm text = Normal r
    /\ count r = Z.of_nat (List.length (matches r))
    /\ (matches r <> []
        <-> exists v,
              In v (generatePhoneticVariants (normalize searchTerm))
              /\ occurs v (normalize text)).
Proof.
  intros Hm Hs Hx. unfold exactWordSearch.
  rewrite (proj2 (eqb_neq searchTerm []) Hs), (proj2 (eqb_neq text []) Hx).
  cbn [orb].
  set (term' := normalize searchTerm) in *. set (text' := normalize text) in *.
  set (variants := generatePhoneticVariants term').
  assert (Hvs : forall v, In v variants -> In v variants /\ endsInsideWord v).
  { intros v Hv. split; [exact Hv|].
    now apply (variants_end_inside_word term'). }
  destruct (forEach_variants_spec this term' text' variants variants [] Hvs)
    as [ms [Hr [Hq _]]].
  rewrite Hr. cbn [bind app]. eexists. split; [reflexivity|].
  cbn [matches count]. split; [reflexivity|]. split.
  - intros Hne. destruct (sortBy byPosition ms) as [|m rest] eqn:E;
      [contradiction|].
    assert (Hin : In m ms) by (apply (In_sortBy byPosition); rewrite E; now left).
    rewrite Forall_forall in Hq.
    destruct (Hq m Hin) as [_ [Hv [Hp Hsub]]].
    exists (matchedText m). split; [exact Hv|].
    apply (substr_occurs text' _ (position m) (length m)); try assumption.
    apply endsInsideWord_nonempty. now apply Hvs.
  - intros [v [Hv Hocc]] E.
    assert (Hms : ms <> []).
    { refine (forEach_reaches (fun ms => ms <> [])
                (fun v => occurs v text') _ _ _ _ _ _ Hr _).
      - intros y s s' Hy Es Hne.
        apply (searchVariant_finds term' text' variants y s s'); auto.
        now apply Hvs.
      - intros y s s' Hy Es Ho.
        apply (searchVariant_finds term' text' variants y s s'); auto.
        now apply Hvs.
      - right. now exists v. }
    apply Hms. apply length_zero_iff_nil.
    rewrite <- (length_sortBy byPosition ms), E. reflexivity.
Qed.

End PrecisionFinds.

(** X19. [search] has a match exactly when there is something to find.
    The strings it looks for are, in precision mode, the phonetic
    variants of the normalised term and, in fuzzy mode, the normalised
    term and its sandhi variations; [search] returns, and it returns at
    least one match if and only if one of these strings occurs in the
    normalised text (in fuzzy mode: compared as the configuration says). *)
Theorem search_matches_iff_something_occurs {P : Platform} (this : Instance)
        (term text : str) :
  (forall s, s <> [] -> toLowerCase s <> []) ->
  term <> [] -> text <> [] ->
  normalize term <> [] -> normalize text <> [] ->
  normalize (normalize term) = normalize term ->
  normalize (normalize text) = normalize text ->
  0 <= maxResults (config this) ->
  exists r,
    search this (VString term) (VString text) = Normal r
    /\ (0 < count r
        <-> exists v,
              In v (candidates this (normalize term))
              /\ occurs (compared this (normalize term) v)
                        (compared this (normalize term) (normalize text))).
Proof.
  intros Hlow Ht Hx Hn Hxn Hnt Hnx Hmax. unfold search, truthy.
  rewrite (proj2 (eqb_neq term []) Ht), (proj2 (eqb_neq text []) Hx).
  cbn [negb orb].
  assert (Hpos : forall r : Results,
             count r = Z.of_nat (List.length (matches r)) ->
             (0 < count r <-> matches r <> [])).
  { intros r ->. destruct (matches r); simpl; split; intros; try lia;
      try contradiction; discriminate. }
  unfold candidates, compared.
  destruct (hasEndingMarker (normalize term)) eqn:Em.
  - unfold searchStrings. rewrite Em.
    destruct (exactWordSearch_finds this (normalize term) (normalize text))
      as [r [Hr [Hc Hiff]]]; [now rewrite Hnt|exact Hn|exact Hxn|].
    rewrite Hnt, Hnx in Hiff.
    exists r. split; [exact Hr|]. now rewrite (Hpos r Hc).
  - destruct (searchStrings_fuzzy this Hlow term text Hn Em)
      as [r [Hr [Hc [Hq Hne]]]].
    exists r. split; [exact Hr|]. rewrite (Hpos r Hc). split.
    + intros Hm. destruct (matches r) as [|m rest] eqn:E; [contradiction|].
      destruct (Hq m (or_introl eq_refl)) as [_ [v [Hv [Hp [Hpre _]]]]].
      exists v. split; [exact Hv|]. now exists (position m).
    + now apply Hne.
Qed.

Lemma search_matches_iff_something_occurs_witness :
  exists r,
    search (P := Devanagari.runtime) (constructor noOptions true)
           (VString (u "देव")) (VString (u "देवोऽसुरेभ्यो बलमददात्")) = Normal r
    /\ (0 < count r
        <-> exists v,
              In v (candidates
                      (constructor noOptions true)
                      (normalize (Platform := Devanagari.runtime) (u "देव")))
              /\ occurs
                   (compared (P := Devanagari.runtime)
                             (constructor noOptions true)
                             (normalize (Platform := Devanagari.runtime)
                                        (u "देव")) v)
                   (compared (P := Devanagari.runtime)
                             (constructor noOptions true)
                             (normalize (Platform := Devanagari.runtime)
                                        (u "देव"))
                             (normalize (Platform := Devanagari.runtime)
                                        (u "देवोऽसुरेभ्यो बलमददात्")))).
Proof.
  apply (search_matches_iff_something_occurs (P := Devanagari.runtime)
           (constructor noOptions true) (u "देव") (u "देवोऽसुरेभ्यो बलमददात्")).
  - intros [|c s] H; [contradiction|discriminate].
  - vm_compute. discriminate.
  - vm_compute. discriminate.
  - vm_compute. discriminate.
  - vm_compute. discriminate.
  - vm_compute. reflexivity.
  - vm_compute. reflexivity.
  - vm_compute. discriminate.
Defined.

(** ** Pratika grahana search *)

Lemma get_In {V : Type} (o : object V) (k : str) (v : V) :
  get o k = Some v -> In (k, v) o.
Proof.
  induction o as [|[k' v'] o IH]; [discriminate|]. cbn [get].
  destruct (eqb k k') eqn:E.
  - intros H. injection H as <-. apply eqb_eq in E. subst k'. now left.
  - intros H. right. now apply IH.
Qed.

(** The one empty ending of the reverse map stands under [ेति], and no
    suffix of the forward map is empty. *)
Lemma reverse_empty_ending (p : str) (endings : list str) :
  get (reverse createItiSandhiMap) p = Some endings ->
  In [] endings -> p = u "ेति".
Proof.
  intros Hg Hin. apply get_In in Hg.
  assert (E : forallb (fun e => if mem [] (snd e) then eqb (fst e) (u "ेति")
                                else true)
                      (reverse createItiSandhiMap) = true)
    by (vm_compute; reflexivity).
  rewrite forallb_forall in E. specialize (E _ Hg). cbn [fst snd] in E.
  rewrite (proj2 (mem_In [] endings) Hin) in E. now apply eqb_eq.
Qed.

Lemma forward_suffix_nonempty (e suffix : str) :
  get (forward createItiSandhiMap) e = Some suffix -> suffix <> [].
Proof.
  intros Hg. apply get_In in Hg.
  assert (E : forallb (fun e => negb (eqb (snd e) []))
                      (forward createItiSandhiMap) = true)
    by (vm_compute; reflexivity).
  rewrite forallb_forall in E. specialize (E _ Hg). cbn [snd] in E.
  apply negb_true_iff in E. now apply eqb_neq.
Qed.

Lemma app_nonempty_r (a b : str) : b <> [] -> a ++ b <> [].
Proof. intros H E. apply app_eq_nil in E as [_ E]. contradiction. Qed.

(** The variations of a term for the pratika search are not empty, the
    term [ेति] apart. *)
Lemma pratika_variation_nonempty (options : Options) (loaded : bool)
      (term : str) (v : PratikaVariation) :
  term <> [] -> term <> u "ेति" ->
  In v (generatePratikaVariations (constructor options loaded) term) ->
  text v <> [].
Proof.
  intros Ht Heti Hv. unfold generatePratikaVariations in Hv.
  cbn [itiSandhiMap constructor] in Hv.
  apply in_app_or in Hv as [Hv|Hv].
  - apply in_flat_map in Hv as [p [_ Hv]].
    destruct (endsWith term p) eqn:Ep; [|easy].
    destruct (get (reverse createItiSandhiMap) p) as [endings|] eqn:Hg;
      [|easy].
    apply in_map_iff in Hv as [ending [<- Hin]]. cbn [text].
    destruct ending as [|c ending];
      [|apply app_nonempty_r; discriminate].
    rewrite (reverse_empty_ending p endings Hg Hin) in *.
    apply endsWith_inv in Ep. set (x := firstn _ term) in Ep.
    rewrite Ep. rewrite slice_app_all by (vm_compute; discriminate).
    rewrite app_nil_r. intros ->. now apply Heti.
  - destruct (negb (endsWith term (u "ति"))); [|easy].
    apply in_flat_map in Hv as [ending [_ Hv]].
    destruct (get (forward createItiSandhiMap) ending) as [suffix|] eqn:Hg;
      [|easy].
    pose proof (forward_suffix_nonempty ending suffix Hg) as Hs.
    destruct (eqb ending []).
    + destruct (lastChar term) as [c|]; [|easy].
      destruct (negb (inClass sanskritEndings c)); [|easy].
      destruct Hv as [<-|[]]. cbn [text]. now apply app_nonempty_r.
    + destruct (endsWith term ending); [|easy].
      destruct Hv as [<-|[]]. cbn [text]. now apply app_nonempty_r.
Qed.

Section PratikaGrahana.
Context {P : Platform}.
Variable options : Options.
Variable loaded : bool.
Hypothesis lower_nonempty : forall s, s <> [] -> toLowerCase s <> [].

Lemma search_returns (term text : str) :
  normalize term <> [] ->
  normalize (normalize term) = normalize term ->
  exists r,
    search (constructor options loaded) (VString term) (VString text)
    = Normal r
    /\ forall m, In m (matches r) -> type m <> pratika_grahana.
Proof.
  intros Hn Hnn. unfold search.
  destruct (negb (truthy (VString term)) || negb (truthy (VString text)));
    [exists noResults; split; [reflexivity|intros m []]|].
  destruct (hasEndingMarker (normalize term)) eqn:Em.
  - unfold searchStrings. rewrite Em.
    destruct (exactWordSearch_spec (constructor options loaded)
                (normalize term) (normalize text)) as [r [Hr [Hq _]]];
      [now rewrite Hnn|].
    exists r. split; [exact Hr|]. intros m Hm.
    destruct (Hq m Hm) as [-> _]. discriminate.
  - destruct (searchStrings_fuzzy (constructor options loaded) lower_nonempty
                term text Hn Em) as [r [Hr [_ [Hq _]]]].
    exists r. split; [exact Hr|]. intros m Hm.
    destruct (Hq m Hm) as [[->| ->] _]; discriminate.
Qed.

Lemma pratikaGrahanaSearch_spec (term text : str) :
  term <> [] -> term <> u "ेति" ->
  exists ms,
    pratikaGrahanaSearch (constructor options loaded) term text = Normal ms
    /\ Forall (fun m =>
                 type m = pratika_grahana
                 /\ originalTerm m = Some term
                 /\ exists v,
                     In v (generatePratikaVariations
                             (constructor options loaded) term)
                     /\ pratikaPattern m = Some (pattern v)
                     /\ foldedOccurrence (constructor options loaded)
                                         [SanskritSearch.text v] text m)
              ms.
Proof.
  intros Ht Heti. unfold pratikaGrahanaSearch.
  apply forEach_total; [|constructor].
  intros v ms Hv Hms.
  pose proof (pratika_variation_nonempty options loaded term v Ht Heti Hv)
    as Hne.
  destruct v as [vt vp]. cbn [SanskritSearch.text] in Hne.
  destruct (directSearch_spec (constructor options loaded) lower_nonempty
              vt text Hne) as [vm [Hr [Hq _]]].
  rewrite Hr. cbn [bind]. eexists. split; [reflexivity|].
  apply Forall_app. split; [exact Hms|].
  apply Forall_forall. intros m Hin. apply in_map_iff in Hin as [m0 [<- Hm0]].
  rewrite Forall_forall in Hq. destruct (Hq m0 Hm0) as [[w [Hw Ho]] _].
  destruct Hw as [<-|[]]. cbn [type originalTerm pratikaPattern].
  split; [reflexivity|]. split; [reflexivity|].
  exists {| text := vt; pattern := vp |}. split; [exact Hv|].
  split; [reflexivity|]. exists vt. split; [now left|exact Ho].
Qed.

End PratikaGrahana.

(** X20. [searchWithPratikaGrahana] returns for every term whose
    normalised form is not empty and is not [ेति] itself. Each match of
    type [pratika-grahana] it returns names the normalised term as its
    original term and a variation of it as its pattern, and lies where
    the text of that variation occurs in the text. *)
Theorem pratika_grahana_search_returns {P : Platform} (options : Options)
        (loaded : bool) (term text : str) :
  (forall s, s <> [] -> toLowerCase s <> []) ->
  normalize term <> [] ->
  normalize (normalize term) = normalize term ->
  normalize term <> u "ेति" ->
  exists r,
    searchWithPratikaGrahana (constructor options loaded)
                             (VString term) (VString text) = Normal r
    /\ count r = Z.of_nat (List.length (matches r))
    /\ forall m,
         In m (matches r) -> type m = pratika_grahana ->
         originalTerm m = Some (normalize term)
         /\ exists v,
             In v (generatePratikaVariations (constructor options loaded)
                                             (normalize term))
             /\ pratikaPattern m = Some (pattern v)
             /\ foldedOccurrence (constructor options loaded)
                                 [SanskritSearch.text v] (normalize text) m.
Proof.
  intros Hlow Hn Hnn Heti. unfold searchWithPratikaGrahana.
  destruct (negb (truthy (VString term)) || negb (truthy (VString text))).
  { exists noResults. split; [reflexivity|]. split; [reflexivity|].
    intros m []. }
  unfold searchWithPratikaGrahanaStrings.
  set (t := normalize term) in *. set (x := normalize text).
  destruct (search_returns options loaded Hlow t x) as [rr [Hr Hty]];
    [now rewrite Hnn|now rewrite Hnn|].
  rewrite Hr. cbn [bind].
  destruct (pratikaGrahanaSearch_spec options loaded Hlow t x Hn Heti)
    as [pm [Hp Hq]].
  rewrite Hp. cbn [bind]. eexists. split; [reflexivity|].
  cbn [matches count]. split; [reflexivity|].
  intros m Hin Hm.
  assert (Hin' : In m (fold_left pushUnlessDuplicate pm (matches rr))).
  { destruct (maxResults (config (constructor options loaded)) =? 0);
      [|apply In_sliceArray in Hin]; now apply In_sortBy in Hin. }
  apply In_fold_pushUnlessDuplicate in Hin' as [Hin'|Hin'].
  - now elim (Hty m Hin').
  - rewrite Forall_forall in Hq. destruct (Hq m Hin') as [_ H]. exact H.
Qed.

Lemma pratika_grahana_search_returns_witness :
  exists r,
    searchWithPratikaGrahana (P := Devanagari.runtime)
                             (constructor noOptions true)
                             (VString (u "नारायण"))
                             (VString (u "नारायणेति मन्त्रः")) = Normal r
    /\ count r = Z.of_nat (List.length (matches r))
    /\ forall m,
         In m (matches r) -> type m = pratika_grahana ->
         originalTerm m
         = Some (normalize (Platform := Devanagari.runtime) (u "नारायण"))
         /\ exists v,
             In v (generatePratikaVariations
                     (constructor noOptions true)
                     (normalize (Platform := Devanagari.runtime) (u "नारायण")))
             /\ pratikaPattern m = Some (pattern v)
             /\ foldedOccurrence (P := Devanagari.runtime)
                                 (constructor noOptions true)
                                 [SanskritSearch.text v]
                                 (normalize (Platform := Devanagari.runtime)
                                            (u "नारायणेति मन्त्रः")) m.
Proof.
  apply (pratika_grahana_search_returns (P := Devanagari.runtime)
           noOptions true (u "नारायण") (u "नारायणेति मन्त्रः")).
  - intros [|c s] H; [contradiction|discriminate].
  - vm_compute. discriminate.
  - vm_compute. reflexivity.
  - vm_compute. discriminate.
Defined.

(** X21. Whenever [searchWithPratikaGrahana] returns, its matches are in
    the order of their positions, no two of them have the same position
    and length, and there are at most [maxResults] of them when that
    number is positive, also for a term that [search] handles in
    precision mode. *)
Theorem pratika_grahana_results_sorted_and_capped {P : Platform}
        (this : Instance) (searchTerm text : value) (r : Results) :
  searchWithPratikaGrahana this searchTerm text = Normal r ->
  StronglySorted byPositionLe (matches r)
  /\ NoDup (map span (matches r))
  /\ count r = Z.of_nat (List.length (matches r))
  /\ (0 < maxResults (config this) -> count r <= maxResults (config this)).
Proof.
  unfold searchWithPratikaGrahana.
  destruct (negb (truthy searchTerm) || negb (truthy text)).
  { intros H. injection H as <-. cbn [matches count noResults].
    split; [constructor|]. split; [constructor|]. split; [reflexivity|lia]. }
  destruct searchTerm as [| | | | |term|]; try discriminate.
  destruct text as [| | | | |txt|]; try discriminate.
  unfold searchWithPratikaGrahanaStrings.
  destruct (search this (VString (normalize term)) (VString (normalize txt)))
    as [rr| |] eqn:Er; cbn [bind]; try discriminate.
  destruct (pratikaGrahanaSearch this (normalize term) (normalize txt))
    as [pm| |]; cbn [bind]; try discriminate.
  intros H. injection H as <-. cbn [matches count].
  destruct (search_sorted_distinct this _ _ _ Er) as [_ [Hnd _]].
  set (ms := fold_left pushUnlessDuplicate pm (matches rr)).
  assert (Hms : NoDup (map span ms))
    by now apply fold_pushUnlessDuplicate_NoDup.
  assert (Hsorted : StronglySorted byPositionLe (sortBy byPosition ms))
    by apply sortBy_byPosition.
  assert (Hnodup : NoDup (map span (sortBy byPosition ms)))
    by (apply (Permutation_NoDup
                 (Permutation_map span (sortBy_perm byPosition ms)));
        exact Hms).
  destruct (maxResults (config this) =? 0) eqn:E0.
  - apply Z.eqb_eq in E0. split; [exact Hsorted|]. split; [exact Hnodup|].
    split; [reflexivity|lia].
  - destruct (sliceArray_from_start (sortBy byPosition ms)
                (maxResults (config this))) as [k [-> Hk]].
    split; [now apply StronglySorted_firstn|]. split.
    + rewrite <- firstn_map. now apply NoDup_firstn.
    + split; [reflexivity|]. intros Hpos. rewrite length_firstn.
      specialize (Hk Hpos). lia.
Qed.

Lemma pratika_grahana_results_sorted_and_capped_witness :
  exists r,
    searchWithPratikaGrahana (P := Devanagari.runtime)
                             (constructor noOptions true)
                             (VString (u "नारायण"))
                             (VString (u "नारायणेति मन्त्रः")) = Normal r
    /\ StronglySorted byPositionLe (matches r)
    /\ NoDup (map span (matches r))
    /\ count r = Z.of_nat (List.length (matches r))
    /\ (0 < maxResults (config (constructor noOptions true)) ->
        count r <= maxResults (config (constructor noOptions true))).
Proof.
  eexists. split.
  - vm_compute. reflexivity.
  - apply (pratika_grahana_results_sorted_and_capped
             (P := Devanagari.runtime) (constructor noOptions true)
             (VString (u "नारायण")) (VString (u "नारायणेति मन्त्रः"))).
    vm_compute. reflexivity.
Defined.

(** X22. [searchWithPratikaGrahana] does not return when the term is
    [ेति]: the first variation of the term is the empty string, and the
    loop of [directSearch] over the occurrences of the empty string does
    not move forward. *)
Theorem pratika_grahana_search_of_eti_diverges {P : Platform}
        (options : Options) (loaded : bool) (term text : str) :
  term <> [] -> text <> [] ->
  normalize term = u "ेति" ->
  normalize (u "ेति") = u "ेति" ->
  toLowerCase [] = [] ->
  searchWithPratikaGrahana (constructor options loaded)
                           (VString term) (VString text) = Diverges.
Proof.
  intros Ht Hx Hterm Hn Hlow. unfold searchWithPratikaGrahana, truthy.
  rewrite (proj2 (eqb_neq term []) Ht), (proj2 (eqb_neq text []) Hx).
  cbn [negb orb]. unfold searchWithPratikaGrahanaStrings. rewrite Hterm.
  set (this := constructor options loaded). set (x := normalize text).
  assert (Hs : exists rr, search this (VString (u "ेति")) (VString x)
                          = Normal rr).
  { unfold search.
    destruct (negb (truthy (VString (u "ेति"))) || negb (truthy (VString x)));
      [now eexists|].
    unfold searchStrings. rewrite Hn.
    ev (hasEndingMarker (u "ेति")).
    destruct (exactWordSearch_spec this (u "ेति") (normalize x))
      as [r [Hr _]]; [rewrite Hn; vm_compute; reflexivity|].
    now exists r. }
  destruct Hs as [rr ->]. cbn [bind].
  assert (Hp : pratikaGrahanaSearch this (u "ेति") x = Diverges).
  { unfold pratikaGrahanaSearch.
    assert (Hv : match generatePratikaVariations this (u "ेति") with
                 | v :: _ => eqb (SanskritSearch.text v) []
                 | [] => false
                 end = true).
    { unfold generatePratikaVariations, this.
      cbn [itiSandhiMap constructor]. vm_compute. reflexivity. }
    destruct (generatePratikaVariations this (u "ेति")) as [|[vt vp] rest];
      [discriminate|].
    cbn [SanskritSearch.text] in Hv. apply eqb_eq in Hv. subst vt.
    cbn [forEach]. unfold directSearch.
    rewrite directLoop_empty_pattern; [reflexivity|].
    destruct (caseSensitive (config this)); [reflexivity|exact Hlow]. }
  rewrite Hp. reflexivity.
Qed.

Lemma pratika_grahana_search_of_eti_diverges_witness :
  searchWithPratikaGrahana (P := Devanagari.runtime)
                           (constructor noOptions true)
                           (VString (u "ेति")) (VString (u "रामेति"))
  = Diverges.
Proof.
  apply (pratika_grahana_search_of_eti_diverges (P := Devanagari.runtime)
           noOptions true (u "ेति") (u "रामेति")).
  - vm_compute. discriminate.
  - vm_compute. discriminate.
  - vm_compute. reflexivity.
  - vm_compute. reflexivity.
  - reflexivity.
Defined.

(** X23. Whenever [search] returns, its matches are in the order of
    their positions and no two of them have the same position and
    length; [count] is the number of the matches; in fuzzy mode there
    are at most [maxResults] of them when that number is positive. *)
Theorem search_results_sorted_and_distinct {P : Platform} (this : Instance)
        (searchTerm text : value) (r : Results) :
  search this searchTerm text = Normal r ->
  StronglySorted byPositionLe (matches r)
  /\ NoDup (map span (matches r))
  /\ count r = Z.of_nat (List.length (matches r))
  /\ (forall term,
         searchTerm = VString term ->
         hasEndingMarker (normalize term) = false ->
         0 < maxResults (config this) ->
         count r <= maxResults (config this)).
Proof.
  intros H.
  assert (Hc : count r = Z.of_nat (List.length (matches r))).
  { unfold search in H.
    destruct (negb (truthy searchTerm) || negb (truthy text));
      [now injection H as <-|].
    destruct searchTerm as [| | | | |term|]; try discriminate.
    destruct text as [| | | | |txt|]; try discriminate.
    unfold searchStrings in H.
    destruct (hasEndingMarker (normalize term)).
    - unfold exactWordSearch in H.
      destruct (eqb (normalize term) [] || eqb (normalize txt) []);
        [now injection H as <-|].
      destruct (forEach _ _ _); cbn [bind] in H; try discriminate.
      now injection H as <-.
    - destruct (directSearch this (normalize term) (normalize txt));
        cbn [bind] in H; try discriminate.
      destruct (enableSandhi (config this) && sandhiRules this).
      + destruct (sandhiAwareSearch this (normalize term) (normalize txt));
          cbn [bind] in H; try discriminate.
        now injection H as <-.
      + cbn [bind] in H. now injection H as <-. }
  destruct (search_sorted_distinct this searchTerm text r H)
    as [Hs [Hn Hm]].
  split; [exact Hs|]. split; [exact Hn|]. split; [exact Hc|].
  intros term Et Em Hpos. rewrite Hc. now apply (Hm term).
Qed.

Lemma search_results_sorted_and_distinct_witness :
  exists r,
    search (P := Devanagari.runtime) (constructor noOptions true)
           (VString (u "देव")) (VString (u "देवो देवेन देवाय")) = Normal r
    /\ StronglySorted byPositionLe (matches r)
    /\ NoDup (map span (matches r))
    /\ count r = Z.of_nat (List.length (matches r))
    /\ (forall term,
           VString (u "देव") = VString term ->
           hasEndingMarker (normalize (Platform := Devanagari.runtime) term)
           = false ->
           0 < maxResults (config (constructor noOptions true)) ->
           count r <= maxResults (config (constructor noOptions true))).
Proof.
  eexists. split.
  - vm_compute. reflexivity.
  - apply (search_results_sorted_and_distinct (P := Devanagari.runtime)
             (constructor noOptions true)
             (VString (u "देव")) (VString (u "देवो देवेन देवाय"))).
    vm_compute. reflexivity.
Defined.

(** X24. The phonetic variants of a term begin with the term itself and
    hold no string twice; when the term is not empty, none of them is
    empty. *)
Theorem phonetic_variants_are_distinct_and_not_empty (term : str) :
  (exists rest, generatePhoneticVariants term = term :: rest)
  /\ NoDup (generatePhoneticVariants term)
  /\ (term <> [] -> Forall (fun v => v <> []) (generatePhoneticVariants term)).
Proof.
  split; [apply variants_head|]. split; [apply NoDup_uniq|].
  intros Ht. apply Forall_forall. intros v Hv.
  unfold generatePhoneticVariants in Hv. apply In_uniq in Hv.
  destruct Hv as [<-|Hv]; [exact Ht|]. rewrite app_nil_l in Hv.
  do 17 (apply in_app_or in Hv; destruct Hv as [Hv|Hv];
         [unfold pushIfIncludes in Hv;
          match type of Hv with
          | In _ (if ?b then _ else _) => destruct b
          end;
          [destruct Hv as [<-|[]];
           apply replaceAll_last;
           [vm_compute; discriminate|vm_compute; discriminate|exact Ht]
          |contradiction]|]).
  destruct (includes term (u "स्")); [|contradiction].
  destruct Hv as [<-|[]].
  apply replaceAtEnd_last; [vm_compute; discriminate|exact Ht].
Qed.

(** X25. For a stem that ends in a consonant without a mark, and not in
    [ति], the variations for the pratika search hold the stem before
    [ेति], under the pattern [stem->ेति]. *)
Theorem unmarked_stem_gets_eti_variation (options : Options) (loaded : bool)
        (stem : str) (c : Z) :
  lastChar stem = Some c ->
  ~ In c sanskritEndings ->
  endsWith stem (u "ति") = false ->
  In {| text := stem ++ u "ेति"; pattern := u "stem->" ++ u "ेति" |}
     (generatePratikaVariations (constructor options loaded) stem).
Proof.
  intros Hc Hin Hti. unfold generatePratikaVariations.
  cbn [itiSandhiMap constructor]. apply in_or_app. right.
  rewrite Hti. cbn [negb]. apply in_flat_map. exists []. split.
  - apply In_sortBy. vm_compute. tauto.
  - replace (get (forward createItiSandhiMap) []) with (Some (u "ेति"))
      by (vm_compute; reflexivity).
    cbn [eqb]. rewrite Hc.
    destruct (inClass sanskritEndings c) eqn:E;
      [apply inClass_In in E; contradiction|].
    now left.
Qed.

Lemma unmarked_stem_gets_eti_variation_witness :
  In {| text := u "नारायण" ++ u "ेति"; pattern := u "stem->" ++ u "ेति" |}
     (generatePratikaVariations (constructor noOptions true) (u "नारायण")).
Proof.
  apply (unmarked_stem_gets_eti_variation noOptions true (u "नारायण") 2339).
  - vm_compute. reflexivity.
  - vm_compute. intuition discriminate.
  - vm_compute. reflexivity.
Defined.

(** ** The index and the documents *)

(** X26. The search through an index returns nothing the search through
    all the documents does not return: whatever the index holds, when
    both searches return, every result of [searchWithIndex] is a result
    of [searchMultiple] over the documents. *)
Theorem indexed_results_are_full_search_results {P : Platform}
        (this : Instance) (term : str) (index : Index)
        (docs : list Document.t) (indexed full : list DocumentResults) :
  searchWithIndex this term index docs = Normal indexed ->
  searchMultiple this term (map Some docs) = Normal full ->
  incl indexed full.
Proof.
  unfold searchWithIndex. intros Hi Hf r Hr.
  apply (searchMultiple_In this term _ indexed r Hi) in Hr
    as [d [res [Hd [Hs [Hc ->]]]]].
  apply (searchMultiple_In this term _ full (resultFor d res) Hf).
  exists d, res. split; [|auto].
  apply in_map_iff in Hd as [i [Hi' _]].
  apply in_map. eapply nth_error_In. exact Hi'.
Qed.

Lemma indexed_results_are_full_search_results_witness :
  exists indexed full,
    searchWithIndex (P := Devanagari.runtime) (constructor noOptions true)
      (u "देवो")
      (createIndex
         [{| Document.id := u "doc1"; Document.text := u "देवो गच्छति";
             Document.metadata := None |};
          {| Document.id := u "doc2"; Document.text := u "देवोऽसुरः";
             Document.metadata := None |}])
      [{| Document.id := u "doc1"; Document.text := u "देवो गच्छति";
          Document.metadata := None |};
       {| Document.id := u "doc2"; Document.text := u "देवोऽसुरः";
          Document.metadata := None |}]
    = Normal indexed
    /\ searchMultiple (P := Devanagari.runtime) (constructor noOptions true)
         (u "देवो")
         (map Some
              [{| Document.id := u "doc1"; Document.text := u "देवो गच्छति";
                  Document.metadata := None |};
               {| Document.id := u "doc2"; Document.text := u "देवोऽसुरः";
                  Document.metadata := None |}])
       = Normal full
    /\ incl indexed full.
Proof.
  eexists. eexists. split; [vm_compute; reflexivity|].
  split; [vm_compute; reflexivity|].
  apply (indexed_results_are_full_search_results (P := Devanagari.runtime)
           (constructor noOptions true) (u "देवो")
           (createIndex
              [{| Document.id := u "doc1"; Document.text := u "देवो गच्छति";
                  Document.metadata := None |};
               {| Document.id := u "doc2"; Document.text := u "देवोऽसुरः";
                  Document.metadata := None |}])
           [{| Document.id := u "doc1"; Document.text := u "देवो गच्छति";
               Document.metadata := None |};
            {| Document.id := u "doc2"; Document.text := u "देवोऽसुरः";
               Document.metadata := None |}]);
    vm_compute; reflexivity.
Defined.

Lemma mapM_throws {A B : Type} (f : A -> completion B) (l : list A) :
  (forall x, In x l -> f x = ThrowTypeError \/ exists y, f x = Normal y) ->
  (exists x, In x l /\ f x = ThrowTypeError) ->
  mapM f l = ThrowTypeError.
Proof.
  induction l as [|x l IH]; intros Hall [z [Hz Ez]]; [contradiction|].
  cbn [mapM]. destruct (Hall x (or_introl eq_refl)) as [E|[y E]];
    rewrite E; [reflexivity|]. cbn [bind].
  rewrite IH; [reflexivity| |].
  - intros w Hw. apply Hall. now right.
  - destruct Hz as [->|Hz]; [congruence|]. now exists z.
Qed.

(** X27. An index that names a document the list of documents does not
    have makes [searchWithIndex] throw: when a word of the term leads,
    through the index, to an ordinal beyond the documents, the element
    read there is [undefined] and reading its [text] is a [TypeError]. *)
Theorem stale_index_throws {P : Platform} (options : Options)
        (loaded : bool) (term : str) (index : Index)
        (docs : list Document.t) :
  (forall s, s <> [] -> toLowerCase s <> []) ->
  normalize term <> [] ->
  normalize (normalize term) = normalize term ->
  (exists i, In i (relevantDocIndices term index)
             /\ nth_error docs i = None) ->
  searchWithIndex (constructor options loaded) term index docs
  = ThrowTypeError.
Proof.
  intros Hlow Hn Hnn [i [Hi Hnone]].
  unfold searchWithIndex, searchMultiple.
  rewrite mapM_throws; [reflexivity| |].
  - intros [d|] _; [right|now left]. cbn [searchDocument].
    destruct (search_returns options loaded Hlow term (Document.text d)
                Hn Hnn) as [r [Hr _]].
    rewrite Hr. cbn [bind]. now eexists.
  - exists None. split; [|reflexivity].
    apply in_map_iff. now exists i.
Qed.

Lemma stale_index_throws_witness :
  searchWithIndex (P := Devanagari.runtime) (constructor noOptions true)
    (u "रामो")
    (createIndex
       [{| Document.id := u "doc1"; Document.text := u "देवो गच्छति";
           Document.metadata := None |};
        {| Document.id := u "doc2"; Document.text := u "रामो गच्छति";
           Document.metadata := None |}])
    [{| Document.id := u "doc1"; Document.text := u "देवो गच्छति";
        Document.metadata := None |}]
  = ThrowTypeError.
Proof.
  apply (stale_index_throws (P := Devanagari.runtime) noOptions true).
  - intros [|c s] H; [contradiction|discriminate].
  - vm_compute. discriminate.
  - vm_compute. reflexivity.
  - exists 1%nat. split; [vm_compute; tauto|reflexivity].
Defined.

End EngineFacts.
